(** * JoJo: the job-market dashboard's data pipeline (app.py)

    A shallow embedding of the pure part of [app.py]: the two field parsers
    ([process_salary], [process_experience]), the loader ([load_data]), the
    sidebar filter ([mask] / [filtered_df]), the two skill rankings, the job
    search and the CSV download.

    Modelling conventions.
    - Text is a [string] of ASCII characters; [\d] is one of '0'..'9', and
      letter case is ASCII case.
    - A Python [float] is modelled by the rational number it stands for
      (kept in lowest terms); rounding and overflow of binary floating
      point are outside the model.  A property of a number is therefore
      stated only in a form the rounding keeps: as the program's own
      expression, as a bound with room for the rounding, or under a bound
      on the size of the numbers that keeps them inside the range of a
      float.
    - A Python exception is the [Raise] outcome of the [result] monad.
    - A table is the list of its records, in order; a record has the
      columns of the dataset and those [load_data] adds.
    - Library calls whose outcome the program does not fix (the order a
      pandas sort leaves ties in, the date parser, the regular-expression
      engine, the rendering of numbers and dates in a CSV file) are taken
      through interfaces ([Sorter], [DateParser], [Regex], [Formatter]),
      each with an instance to run the program with. *)

From Stdlib Require Import List String Ascii Bool Arith ZArith QArith Lia.
From Stdlib Require Import Permutation Sorted.
From Stdlib Require Import Numbers.DecimalString.
From Stdlib Require OrderedTypeEx.
From Equations Require Import Equations.
Import ListNotations.

Close Scope Q_scope.
Close Scope Z_scope.
Open Scope nat_scope.
Open Scope string_scope.
Open Scope list_scope.

(** ** Python values, exceptions *)

Inductive exn : Type :=
| ValueError
| TypeError
| IndexError
| AttributeError
| ReError.

Inductive result (A : Type) : Type :=
| Ok (a : A)
| Raise (e : exn).
Arguments Ok {A} a.
Arguments Raise {A} e.

Definition bind {A B : Type} (m : result A) (k : A -> result B) : result B :=
  match m with
  | Ok a => k a
  | Raise e => Raise e
  end.

Notation "x <- m ;; k" := (bind m (fun x => k))
  (at level 61, m at next level, right associativity).

(** What a cell handed to a parser can be: pandas gives a [str], the float
    [nan] for a missing value, or a number when the whole column is numeric.
    (Finite floats other than integers are not modelled.) *)
Inductive pyval : Type :=
| PStr (s : string)
| PNone
| PNaN
| PInt (z : Z)
| PBool (b : bool).

(** Python's [str(x)]. *)
Definition str (v : pyval) : string :=
  match v with
  | PStr s => s
  | PNone => "None"
  | PNaN => "nan"
  | PInt z => NilEmpty.string_of_int (Z.to_int z)
  | PBool true => "True"
  | PBool false => "False"
  end.

(** ** The pattern [(\d+(?:\.\d+)?)] *)

Definition is_digit (c : ascii) : bool :=
  ((48 <=? nat_of_ascii c) && (nat_of_ascii c <=? 57))%nat.
Arguments is_digit : simpl never.

(** Greedy [\d*] at the head of [s]: the run of digits and what follows. *)
Fixpoint digits_run (s : string) : string * string :=
  match s with
  | String c s' =>
      if is_digit c
      then let (d, r) := digits_run s' in (String c d, r)
      else (EmptyString, s)
  | EmptyString => (EmptyString, EmptyString)
  end.

(** [\d+] *)
Definition match_digits (s : string) : option (string * string) :=
  match digits_run s with
  | (EmptyString, _) => None
  | (d, r) => Some (d, r)
  end.

(** [(?:\.\d+)?]: the group is taken when it matches, else it is empty. *)
Definition match_fraction (s : string) : string * string :=
  match s with
  | String "." s' =>
      match match_digits s' with
      | Some (d, r) => (String "." d, r)
      | None => (EmptyString, s)
      end
  | _ => (EmptyString, s)
  end.

(** The whole pattern, anchored at the head of [s]. *)
Definition match_number (s : string) : option (string * string) :=
  match match_digits s with
  | Some (d, r) => let (f, r') := match_fraction r in Some ((d ++ f)%string, r')
  | None => None
  end.

Lemma digits_run_split s d r :
  digits_run s = (d, r) -> s = (d ++ r)%string.
Proof.
  revert d r. induction s as [|c s IH]; simpl; intros d r H.
  - inversion H. reflexivity.
  - destruct (is_digit c).
    + destruct (digits_run s) as [d' r'] eqn:E. inversion H; subst.
      simpl. f_equal. apply IH. reflexivity.
    + inversion H. reflexivity.
Qed.

Lemma match_digits_split s d r :
  match_digits s = Some (d, r) -> s = (d ++ r)%string /\ d <> EmptyString.
Proof.
  unfold match_digits. destruct (digits_run s) as [d' r'] eqn:E.
  destruct d' as [|c d']; [discriminate|].
  intros H. inversion H; subst. split; [now apply digits_run_split | discriminate].
Qed.

Lemma match_fraction_split s f r :
  match_fraction s = (f, r) -> s = (f ++ r)%string.
Proof.
  unfold match_fraction. destruct s as [|c s]; [intros H; inversion H; reflexivity|].
  destruct (Ascii.eqb c ".") eqn:Ec.
  - apply Ascii.eqb_eq in Ec. subst c.
    destruct (match_digits s) as [[d r']|] eqn:E.
    + intros H. inversion H; subst. apply match_digits_split in E as [-> _]. reflexivity.
    + intros H. inversion H; reflexivity.
  - assert (Hgen : (EmptyString, String c s) = (f, r) -> String c s = (f ++ r)%string)
      by (intros H; inversion H; reflexivity).
    destruct c as [[] [] [] [] [] [] [] []]; try exact Hgen.
    discriminate Ec.
Qed.

Lemma append_assoc (a b c : string) :
  ((a ++ b) ++ c = a ++ (b ++ c))%string.
Proof. induction a; simpl; congruence. Qed.

Lemma append_nil_r (a : string) : (a ++ EmptyString)%string = a.
Proof. induction a; simpl; congruence. Qed.

Lemma length_append (a b : string) :
  String.length (a ++ b) = String.length a + String.length b.
Proof. induction a; simpl; congruence. Qed.

Lemma match_number_split s tok rest :
  match_number s = Some (tok, rest) ->
  s = (tok ++ rest)%string /\ tok <> EmptyString.
Proof.
  unfold match_number. destruct (match_digits s) as [[d r]|] eqn:E; [|discriminate].
  destruct (match_fraction r) as [f r'] eqn:F. intros H; inversion H; subst.
  apply match_digits_split in E as [-> Hd]. apply match_fraction_split in F as ->.
  split.
  - symmetry. apply append_assoc.
  - destruct d; [congruence | discriminate].
Qed.

Lemma match_number_shorter s tok rest :
  match_number s = Some (tok, rest) -> String.length rest < String.length s.
Proof.
  intros H. apply match_number_split in H as [-> Ht].
  rewrite length_append. destruct tok; [congruence | simpl; lia].
Qed.

Definition inspect {A : Type} (a : A) : {b : A | a = b} := exist _ a eq_refl.

(** [re.findall]: scan left to right; a match is reported and the scan goes on
    after it, a position with no match is skipped. *)
Equations? findall (s : string) : list string by wf (String.length s) lt :=
  findall EmptyString := [];
  findall (String c s') with inspect (match_number (String c s')) => {
    | exist _ (Some (tok, rest)) _ := tok :: findall rest;
    | exist _ None _ := findall s' }.
Proof.
  apply match_number_shorter in e. simpl in e. exact e.
Qed.

(** ** Python's [float] on a decimal literal *)

Definition digit_value (c : ascii) : Z := (Z.of_nat (nat_of_ascii c) - 48)%Z.

Fixpoint int_of_digits (acc : Z) (s : string) : Z :=
  match s with
  | EmptyString => acc
  | String c s' => int_of_digits (10 * acc + digit_value c)%Z s'
  end.

Fixpoint all_digits (s : string) : bool :=
  match s with
  | EmptyString => true
  | String c s' => is_digit c && all_digits s'
  end.

Fixpoint pow10 (n : nat) : positive :=
  match n with
  | O => 1%positive
  | S n' => (10 * pow10 n')%positive
  end.

(** The text before the first '.', and the text after it when there is one. *)
Fixpoint split_point (s : string) : string * option string :=
  match s with
  | EmptyString => (EmptyString, None)
  | String c s' =>
      if Ascii.eqb c "."
      then (EmptyString, Some s')
      else let (i, f) := split_point s' in (String c i, f)
  end.

(** [float(s)] for [s] a plain decimal literal: digits, at most one point,
    at least one digit.  [None] is Python's [ValueError]; the other literal
    forms [float] reads (signs, exponents, blanks, underscores, inf, nan) are
    not modelled and are [None] here as well.  The result is the number the
    literal stands for; Python returns the float nearest to it, and inf for
    a literal above about 1.8e308. *)
Definition float (s : string) : option Q :=
  let (i, f) := split_point s in
  match f with
  | None =>
      if all_digits i && negb (i =? EmptyString)%string
      then Some (inject_Z (int_of_digits 0 i))
      else None
  | Some f =>
      if all_digits i && all_digits f
         && negb ((i =? EmptyString) && (f =? EmptyString))%string
      then Some (Qred (Qmake (int_of_digits (int_of_digits 0 i) f)
                             (pow10 (String.length f))))
      else None
  end.

Definition pyfloat (s : string) : result Q :=
  match float s with
  | Some q => Ok q
  | None => Raise ValueError
  end.

(** [l[i]] *)
Definition item {A : Type} (l : list A) (i : nat) : result A :=
  match nth_error l i with
  | Some x => Ok x
  | None => Raise IndexError
  end.

(** ** Field parsers *)

(** The [pd.Series] that [process_salary] returns. *)
Record salary_info : Type := {
  min_salary : option Q;
  max_salary : option Q;
  avg_salary : option Q
}.

Definition no_salary : salary_info :=
  {| min_salary := None; max_salary := None; avg_salary := None |}.

(** [(x + y) / 2], of the numbers; the float sum of two large floats can
    leave the range of a float. *)
Definition mean2 (x y : Q) : Q := Qred ((x + y) / 2).

Definition process_salary (salary_range : pyval) : result salary_info :=
  let numbers := findall (str salary_range) in
  if (2 <=? List.length numbers)%nat then
    n0 <- item numbers 0 ;;
    min <- pyfloat n0 ;;
    n1 <- item numbers 1 ;;
    max <- pyfloat n1 ;;
    let avg := mean2 min max in
    Ok {| min_salary := Some min; max_salary := Some max; avg_salary := Some avg |}
  else Ok no_salary.

Definition process_experience (exp : pyval) : result (option Q) :=
  let numbers := findall (str exp) in
  if (2 <=? List.length numbers)%nat then
    n0 <- item numbers 0 ;;
    a <- pyfloat n0 ;;
    n1 <- item numbers 1 ;;
    b <- pyfloat n1 ;;
    Ok (Some (mean2 a b))
  else if (List.length numbers =? 1)%nat then
    n0 <- item numbers 0 ;;
    a <- pyfloat n0 ;;
    Ok (Some a)
  else Ok None.

(** ** What [findall] returns, said without the scanner *)

Fixpoint no_digit (s : string) : bool :=
  match s with
  | EmptyString => true
  | String c s' => negb (is_digit c) && no_digit s'
  end.

Definition starts_with_digit (s : string) : bool :=
  match s with
  | String c _ => is_digit c
  | EmptyString => false
  end.

Definition nonempty (s : string) : bool :=
  match s with
  | EmptyString => false
  | String _ _ => true
  end.

(** An integer or decimal literal: digits, or digits, a point, digits. *)
Definition is_number (t : string) : bool :=
  let (i, f) := split_point t in
  all_digits i && nonempty i &&
  match f with
  | None => true
  | Some f => all_digits f && nonempty f
  end.

Definition has_point (t : string) : bool :=
  match snd (split_point t) with
  | Some _ => true
  | None => false
  end.

(** The literal [t], standing just before [rest], is as long as it can be. *)
Definition maximal (t rest : string) : bool :=
  negb (starts_with_digit rest) &&
  (has_point t ||
   match rest with
   | String "." r => negb (starts_with_digit r)
   | _ => true
   end).

(** [Scan text toks]: [text] is digit-free gaps alternating with the literals
    [toks], left to right, each literal as long as it can be. *)
Inductive Scan : string -> list string -> Prop :=
| Scan_end g :
    no_digit g = true -> Scan g []
| Scan_tok g t rest toks :
    no_digit g = true -> is_number t = true -> maximal t rest = true ->
    Scan rest toks ->
    Scan (g ++ t ++ rest)%string (t :: toks).

(** ** The table *)

(** A [datetime.date], by its day number ([date.toordinal()]). *)
Definition date : Type := Z.

(** A pandas [Timestamp]: the day and the time of day, in seconds. *)
Record Timestamp : Type := {
  ts_date : date;
  ts_seconds : Z
}.

(** [pd.to_datetime] on a column ([None]: some text of the column is no
    date, and pandas raises).  The result has one timestamp per cell. *)
Class DateParser : Type := {
  to_datetime : list string -> option (list Timestamp);
  to_datetime_length :
    forall col ts, to_datetime col = Some ts -> List.length ts = List.length col
}.

(** A text cell of an object column: a [str], or [None] for pandas' missing
    value. *)
Definition text_cell : Type := option string.

(** One record of the dataset as [pd.read_csv] returns it.

    Modelled from the spec: the dataset file is not part of the source; the
    columns are the required columns of the spec's section 6, in that order. *)
Record RawRow : Type := {
  Job_ID : Z;
  Job_Title : text_cell;
  Company_Name : text_cell;
  Job_Location : text_cell;
  Job_Type : text_cell;
  Company_Size : text_cell;
  Salary_Range : pyval;
  Experience_Required : pyval;
  Skills_Required : text_cell;
  Posted_Date_text : string;
  Application_Deadline_text : string;
  Remote_Onsite : text_cell;
  Education_Requirement : text_cell;
  Number_of_Applicants : Z
}.

(** One record of [df] after [load_data]: the columns read, then the columns
    added, in the order [load_data] adds them. *)
Record Row : Type := {
  raw : RawRow;
  salary : salary_info;
  Experience_Years : option Q;
  Posted_Date : Timestamp;
  Application_Deadline : Timestamp;
  Skills_List : option (list string)
}.

(** [s.split(sep)] for a one-character separator. *)
Fixpoint split (sep : ascii) (s : string) : list string :=
  match s with
  | EmptyString => [EmptyString]
  | String c s' =>
      if Ascii.eqb c sep then EmptyString :: split sep s'
      else match split sep s' with
           | h :: t => String c h :: t
           | [] => [String c EmptyString]
           end
  end.

(** [Series.str.split(',')]: a missing cell stays missing. *)
Definition str_split (cell : text_cell) : option (list string) :=
  option_map (split ",") cell.

(** White space for [str.strip()], among the characters below 256: the
    characters [str.isspace()] holds of. *)
Definition is_space (c : ascii) : bool :=
  match nat_of_ascii c with
  | 9 | 10 | 11 | 12 | 13 | 28 | 29 | 30 | 31 | 32 | 133 | 160 => true
  | _ => false
  end.

Fixpoint lstrip (s : string) : string :=
  match s with
  | String c s' => if is_space c then lstrip s' else s
  | EmptyString => EmptyString
  end.

Fixpoint rstrip (s : string) : string :=
  match s with
  | EmptyString => EmptyString
  | String c s' =>
      match rstrip s' with
      | EmptyString => if is_space c then EmptyString else String c EmptyString
      | r => String c r
      end
  end.

(** [s.strip()] *)
Definition strip (s : string) : string := rstrip (lstrip s).

(** [pd.to_datetime(df[col])] *)
Definition parse_dates `{DateParser} (col : list string) : result (list Timestamp) :=
  match to_datetime col with
  | Some ts => Ok ts
  | None => Raise ValueError
  end.

(** [Series.apply(f)] *)
Fixpoint mapM {A B : Type} (f : A -> result B) (l : list A) : result (list B) :=
  match l with
  | [] => Ok []
  | x :: l' => y <- f x ;; ys <- mapM f l' ;; Ok (y :: ys)
  end.

(** The table with the new columns put beside the columns read. *)
Fixpoint add_columns (csv : list RawRow) (salary_info : list salary_info)
    (experience : list (option Q)) (posted deadline : list Timestamp)
    : list Row :=
  match csv, salary_info, experience, posted, deadline with
  | r :: csv', s :: salary_info', e :: experience', p :: posted', d :: deadline' =>
      {| raw := r;
         salary := s;
         Experience_Years := e;
         Posted_Date := p;
         Application_Deadline := d;
         Skills_List := str_split (Skills_Required r) |}
      :: add_columns csv' salary_info' experience' posted' deadline'
  | _, _, _, _, _ => []
  end.

(** [notna()] on one cell. *)
Definition notna {A : Type} (cell : option A) : bool :=
  match cell with
  | Some _ => true
  | None => false
  end.

(** [Series.str], the accessor of a column of text.  [pd.read_csv] reads a
    column that has records and no text in any of them as a column of
    floats, and such a column has no [.str]. *)
Definition str_accessor (col : list text_cell) : result (list text_cell) :=
  match col with
  | [] => Ok []
  | _ :: _ => if existsb notna col then Ok col else Raise AttributeError
  end.

(** [load_data], given the records [pd.read_csv] returns. *)
Definition load_data `{DateParser} (csv : list RawRow) : result (list Row) :=
  salary_info <- mapM process_salary (map Salary_Range csv) ;;
  experience <- mapM process_experience (map Experience_Required csv) ;;
  posted <- parse_dates (map Posted_Date_text csv) ;;
  deadline <- parse_dates (map Application_Deadline_text csv) ;;
  text <- str_accessor (map Skills_Required csv) ;;
  Ok (add_columns csv salary_info experience posted deadline).

(** ** The sidebar filter *)

(** [Series.isin(values)] on a text column. *)
Definition isin (cell : text_cell) (values : list string) : bool :=
  match cell with
  | Some s => existsb (String.eqb s) values
  | None => false
  end.

(** [df[mask]] *)
Definition boolean_index {A : Type} (df : list A) (mask : list bool) : list A :=
  map fst (filter snd (combine df mask)).

(** The five tests of [mask], on one record. *)
Definition mask_row (lower upper : date)
    (selected_locations selected_sizes selected_types : list string)
    (r : Row) : bool :=
  (lower <=? ts_date (Posted_Date r))%Z &&
  (ts_date (Posted_Date r) <=? upper)%Z &&
  isin (Job_Location (raw r)) selected_locations &&
  isin (Company_Size (raw r)) selected_sizes &&
  isin (Job_Type (raw r)) selected_types.

(** [mask]; [date_range] is the tuple the date input returns. *)
Definition mask (df : list Row) (date_range : list date)
    (selected_locations selected_sizes selected_types : list string)
    : result (list bool) :=
  lower <- item date_range 0 ;;
  upper <- item date_range 1 ;;
  Ok (map (mask_row lower upper selected_locations selected_sizes selected_types) df).

(** [filtered_df = df[mask]] *)
Definition filtered_df (df : list Row) (date_range : list date)
    (selected_locations selected_sizes selected_types : list string)
    : result (list Row) :=
  m <- mask df date_range selected_locations selected_sizes selected_types ;;
  Ok (boolean_index df m).

(** ** Sorting, as pandas does it for the program *)

(** The order a descending [sort_values] puts keys in: an absent key comes
    after every present one. *)
Definition key_ge (x y : option Q) : Prop :=
  match x, y with
  | _, None => True
  | None, Some _ => False
  | Some a, Some b => (b <= a)%Q
  end.

(** [sort_values(..., ascending=False)].  The program fixes neither the
    algorithm nor the order of records with equal keys: both are the
    library's, and only what every version of it guarantees is assumed. *)
Class Sorter : Type := {
  sort_values : forall A : Type, (A -> option Q) -> list A -> list A;
  sort_values_perm :
    forall (A : Type) (key : A -> option Q) (l : list A),
      Permutation l (sort_values A key l);
  sort_values_sorted :
    forall (A : Type) (key : A -> option Q) (l : list A),
      StronglySorted (fun a b => key_ge (key a) (key b)) (sort_values A key l)
}.

(** [x] is strictly above [y]. *)
Definition key_gtb (x y : option Q) : bool :=
  match x, y with
  | Some a, Some b => negb (Qle_bool a b)
  | Some _, None => true
  | None, _ => false
  end.

(** A stable sort: records with equal keys keep the order they came in. *)
Fixpoint insert_desc {A : Type} (key : A -> option Q) (x : A) (l : list A) : list A :=
  match l with
  | [] => [x]
  | y :: l' =>
      if key_gtb (key y) (key x) then y :: insert_desc key x l'
      else x :: y :: l'
  end.

Definition stable_sort_desc (A : Type) (key : A -> option Q) (l : list A) : list A :=
  fold_right (insert_desc key) [] l.

(** A descending sort that leaves records with equal keys in the reverse of
    the order they came in. *)
Definition reverse_sort_desc (A : Type) (key : A -> option Q) (l : list A) : list A :=
  stable_sort_desc A key (rev l).

(** The keys of a [groupby], each once, in ascending order (by character
    code). *)
Fixpoint insert_key (k : string) (l : list string) : list string :=
  match l with
  | [] => [k]
  | h :: t =>
      match String.compare k h with
      | Lt => k :: h :: t
      | Eq => h :: t
      | Gt => h :: insert_key k t
      end
  end.

Definition group_keys (l : list string) : list string :=
  fold_right insert_key [] l.

(** ** Top skills by frequency *)

(** [for skill in skills]: a missing cell (a float) is not iterable. *)
Definition iter_skills (r : Row) : result (list string) :=
  match Skills_List r with
  | Some skills => Ok skills
  | None => Raise TypeError
  end.

(** [[skill.strip() for skills in filtered_df['Skills_List'] for skill in skills]] *)
Definition all_skills (view : list Row) : result (list string) :=
  per_row <- mapM (fun r => skills <- iter_skills r ;; Ok (map strip skills)) view ;;
  Ok (List.concat per_row).

Definition size_key (p : string * nat) : option Q :=
  Some (inject_Z (Z.of_nat (snd p))).

(** [groupby(...).size()]: every key with the number of its occurrences. *)
Definition groupby_size (l : list string) : list (string * nat) :=
  map (fun k => (k, count_occ string_dec l k)) (group_keys l).

(** [DataFrame.value_counts()]: the sizes of the groups, largest first. *)
Definition value_counts `{Sorter} (l : list string) : list (string * nat) :=
  sort_values _ size_key (groupby_size l).

(** [skills_df] *)
Definition skills_df `{Sorter} (view : list Row) : result (list (string * nat)) :=
  skills <- all_skills view ;;
  Ok (value_counts skills).

(** [skills_df.head(10)], what the chart shows. *)
Definition top_skills `{Sorter} (view : list Row) : result (list (string * nat)) :=
  df <- skills_df view ;;
  Ok (firstn 10 df).

(** ** Highest paying skills *)

(** [filtered_df.explode('Skills_List')]: one record per element of the list;
    an empty list and a missing cell give one record with a missing key. *)
Definition explode_row (r : Row) : list (option string * Row) :=
  match Skills_List r with
  | Some (s :: l) => map (fun k => (Some k, r)) (s :: l)
  | Some [] => [(None, r)]
  | None => [(None, r)]
  end.

Definition explode (view : list Row) : list (option string * Row) :=
  flat_map explode_row view.

(** The keys that are present ([groupby] drops missing keys). *)
Fixpoint present {A : Type} (l : list (option A)) : list A :=
  match l with
  | [] => []
  | Some a :: l' => a :: present l'
  | None :: l' => present l'
  end.

Definition key_is (k : string) (p : option string * Row) : bool :=
  match fst p with
  | Some s => String.eqb s k
  | None => false
  end.

(** The [avg_salary] column of the group of [k]. *)
Definition group_salaries (k : string) (ex : list (option string * Row)) : list (option Q) :=
  map (fun p => avg_salary (salary (snd p))) (filter (key_is k) ex).

Definition Qsum (l : list Q) : Q := fold_right Qplus 0%Q l.

(** ['mean']: over the values that are present; absent when there is none.
    The mean of the numbers; pandas returns the float sum over the count,
    which can differ from it in the last place. *)
Definition series_mean (l : list (option Q)) : option Q :=
  match present l with
  | [] => None
  | q :: p => Some (Qred (Qsum (q :: p) / inject_Z (Z.of_nat (List.length (q :: p)))))
  end.

(** ['count']: the number of values that are present. *)
Definition series_count (l : list (option Q)) : nat :=
  List.length (present l).

(** The nearest integer, a half going to the even neighbour. *)
Definition rint (q : Q) : Z :=
  let n := Qnum q in
  let d := Zpos (Qden q) in
  let f := (n / d)%Z in
  match (2 * (n mod d) ?= d)%Z with
  | Lt => f
  | Gt => (f + 1)%Z
  | Eq => if Z.even f then f else (f + 1)%Z
  end.

(** [round(2)] *)
Definition round2 (q : Q) : Q := Qred (Qmake (rint (q * 100)) 100).

(** One record of [skills_salary_avg]. *)
Record skill_stat : Type := {
  skill : string;
  mean : option Q;
  count : nat
}.

(** [groupby('Skills_List')['avg_salary'].agg(['mean', 'count']).round(2)] *)
Definition agg_mean_count (ex : list (option string * Row)) : list skill_stat :=
  map (fun k =>
         {| skill := k;
            mean := option_map round2 (series_mean (group_salaries k ex));
            count := series_count (group_salaries k ex) |})
      (group_keys (present (map fst ex))).

(** [skills_salary_avg] *)
Definition skills_salary_avg `{Sorter} (view : list Row) : list skill_stat :=
  let skills_salary := explode view in
  let stats := agg_mean_count skills_salary in
  sort_values _ mean (filter (fun e => (5 <=? count e)%nat) stats).

(** [skills_salary_avg.head(10)], what the chart shows. *)
Definition top_paying_skills `{Sorter} (view : list Row) : list skill_stat :=
  firstn 10 (skills_salary_avg view).

(** ** Job search *)

(** ASCII lower case. *)
Definition lower (c : ascii) : ascii :=
  let n := nat_of_ascii c in
  if ((65 <=? n) && (n <=? 90))%nat then ascii_of_nat (n + 32) else c.

Fixpoint lower_string (s : string) : string :=
  match s with
  | EmptyString => EmptyString
  | String c s' => String (lower c) (lower_string s')
  end.

(** [s] starts with [p], letter case apart. *)
Fixpoint prefix_ci (p s : string) : bool :=
  match p, s with
  | EmptyString, _ => true
  | String _ _, EmptyString => false
  | String a p', String b s' => Ascii.eqb (lower a) (lower b) && prefix_ci p' s'
  end.

(** [p] occurs in [s] as a substring, letter case apart. *)
Fixpoint contains_ci (p s : string) : bool :=
  prefix_ci p s ||
  match s with
  | EmptyString => false
  | String _ s' => contains_ci p s'
  end.

(** The characters a regular expression gives a meaning to. *)
Definition is_special (c : ascii) : bool :=
  existsb (Ascii.eqb c)
    ["."; "^"; "$"; "*"; "+"; "?"; "{"; "}"; "["; "]"; "\"; "|"; "("; ")"]%char.

Fixpoint has_special (s : string) : bool :=
  match s with
  | EmptyString => false
  | String c s' => is_special c || has_special s'
  end.

Definition newline : ascii := "010"%char.

Fixpoint any_char (p : ascii -> bool) (s : string) : bool :=
  match s with
  | EmptyString => false
  | String c s' => p c || any_char p s'
  end.

(** The regular-expression engine behind [Series.str.contains], which is
    called with its default [regex=True] and with [case=False]: the search
    term is compiled as a pattern, then searched for in every cell.  Of the
    pattern language only what the properties below need is fixed:
    a pattern with no special character matches where it occurs as a
    substring (letter case apart); the pattern [.] matches any character but
    a newline; a pattern that starts with [*] does not compile. *)
Class Regex : Type := {
  pattern : Type;
  re_compile : string -> result pattern;
  re_search : pattern -> string -> bool;
  re_literal :
    forall p : string, has_special p = false ->
      exists r, re_compile p = Ok r /\ forall s, re_search r s = contains_ci p s;
  re_dot :
    exists r, re_compile "." = Ok r /\
      forall s, re_search r s = any_char (fun c => negb (Ascii.eqb c newline)) s;
  re_nothing_to_repeat :
    forall p : string, re_compile (String "*" p) = Raise ReError
}.

(** [Series.str.contains(pat, case=False, na=False)] on one cell, the pattern
    compiled. *)
Definition str_contains `{Regex} (pat : pattern) (cell : text_cell) : bool :=
  match cell with
  | Some s => re_search pat s
  | None => false
  end.

(** The cells of [search_cols] in one record. *)
Definition search_cols (r : Row) : list text_cell :=
  [Job_Title (raw r); Company_Name (raw r); Job_Location (raw r);
   Skills_Required (raw r)].

(** [search_results] *)
Definition search_results `{Regex} (filtered : list Row) (search_term : string)
    : result (list Row) :=
  if nonempty search_term then
    pat <- re_compile search_term ;;
    let search_mask := map (fun r => existsb (str_contains pat) (search_cols r)) filtered in
    Ok (boolean_index filtered search_mask)
  else Ok filtered.

(** A small engine for the patterns made of plain characters and [.]; it
    refuses every other pattern. *)
Inductive atom : Type :=
| Lit (c : ascii)
| AnyChar.

Fixpoint parse_atoms (s : string) : result (list atom) :=
  match s with
  | EmptyString => Ok []
  | String c s' =>
      if Ascii.eqb c "." then (l <- parse_atoms s' ;; Ok (AnyChar :: l))
      else if is_special c then Raise ReError
      else (l <- parse_atoms s' ;; Ok (Lit c :: l))
  end.

Definition atom_matches (a : atom) (c : ascii) : bool :=
  match a with
  | Lit x => Ascii.eqb (lower x) (lower c)
  | AnyChar => negb (Ascii.eqb c newline)
  end.

Fixpoint atoms_prefix (l : list atom) (s : string) : bool :=
  match l, s with
  | [], _ => true
  | _ :: _, EmptyString => false
  | a :: l', String c s' => atom_matches a c && atoms_prefix l' s'
  end.

Fixpoint atoms_search (l : list atom) (s : string) : bool :=
  atoms_prefix l s ||
  match s with
  | EmptyString => false
  | String _ s' => atoms_search l s'
  end.

(** ** A date parser to run the loader with *)

(** The day number of a calendar date ([date(y, m, d).toordinal()]). *)
Definition ordinal (y m d : Z) : Z :=
  let y' := (if m <=? 2 then y - 1 else y)%Z in
  let era := (y' / 400)%Z in
  let yoe := (y' - era * 400)%Z in
  let mp := (if m <=? 2 then m + 9 else m - 3)%Z in
  let doy := ((153 * mp + 2) / 5 + d - 1)%Z in
  let doe := (yoe * 365 + yoe / 4 - yoe / 100 + doy)%Z in
  (era * 146097 + doe - 305)%Z.

(** Dates written [YYYY-MM-DD], at midnight. *)
Definition iso_date (s : string) : option Timestamp :=
  let y := substring 0 4 s in
  let m := substring 5 2 s in
  let d := substring 8 2 s in
  if ((String.length s =? 10)%nat
      && all_digits y && all_digits m && all_digits d
      && (substring 4 1 s =? "-")%string && (substring 7 1 s =? "-")%string
      && (1 <=? int_of_digits 0 m)%Z && (int_of_digits 0 m <=? 12)%Z
      && (1 <=? int_of_digits 0 d)%Z && (int_of_digits 0 d <=? 31)%Z)%bool
  then Some {| ts_date := ordinal (int_of_digits 0 y) (int_of_digits 0 m) (int_of_digits 0 d);
               ts_seconds := 0 |}
  else None.

Fixpoint iso_dates_column (col : list string) : option (list Timestamp) :=
  match col with
  | [] => Some []
  | s :: col' =>
      match iso_date s, iso_dates_column col' with
      | Some t, Some ts => Some (t :: ts)
      | _, _ => None
      end
  end.

Lemma iso_dates_column_length col ts :
  iso_dates_column col = Some ts -> List.length ts = List.length col.
Proof.
  revert ts. induction col as [|s col IH]; simpl; intros ts H.
  - inversion H. reflexivity.
  - destruct (iso_date s); [|discriminate].
    destruct (iso_dates_column col) as [ts'|]; [|discriminate].
    inversion H; subst. simpl. f_equal. now apply IH.
Qed.

#[export] Instance iso_dates : DateParser := {|
  to_datetime := iso_dates_column;
  to_datetime_length := iso_dates_column_length
|}.

(** Order is kept: [l1] is [l2] with some elements left out. *)
Inductive Subseq {A : Type} : list A -> list A -> Prop :=
| Subseq_nil : Subseq [] []
| Subseq_skip x l1 l2 : Subseq l1 l2 -> Subseq l1 (x :: l2)
| Subseq_keep x l1 l2 : Subseq l1 l2 -> Subseq (x :: l1) (x :: l2).

(** A text cell holds one of [values]. *)
Definition cell_in (cell : text_cell) (values : list string) : Prop :=
  exists s, cell = Some s /\ In s values.

(** ** Records to run the program on *)

Definition posting (id : Z) (title company location type size : string)
    (salary_range experience skills posted : string) : RawRow :=
  {| Job_ID := id;
     Job_Title := Some title;
     Company_Name := Some company;
     Job_Location := Some location;
     Job_Type := Some type;
     Company_Size := Some size;
     Salary_Range := PStr salary_range;
     Experience_Required := PStr experience;
     Skills_Required := Some skills;
     Posted_Date_text := posted;
     Application_Deadline_text := posted;
     Remote_Onsite := Some type;
     Education_Requirement := Some "B.Tech";
     Number_of_Applicants := 10 |}.

(** The three postings of the spec's end-to-end example. *)
Definition fixture : list RawRow :=
  [ posting 1 "Data Analyst" "Acme" "Mumbai" "Remote" "Small"
      "6-10 LPA" "2-5 years" "Python, SQL" "2024-01-05";
    posting 2 "Developer" "Bolt" "Delhi" "Onsite" "Large"
      "4-8 LPA" "3 years" "Java,SQL" "2024-01-06";
    posting 3 "ML Engineer" "Acme" "Mumbai" "Remote" "Small"
      "10-14 LPA" "5+ years" "Python,ML" "2024-01-07" ].

(** The table of a successful load (empty when the load fails). *)
Definition loaded `{DateParser} (csv : list RawRow) : list Row :=
  match load_data csv with
  | Ok df => df
  | Raise _ => []
  end.

(** The elements of the stored skills list of a record (none when the cell is
    missing). *)
Definition skills_of (r : Row) : list string :=
  match Skills_List r with
  | Some skills => skills
  | None => []
  end.

Definition has_skills (r : Row) : Prop := Skills_List r <> None.

(** The stored elements of the whole view, in order. *)
Definition stored_skills (view : list Row) : list string :=
  flat_map skills_of view.

(** The spec's wording of the ranking by frequency: the distinct skills in
    the order first met, sorted by count, largest first, a tie keeping the
    order first met; the first ten. *)
Fixpoint first_seen (seen l : list string) : list string :=
  match l with
  | [] => []
  | k :: l' =>
      if existsb (String.eqb k) seen then first_seen seen l'
      else k :: first_seen (k :: seen) l'
  end.

Definition spec_top_skills (skills : list string) : list (string * nat) :=
  firstn 10
    (stable_sort_desc _ size_key
       (map (fun k => (k, count_occ string_dec skills k)) (first_seen [] skills))).

(** A posting whose salary text lists the larger number first. *)
Definition reversed_range : list RawRow :=
  [ posting 7 "Tester" "Acme" "Pune" "Onsite" "Small"
      "10-6 LPA" "1 year" "QA" "2024-02-01" ].

(** Two postings with one skill each, met in the order SQL, Java. *)
Definition tie_postings : list RawRow :=
  [ posting 1 "Analyst" "Acme" "Pune" "Onsite" "Small"
      "6-10 LPA" "1 year" "SQL" "2024-03-01";
    posting 2 "Developer" "Bolt" "Pune" "Onsite" "Small"
      "6-10 LPA" "1 year" "Java" "2024-03-02" ].

(** How often the skill [k] stands in the exploded view, and how often in a
    record whose [avg_salary] is present. *)
Definition occurrences (k : string) (ex : list (option string * Row)) : nat :=
  List.length (filter (key_is k) ex).

Definition has_salary (p : option string * Row) : bool :=
  match avg_salary (salary (snd p)) with
  | Some _ => true
  | None => false
  end.

Definition paid_occurrences (k : string) (ex : list (option string * Row)) : nat :=
  List.length (filter (fun p => key_is k p && has_salary p) ex).

(** Postings that all ask for Go: [unpaid] of them with a salary text that
    holds no number, then [paid] of them with a salary range. *)
Definition go_postings (unpaid paid : nat) : list RawRow :=
  repeat (posting 0 "Engineer" "Acme" "Pune" "Onsite" "Small"
            "Negotiable" "1 year" "Go" "2024-04-01") unpaid
  ++ repeat (posting 1 "Engineer" "Acme" "Pune" "Onsite" "Small"
               "6-10 LPA" "1 year" "Go" "2024-04-01") paid.

(** [term] occurs in the cell, letter case apart; a missing cell holds
    nothing. *)
Definition cell_contains_ci (term : string) (cell : text_cell) : bool :=
  match cell with
  | Some s => contains_ci term s
  | None => false
  end.

(** The records the search is meant to keep: those with [term] as a
    substring of one of the searched cells. *)
Definition matches_term (term : string) (r : Row) : bool :=
  existsb (cell_contains_ci term) (search_cols r).

(** ** The download *)

(** [os.linesep], the line terminator [to_csv] writes. *)
Inductive platform : Type :=
| Posix
| Windows.

Definition carriage_return : ascii := "013"%char.

Definition os_linesep (p : platform) : string :=
  match p with
  | Posix => String newline EmptyString
  | Windows => String carriage_return (String newline EmptyString)
  end.

(** How pandas writes the values of a cell that is not text, and where the
    program runs.  What it writes for a value is never the empty field,
    which stands for a missing value. *)
Class Formatter : Type := {
  os : platform;
  fmt_float : Q -> string;
  fmt_timestamp : Timestamp -> string;
  fmt_list : list string -> string;
  fmt_float_written : forall q, fmt_float q <> EmptyString;
  fmt_timestamp_written : forall t, fmt_timestamp t <> EmptyString;
  fmt_list_written : forall l, fmt_list l <> EmptyString
}.

Definition double_quote : ascii := "034"%char.

(** [csv.QUOTE_MINIMAL]: a field is quoted when it holds the delimiter, the
    quote character or a character of the line terminator. *)
Definition csv_special (lineterminator : string) (c : ascii) : bool :=
  Ascii.eqb c "," || Ascii.eqb c double_quote || any_char (Ascii.eqb c) lineterminator.

(** The field between quotes: every quote character doubled. *)
Fixpoint double_quotes (s : string) : string :=
  match s with
  | EmptyString => EmptyString
  | String c s' =>
      if Ascii.eqb c double_quote
      then String c (String c (double_quotes s'))
      else String c (double_quotes s')
  end.

Definition quoted (s : string) : string :=
  String double_quote (double_quotes s ++ String double_quote EmptyString).

Definition csv_field (lineterminator : string) (s : string) : string :=
  if any_char (csv_special lineterminator) s then quoted s else s.

(** [csv.writer.writerow]; a record of one empty field is written quoted. *)
Definition writerow (lineterminator : string) (fields : list string) : string :=
  match fields with
  | [EmptyString] => (quoted EmptyString ++ lineterminator)%string
  | _ => (String.concat "," (map (csv_field lineterminator) fields) ++ lineterminator)%string
  end.

(** The columns of [df], in order: those read, then those [load_data] adds. *)
Definition all_columns : list string :=
  [ "Job ID"; "Job Title"; "Company Name"; "Job Location"; "Job Type";
    "Company Size"; "Salary Range"; "Experience Required"; "Skills Required";
    "Posted Date"; "Application Deadline"; "Remote/Onsite";
    "Education Requirement"; "Number of Applicants";
    "min_salary"; "max_salary"; "avg_salary"; "Experience_Years";
    "Posted_Date"; "Application_Deadline"; "Skills_List" ].

(** The columns of the table the page shows. *)
Definition display_columns : list string :=
  [ "Job Title"; "Company Name"; "Job Location"; "Job Type"; "Salary Range";
    "Experience Required"; "Posted_Date"; "Remote/Onsite";
    "Number of Applicants" ].

Definition fmt_int (z : Z) : string := NilEmpty.string_of_int (Z.to_int z).

(** A missing value is written as the empty field. *)
Definition fmt_text (cell : text_cell) : string :=
  match cell with
  | Some s => s
  | None => EmptyString
  end.

Definition fmt_object (v : pyval) : string :=
  match v with
  | PNone | PNaN => EmptyString
  | _ => str v
  end.

Definition fmt_number `{Formatter} (x : option Q) : string :=
  match x with
  | Some q => fmt_float q
  | None => EmptyString
  end.

(** The cells of one record, one per column of [all_columns]. *)
Definition cells `{Formatter} (r : Row) : list string :=
  [ fmt_int (Job_ID (raw r));
    fmt_text (Job_Title (raw r));
    fmt_text (Company_Name (raw r));
    fmt_text (Job_Location (raw r));
    fmt_text (Job_Type (raw r));
    fmt_text (Company_Size (raw r));
    fmt_object (Salary_Range (raw r));
    fmt_object (Experience_Required (raw r));
    fmt_text (Skills_Required (raw r));
    Posted_Date_text (raw r);
    Application_Deadline_text (raw r);
    fmt_text (Remote_Onsite (raw r));
    fmt_text (Education_Requirement (raw r));
    fmt_int (Number_of_Applicants (raw r));
    fmt_number (min_salary (salary r));
    fmt_number (max_salary (salary r));
    fmt_number (avg_salary (salary r));
    fmt_number (Experience_Years r);
    fmt_timestamp (Posted_Date r);
    fmt_timestamp (Application_Deadline r);
    match Skills_List r with
    | Some l => fmt_list l
    | None => EmptyString
    end ].

(** [DataFrame.to_csv(index=False)]: the header, then one record per row. *)
Definition to_csv `{Formatter} (df : list Row) : string :=
  let lineterminator := os_linesep os in
  (writerow lineterminator all_columns
   ++ String.concat EmptyString (map (fun r => writerow lineterminator (cells r)) df))%string.

(** [csv], the data of the download button. *)
Definition csv `{Regex} `{Formatter} (filtered : list Row) (search_term : string)
    : result string :=
  results <- search_results filtered search_term ;;
  Ok (to_csv results).

(** The text up to the first line feed. *)
Fixpoint first_line (s : string) : string :=
  match s with
  | EmptyString => EmptyString
  | String c s' => if Ascii.eqb c newline then EmptyString else String c (first_line s')
  end.

(** A formatter to run the download with: numbers in decimal notation,
    dates as YYYY-MM-DD, lists as Python prints a list of plain words. *)
Fixpoint decimals (fuel : nat) (num den : Z) : string :=
  match fuel with
  | O => EmptyString
  | S fuel' =>
      if (num =? 0)%Z then EmptyString
      else (fmt_int (10 * num / den) ++ decimals fuel' ((10 * num) mod den) den)%string
  end.

Definition decimal_float (q : Q) : string :=
  let n := Qnum q in
  let d := Zpos (Qden q) in
  let sign := if (n <? 0)%Z then "-" else EmptyString in
  let a := Z.abs n in
  let frac := decimals 17 (a mod d) d in
  (sign ++ fmt_int (a / d) ++ "."
   ++ (if (frac =? EmptyString)%string then "0" else frac))%string.

Definition pad2 (z : Z) : string :=
  if (z <? 10)%Z then ("0" ++ fmt_int z)%string else fmt_int z.

(** The calendar date of a day number, the inverse of [ordinal]. *)
Definition iso_text (t : Timestamp) : string :=
  let z := (ts_date t + 305)%Z in
  let era := (z / 146097)%Z in
  let doe := (z - era * 146097)%Z in
  let yoe := ((doe - doe / 1460 + doe / 36524 - doe / 146096) / 365)%Z in
  let doy := (doe - (365 * yoe + yoe / 4 - yoe / 100))%Z in
  let mp := ((5 * doy + 2) / 153)%Z in
  let d := (doy - (153 * mp + 2) / 5 + 1)%Z in
  let m := (if mp <? 10 then mp + 3 else mp - 9)%Z in
  let y := (yoe + era * 400 + (if m <=? 2 then 1 else 0))%Z in
  (fmt_int y ++ "-" ++ pad2 m ++ "-" ++ pad2 d)%string.

Definition python_list (l : list string) : string :=
  ("[" ++ String.concat ", " (map (fun s => "'" ++ s ++ "'") l) ++ "]")%string.

Lemma decimal_float_written (q : Q) : decimal_float q <> EmptyString.
Proof.
  unfold decimal_float. cbv zeta. intros H. apply (f_equal String.length) in H.
  rewrite !length_append in H. simpl in H. lia.
Qed.

Lemma iso_text_written (t : Timestamp) : iso_text t <> EmptyString.
Proof.
  unfold iso_text. cbv zeta. intros H. apply (f_equal String.length) in H.
  rewrite !length_append in H. simpl in H. lia.
Qed.

Lemma python_list_written (l : list string) : python_list l <> EmptyString.
Proof. discriminate. Qed.

#[export] Instance posix_formatter : Formatter := {|
  os := Posix;
  fmt_float := decimal_float;
  fmt_timestamp := iso_text;
  fmt_list := python_list;
  fmt_float_written := decimal_float_written;
  fmt_timestamp_written := iso_text_written;
  fmt_list_written := python_list_written
|}.

(** ** Reading the download back *)

(** The body of a quoted field, its opening quote read: up to the closing
    quote, a doubled quote standing for one quote character. *)
Fixpoint read_quoted (s : string) : option (string * string) :=
  match s with
  | EmptyString => None
  | String c s' =>
      if Ascii.eqb c double_quote then
        match s' with
        | String c' s'' =>
            if Ascii.eqb c' double_quote then
              match read_quoted s'' with
              | Some (f, r) => Some (String double_quote f, r)
              | None => None
              end
            else Some (EmptyString, s')
        | EmptyString => Some (EmptyString, EmptyString)
        end
      else
        match read_quoted s' with
        | Some (f, r) => Some (String c f, r)
        | None => None
        end
  end.

(** An unquoted field: up to the next special character. *)
Fixpoint read_plain (stop : ascii -> bool) (s : string) : string * string :=
  match s with
  | EmptyString => (EmptyString, EmptyString)
  | String c s' =>
      if stop c then (EmptyString, s)
      else let (f, r) := read_plain stop s' in (String c f, r)
  end.

Definition read_field (lineterminator : string) (s : string) : option (string * string) :=
  match s with
  | String c s' =>
      if Ascii.eqb c double_quote then read_quoted s'
      else Some (read_plain (csv_special lineterminator) s)
  | EmptyString => Some (EmptyString, EmptyString)
  end.

Fixpoint strip_prefix (p s : string) : option string :=
  match p, s with
  | EmptyString, _ => Some s
  | String a p', String b s' => if Ascii.eqb a b then strip_prefix p' s' else None
  | String _ _, EmptyString => None
  end.

(** One record: fields up to the line terminator.  [fuel] bounds the number
    of fields. *)
Fixpoint read_record (lineterminator : string) (fuel : nat) (s : string)
    : option (list string * string) :=
  match fuel with
  | O => None
  | S fuel' =>
      match read_field lineterminator s with
      | None => None
      | Some (f, rest) =>
          match rest with
          | String c rest' =>
              if Ascii.eqb c "," then
                match read_record lineterminator fuel' rest' with
                | Some (fs, r) => Some (f :: fs, r)
                | None => None
                end
              else
                match strip_prefix lineterminator rest with
                | Some r => Some ([f], r)
                | None => None
                end
          | EmptyString => None
          end
      end
  end.

(** All records, to the end of the text.  [fuel] bounds their number. *)
Fixpoint read_records (lineterminator : string) (fuel : nat) (s : string)
    : option (list (list string)) :=
  match fuel with
  | O => None
  | S fuel' =>
      match s with
      | EmptyString => Some []
      | String _ _ =>
          match read_record lineterminator (String.length s) s with
          | Some (fs, r) =>
              match read_records lineterminator fuel' r with
              | Some rs => Some (fs :: rs)
              | None => None
              end
          | None => None
          end
      end
  end.

(** A reader for what [to_csv] writes ([None]: the text is no such file). *)
Definition read_csv (lineterminator : string) (s : string) : option (list (list string)) :=
  read_records lineterminator (S (String.length s)) s.

(** ** Notions the properties are stated with *)

(** A loaded record, against the record it was read from. *)
Definition loaded_from (row : Row) : Prop :=
  process_salary (Salary_Range (raw row)) = Ok (salary row) /\
  process_experience (Experience_Required (raw row)) = Ok (Experience_Years row) /\
  Skills_List row = str_split (Skills_Required (raw row)).

(** The field of a record that stands under the column [name]. *)
Fixpoint column (name : string) (header record : list string) : option string :=
  match header, record with
  | h :: header', f :: record' =>
      if String.eqb h name then Some f else column name header' record'
  | _, _ => None
  end.

(** The record [fields] of the download holds the values of the posting
    [r], every value under the name of its column: text as it is, a missing
    value as the empty field, numbers, dates and lists as the library
    writes them. *)
Definition written_from `{Formatter} (r : Row) (fields : list string) : Prop :=
  let field name := column name all_columns fields in
  field "Job ID" = Some (fmt_int (Job_ID (raw r))) /\
  field "Job Title" = Some (fmt_text (Job_Title (raw r))) /\
  field "Company Name" = Some (fmt_text (Company_Name (raw r))) /\
  field "Job Location" = Some (fmt_text (Job_Location (raw r))) /\
  field "Job Type" = Some (fmt_text (Job_Type (raw r))) /\
  field "Company Size" = Some (fmt_text (Company_Size (raw r))) /\
  field "Salary Range" = Some (fmt_object (Salary_Range (raw r))) /\
  field "Experience Required" = Some (fmt_object (Experience_Required (raw r))) /\
  field "Skills Required" = Some (fmt_text (Skills_Required (raw r))) /\
  field "Posted Date" = Some (Posted_Date_text (raw r)) /\
  field "Application Deadline" = Some (Application_Deadline_text (raw r)) /\
  field "Remote/Onsite" = Some (fmt_text (Remote_Onsite (raw r))) /\
  field "Education Requirement" = Some (fmt_text (Education_Requirement (raw r))) /\
  field "Number of Applicants" = Some (fmt_int (Number_of_Applicants (raw r))) /\
  field "min_salary" = Some (fmt_number (min_salary (salary r))) /\
  field "max_salary" = Some (fmt_number (max_salary (salary r))) /\
  field "avg_salary" = Some (fmt_number (avg_salary (salary r))) /\
  field "Experience_Years" = Some (fmt_number (Experience_Years r)) /\
  field "Posted_Date" = Some (fmt_timestamp (Posted_Date r)) /\
  field "Application_Deadline" = Some (fmt_timestamp (Application_Deadline r)) /\
  field "Skills_List" = Some (match Skills_List r with
                              | Some l => fmt_list l
                              | None => EmptyString
                              end) /\
  List.length fields = 21.

(** Every character of [s] is white space. *)
Definition all_space (s : string) : Prop :=
  Forall (fun c => is_space c = true) (list_ascii_of_string s).

(** [s] neither starts nor ends with white space. *)
Definition trimmed (s : string) : Prop :=
  (forall c rest, s = String c rest -> is_space c = false) /\
  (forall init c, s = (init ++ String c EmptyString)%string -> is_space c = false).

(** The strict order of the group keys. *)
Definition str_lt (a b : string) : Prop := String.compare a b = Lt.

(** A record as the writer lays it out: the fields, then the terminator. *)
Definition row_body (T : string) (fields : list string) : string :=
  (String.concat "," (map (csv_field T) fields) ++ T)%string.

(** [rest] starts with the delimiter or with the line terminator. *)
Definition sep_start (T rest : string) : Prop :=
  match rest with
  | String c _ => csv_special T c = true /\ Ascii.eqb c double_quote = false
  | EmptyString => False
  end.


(** Ten postings, five asking for Ada and five for Bash; the salaries of
    Ada average 8.001, those of Bash 8.004. *)
Definition rounding_postings : list RawRow :=
  repeat (posting 1 "Engineer" "Acme" "Pune" "Onsite" "Small"
            "6-10 LPA" "1 year" "Ada" "2024-05-01") 4
  ++ [ posting 2 "Engineer" "Acme" "Pune" "Onsite" "Small"
         "6-10.01 LPA" "1 year" "Ada" "2024-05-01" ]
  ++ repeat (posting 3 "Engineer" "Acme" "Pune" "Onsite" "Small"
               "6-10 LPA" "1 year" "Bash" "2024-05-01") 4
  ++ [ posting 4 "Engineer" "Acme" "Pune" "Onsite" "Small"
         "6-10.04 LPA" "1 year" "Bash" "2024-05-01" ].

(** A posting with no skills cell. *)
Definition no_skills_posting : RawRow :=
  {| Job_ID := 9;
     Job_Title := Some "Clerk";
     Company_Name := Some "Acme";
     Job_Location := Some "Pune";
     Job_Type := Some "Onsite";
     Company_Size := Some "Small";
     Salary_Range := PStr "3-4 LPA";
     Experience_Required := PNaN;
     Skills_Required := None;
     Posted_Date_text := "2024-05-02";
     Application_Deadline_text := "2024-06-02";
     Remote_Onsite := Some "Onsite";
     Education_Requirement := None;
     Number_of_Applicants := 0 |}.

(** A table of two postings, the second with no skills cell. *)
Definition one_without_skills : list RawRow :=
  [ posting 1 "Data Analyst" "Acme" "Mumbai" "Remote" "Small"
      "6-10 LPA" "2-5 years" "Python, SQL" "2024-01-05";
    no_skills_posting ].

(** * The rest of the page

    The definitions below embed what [app.py] computes besides the parsers,
    the loader, the filter, the skill rankings, the search and the download:
    the metric cards, the grouped summaries behind the charts
    ([salary_by_loc], [company_metrics], [top_companies], [daily_posts],
    [edu_dist]), the options and defaults of the sidebar, and the table of
    results.  The conventions are those above; a [groupby] has its keys in
    ascending order and drops the records whose key is missing, as pandas
    does by default. *)

From Stdlib Require Import Lqa.

(** ** Key metrics *)

(** [len(filtered_df) - len(df[~mask])], the change shown under "Total
    Jobs". *)
Definition total_jobs_delta (df : list Row) (m : list bool) : Z :=
  (Z.of_nat (List.length (boolean_index df m))
   - Z.of_nat (List.length (boolean_index df (map negb m))))%Z.

(** [df[col].mean()] of a numeric column. *)
Definition column_mean (col : Row -> option Q) (df : list Row) : option Q :=
  series_mean (map col df).

Definition avg_salary_col (r : Row) : option Q := avg_salary (salary r).

(** A difference of two floats: absent when either is. *)
Definition float_sub (x y : option Q) : option Q :=
  match x, y with
  | Some a, Some b => Some (Qred (a - b))
  | _, _ => None
  end.

(** [df['Remote/Onsite'] == 'Remote'] on one record: a missing cell is not
    equal to the word. *)
Definition is_remote (r : Row) : bool :=
  match Remote_Onsite (raw r) with
  | Some s => String.eqb s "Remote"
  | None => false
  end.

(** The mean of a column of booleans: absent for an empty column. *)
Definition bool_mean (l : list bool) : option Q :=
  match l with
  | [] => None
  | _ :: _ =>
      Some (Qred (inject_Z (Z.of_nat (List.length (filter (fun b => b) l)))
                  / inject_Z (Z.of_nat (List.length l))))
  end.

(** [remote_pct] *)
Definition remote_pct (df : list Row) : option Q :=
  option_map (fun m => Qred (m * 100)) (bool_mean (map is_remote df)).

(** The four metric cards: the value, and the change against the whole
    table. *)
Record key_metrics : Type := {
  total_jobs : nat;
  total_jobs_change : Z;
  average_salary : option Q;
  average_salary_change : option Q;
  average_experience : option Q;
  average_experience_change : option Q;
  remote_jobs : option Q;
  remote_jobs_change : option Q
}.

Definition metrics (df : list Row) (m : list bool) : key_metrics :=
  let filtered := boolean_index df m in
  {| total_jobs := List.length filtered;
     total_jobs_change := total_jobs_delta df m;
     average_salary := column_mean avg_salary_col filtered;
     average_salary_change :=
       float_sub (column_mean avg_salary_col filtered) (column_mean avg_salary_col df);
     average_experience := column_mean Experience_Years filtered;
     average_experience_change :=
       float_sub (column_mean Experience_Years filtered) (column_mean Experience_Years df);
     remote_jobs := remote_pct filtered;
     remote_jobs_change := float_sub (remote_pct filtered) (remote_pct df) |}.

(** ** Grouped summaries *)

Definition cell_is (k : string) (cell : text_cell) : bool :=
  match cell with
  | Some s => String.eqb s k
  | None => false
  end.

Definition Job_Location_col (r : Row) : text_cell := Job_Location (raw r).
Definition Company_Size_col (r : Row) : text_cell := Company_Size (raw r).
Definition Company_Name_col (r : Row) : text_cell := Company_Name (raw r).

(** [df.groupby(col)] on a text column: the keys that are present, each
    once, in ascending order, every key with its records in the order of the
    view (records with a missing key are in no group). *)
Definition groupby (col : Row -> text_cell) (view : list Row)
    : list (string * list Row) :=
  map (fun k => (k, filter (fun r => cell_is k (col r)) view))
      (group_keys (present (map col view))).



Definition applicants_col (r : Row) : option Q :=
  Some (inject_Z (Number_of_Applicants (raw r))).

(** One record of [company_metrics], and of [top_companies]. *)
Record group_metrics : Type := {
  group : string;
  group_avg_salary : option Q;
  group_jobs : nat;
  group_applicants : option Q
}.

(** [agg({'avg_salary': 'mean', 'Job ID': 'count', 'Number of Applicants':
    'mean'})] on one group. *)
Definition agg_metrics (g : string * list Row) : group_metrics :=
  {| group := fst g;
     group_avg_salary := column_mean avg_salary_col (snd g);
     group_jobs := List.length (snd g);
     group_applicants := column_mean applicants_col (snd g) |}.




Definition jobs_key (m : group_metrics) : option Q :=
  Some (inject_Z (Z.of_nat (group_jobs m))).

(** [top_companies] *)
Definition top_companies `{Sorter} (view : list Row) : list group_metrics :=
  firstn 10
    (sort_values _ jobs_key
       (map agg_metrics (groupby Company_Name_col view))).

(** The order of timestamps: by day, then by time of day. *)
Definition ts_compare (a b : Timestamp) : comparison :=
  match Z.compare (ts_date a) (ts_date b) with
  | Eq => Z.compare (ts_seconds a) (ts_seconds b)
  | c => c
  end.

Definition ts_eqb (a b : Timestamp) : bool :=
  match ts_compare a b with
  | Eq => true
  | _ => false
  end.

Fixpoint insert_ts (k : Timestamp) (l : list Timestamp) : list Timestamp :=
  match l with
  | [] => [k]
  | h :: t =>
      match ts_compare k h with
      | Lt => k :: h :: t
      | Eq => h :: t
      | Gt => h :: insert_ts k t
      end
  end.

(** The keys of a [groupby] on a column of timestamps. *)
Definition ts_keys (l : list Timestamp) : list Timestamp :=
  fold_right insert_ts [] l.

(** [daily_posts]: [groupby('Posted_Date').size()]. *)
Definition daily_posts (view : list Row) : list (Timestamp * nat) :=
  map (fun k => (k, List.length (filter (fun r => ts_eqb (Posted_Date r) k) view)))
      (ts_keys (map Posted_Date view)).

(** [Series.value_counts()]: the values that are present, in the order first
    met, each with the number of its occurrences, sorted by that number,
    largest first. *)
Definition series_value_counts `{Sorter} (col : list text_cell) : list (string * nat) :=
  let values := present col in
  sort_values _ size_key
    (map (fun k => (k, count_occ string_dec values k)) (first_seen [] values)).

(** [edu_dist] *)
Definition edu_dist `{Sorter} (view : list Row) : list (string * nat) :=
  series_value_counts (map (fun r => Education_Requirement (raw r)) view).

Definition ts_lt (a b : Timestamp) : Prop := ts_compare a b = Lt.

(** ** The sidebar *)

Definition cell_eqb (a b : text_cell) : bool :=
  match a, b with
  | Some x, Some y => String.eqb x y
  | None, None => true
  | _, _ => false
  end.

Fixpoint unique_from (seen col : list text_cell) : list text_cell :=
  match col with
  | [] => []
  | c :: col' =>
      if existsb (cell_eqb c) seen then unique_from seen col'
      else c :: unique_from (c :: seen) col'
  end.

(** [Series.unique()]: the values in the order first met; the missing value
    is one of them. *)
Definition unique (col : list text_cell) : list text_cell := unique_from [] col.

(** [a < b] on the values of a text column: a missing value is a float,
    which Python does not compare with a string. *)
Definition py_lt (a b : text_cell) : result bool :=
  match a, b with
  | Some x, Some y =>
      Ok match String.compare x y with
         | Lt => true
         | _ => false
         end
  | None, None => Ok false
  | _, _ => Raise TypeError
  end.

Fixpoint insort (x : text_cell) (l : list text_cell) : result (list text_cell) :=
  match l with
  | [] => Ok [x]
  | h :: t =>
      b <- py_lt h x ;;
      if b then (t' <- insort x t ;; Ok (h :: t')) else Ok (x :: h :: t)
  end.

(** [sorted(l)], a stable sort by [<]. *)
Fixpoint sorted (l : list text_cell) : result (list text_cell) :=
  match l with
  | [] => Ok []
  | x :: l' => s <- sorted l' ;; insort x s
  end.

(** [sorted(df[col].unique())], the options of a multiselect. *)
Definition options (col : Row -> text_cell) (df : list Row) : result (list text_cell) :=
  sorted (unique (map col df)).

(** [sorted(df['Job Location'].unique())[:5]] *)
Definition default_locations (df : list Row) : result (list text_cell) :=
  o <- options Job_Location_col df ;;
  Ok (firstn 5 o).

Definition Job_Type_col (r : Row) : text_cell := Job_Type (raw r).

Definition ts_min (a b : Timestamp) : Timestamp :=
  match ts_compare b a with
  | Lt => b
  | _ => a
  end.

Definition ts_max (a b : Timestamp) : Timestamp :=
  match ts_compare a b with
  | Lt => b
  | _ => a
  end.

(** [(df['Posted_Date'].min(), df['Posted_Date'].max())] as the date input
    returns it, a pair of days; a table without records has neither. *)
Definition default_date_range (df : list Row) : option (list date) :=
  match map Posted_Date df with
  | [] => None
  | t :: l => Some [ts_date (fold_left ts_min l t); ts_date (fold_left ts_max l t)]
  end.

(** ** The table of results *)

(** One record of the table shown: the nine columns selected. *)
Record shown : Type := {
  shown_Job_Title : text_cell;
  shown_Company_Name : text_cell;
  shown_Job_Location : text_cell;
  shown_Job_Type : text_cell;
  shown_Salary_Range : pyval;
  shown_Experience_Required : pyval;
  shown_Posted_Date : Timestamp;
  shown_Remote_Onsite : text_cell;
  shown_Number_of_Applicants : Z
}.

Definition select_shown (r : Row) : shown :=
  {| shown_Job_Title := Job_Title (raw r);
     shown_Company_Name := Company_Name (raw r);
     shown_Job_Location := Job_Location (raw r);
     shown_Job_Type := Job_Type (raw r);
     shown_Salary_Range := Salary_Range (raw r);
     shown_Experience_Required := Experience_Required (raw r);
     shown_Posted_Date := Posted_Date r;
     shown_Remote_Onsite := Remote_Onsite (raw r);
     shown_Number_of_Applicants := Number_of_Applicants (raw r) |}.

(** The instant of a timestamp, in seconds from the start of day 0. *)
Definition instant (t : Timestamp) : Z := (ts_date t * 86400 + ts_seconds t)%Z.

Definition posted_key (s : shown) : option Q :=
  Some (inject_Z (instant (shown_Posted_Date s))).

(** [search_results[[...]].sort_values('Posted_Date', ascending=False)] *)
Definition results_table `{Sorter} (results : list Row) : list shown :=
  sort_values _ posted_key (map select_shown results).

(** * Properties *)

(** ** The scanner *)

Lemma eqb_point_digit c : is_digit c = true -> Ascii.eqb c "." = false.
Proof.
  intros H. destruct (Ascii.eqb c ".") eqn:E; [|reflexivity].
  apply Ascii.eqb_eq in E. subst c. discriminate H.
Qed.

Lemma digits_run_spec s d r :
  digits_run s = (d, r) -> all_digits d = true /\ starts_with_digit r = false.
Proof.
  revert d r. induction s as [|c s IH]; simpl; intros d r H.
  - inversion H. auto.
  - destruct (is_digit c) eqn:Ec.
    + destruct (digits_run s) as [d' r'] eqn:E. inversion H; subst.
      destruct (IH _ _ eq_refl) as [Hd Hr]. simpl. rewrite Ec, Hd. auto.
    + inversion H; subst. simpl. auto.
Qed.


Lemma match_digits_none s :
  match_digits s = None <-> starts_with_digit s = false.
Proof.
  unfold match_digits. destruct s as [|c s]; simpl; [tauto|].
  destruct (is_digit c); [|tauto].
  destruct (digits_run s). split; discriminate.
Qed.

Lemma match_digits_spec s d r :
  match_digits s = Some (d, r) ->
  all_digits d = true /\ nonempty d = true /\ starts_with_digit r = false.
Proof.
  unfold match_digits. destruct (digits_run s) as [d' r'] eqn:E.
  apply digits_run_spec in E as [Hd Hr].
  destruct d'; [discriminate|]. intros H; inversion H; subst. auto.
Qed.


Lemma split_point_digits i :
  all_digits i = true -> split_point i = (i, None).
Proof.
  induction i as [|c i IH]; simpl; [reflexivity|].
  intros H. apply andb_true_iff in H as [Hc Hi].
  rewrite (eqb_point_digit _ Hc), (IH Hi). reflexivity.
Qed.

Lemma split_point_app i f :
  all_digits i = true -> split_point (i ++ String "." f) = (i, Some f).
Proof.
  induction i as [|c i IH]; simpl; [reflexivity|].
  intros H. apply andb_true_iff in H as [Hc Hi].
  rewrite (eqb_point_digit _ Hc), (IH Hi). reflexivity.
Qed.

Lemma split_point_spec t i f :
  split_point t = (i, f) ->
  t = match f with
      | None => i
      | Some f' => (i ++ String "." f')%string
      end.
Proof.
  revert i f. induction t as [|c t IH]; simpl; intros i f H.
  - inversion H. reflexivity.
  - destruct (Ascii.eqb c ".") eqn:Ec.
    + apply Ascii.eqb_eq in Ec. inversion H; subst. reflexivity.
    + destruct (split_point t) as [i' f'] eqn:E. inversion H; subst.
      rewrite (IH _ _ eq_refl). destruct f; reflexivity.
Qed.

Lemma match_number_none c s :
  match_number (String c s) = None <-> is_digit c = false.
Proof.
  unfold match_number.
  destruct (match_digits (String c s)) as [[d r]|] eqn:E.
  - destruct (match_fraction r). split; [discriminate|].
    intros H. apply (proj2 (match_digits_none (String c s))) in H. congruence.
  - apply match_digits_none in E. simpl in E. tauto.
Qed.

Lemma is_number_int d :
  all_digits d = true -> nonempty d = true -> is_number d = true.
Proof.
  intros Hd Hn. unfold is_number. rewrite (split_point_digits _ Hd), Hd, Hn.
  reflexivity.
Qed.

Lemma is_number_dec d f :
  all_digits d = true -> nonempty d = true ->
  all_digits f = true -> nonempty f = true ->
  is_number (d ++ String "." f) = true.
Proof.
  intros Hd Hn Hf Hm. unfold is_number.
  rewrite (split_point_app _ _ Hd), Hd, Hn, Hf, Hm. reflexivity.
Qed.

(** A match of the pattern is a literal, and as long as it can be. *)
Lemma match_number_sound s t r :
  match_number s = Some (t, r) ->
  is_number t = true /\ maximal t r = true.
Proof.
  unfold match_number.
  destruct (match_digits s) as [[d r1]|] eqn:E; [|discriminate].
  apply match_digits_spec in E as (Hd & Hn & Hr1).
  unfold match_fraction.
  destruct r1 as [|c r1].
  { intros H; inversion H; subst. rewrite append_nil_r. split.
    - now apply is_number_int.
    - unfold maximal. simpl. apply orb_true_r. }
  destruct (Ascii.eqb c ".") eqn:Ec.
  - apply Ascii.eqb_eq in Ec. subst c.
    destruct (match_digits r1) as [[d2 r2]|] eqn:E2.
    + apply match_digits_spec in E2 as (Hd2 & Hn2 & Hr2).
      intros H; inversion H; subst. split.
      * now apply is_number_dec.
      * unfold maximal, has_point. rewrite (split_point_app _ _ Hd), Hr2. reflexivity.
    + apply match_digits_none in E2.
      intros H; inversion H; subst. rewrite append_nil_r. split.
      * now apply is_number_int.
      * unfold maximal. simpl. rewrite E2. apply orb_true_r.
  - assert (Hgen : Some ((d ++ EmptyString)%string, String c r1) = Some (t, r) ->
                   is_number t = true /\ maximal t r = true).
    { intros H; inversion H; subst. rewrite append_nil_r. split.
      - now apply is_number_int.
      - unfold maximal. rewrite Hr1. simpl.
        destruct c as [[] [] [] [] [] [] [] []]; try apply orb_true_r.
        discriminate Ec. }
    destruct c as [[] [] [] [] [] [] [] []]; try exact Hgen.
    discriminate Ec.
Qed.



(** The defining equations of [findall]. *)
Lemma findall_cons c s :
  findall (String c s) =
  match match_number (String c s) with
  | Some (t, r) => t :: findall r
  | None => findall s
  end.
Proof.
  simp findall.
  destruct (inspect (match_number (String c s))) as [[[t r]|] e];
    simpl; rewrite e; reflexivity.
Qed.

Lemma findall_skip c s :
  is_digit c = false -> findall (String c s) = findall s.
Proof.
  intros H. rewrite findall_cons.
  apply (proj2 (match_number_none c s)) in H. rewrite H. reflexivity.
Qed.


Lemma findall_gap g s :
  no_digit g = true -> findall (g ++ s) = findall s.
Proof.
  induction g as [|c g IH]; simpl; intros H; [reflexivity|].
  apply andb_true_iff in H as [Hc Hg]. apply negb_true_iff in Hc.
  rewrite (findall_skip _ _ Hc). now apply IH.
Qed.

Lemma findall_no_digit g : no_digit g = true -> findall g = [].
Proof.
  intros H. rewrite <- (append_nil_r g). rewrite (findall_gap _ _ H).
  reflexivity.
Qed.

Lemma Scan_skip c s toks :
  is_digit c = false -> Scan s toks -> Scan (String c s) toks.
Proof.
  intros Hc H. inversion H; subst.
  - apply Scan_end. simpl. rewrite Hc. assumption.
  - change (Scan ((String c g) ++ t ++ rest)%string (t :: toks0)).
    apply Scan_tok; auto. simpl. rewrite Hc. assumption.
Qed.

(** [findall] returns the numeric literals of the text, left to right. *)
Lemma findall_Scan s : Scan s (findall s).
Proof.
  remember (String.length s) as n eqn:Hn. revert s Hn.
  induction n as [n IH] using lt_wf_ind. intros s Hn.
  destruct s as [|c s].
  - simp findall. now apply Scan_end.
  - rewrite findall_cons.
    destruct (match_number (String c s)) as [[t r]|] eqn:E.
    + pose proof (match_number_shorter _ _ _ E) as Hlt.
      destruct (match_number_split _ _ _ E) as [Hs _].
      destruct (match_number_sound _ _ _ E) as [Ht Hm].
      rewrite Hs. change (Scan (EmptyString ++ t ++ r)%string (t :: findall r)).
      apply Scan_tok; auto. eapply IH; [|reflexivity]. lia.
    + apply match_number_none in E. apply Scan_skip; [assumption|].
      eapply IH; [|reflexivity]. simpl in Hn. lia.
Qed.


Lemma Scan_numbers s toks :
  Scan s toks -> Forall (fun t => is_number t = true) toks.
Proof. induction 1; constructor; assumption. Qed.

Lemma nonempty_eqb s : nonempty s = true -> (s =? EmptyString)%string = false.
Proof. destruct s; [discriminate | reflexivity]. Qed.

(** [float] reads every literal the pattern can match: no [ValueError]. *)
Lemma float_number t : is_number t = true -> exists q, float t = Some q.
Proof.
  unfold is_number, float. destruct (split_point t) as [i [f|]]; intros H.
  - apply andb_true_iff in H as [H Hf]. apply andb_true_iff in H as [Hi Hin].
    apply andb_true_iff in Hf as [Hf Hfn].
    rewrite Hi, Hf, (nonempty_eqb _ Hin). simpl. eauto.
  - apply andb_true_iff in H as [H _]. apply andb_true_iff in H as [Hi Hin].
    rewrite Hi, (nonempty_eqb _ Hin). simpl. eauto.
Qed.

Lemma findall_numbers s : Forall (fun t => is_number t = true) (findall s).
Proof. apply (Scan_numbers s). apply findall_Scan. Qed.

Lemma mean2_correct x y : (mean2 x y == (x + y) / 2)%Q.
Proof. unfold mean2. apply Qred_correct. Qed.

(** What [process_salary] does with the list [findall] hands it. *)
Lemma process_salary_short v :
  List.length (findall (str v)) < 2 -> process_salary v = Ok no_salary.
Proof.
  intros H. unfold process_salary.
  destruct (Nat.leb_spec 2 (List.length (findall (str v)))); [lia | reflexivity].
Qed.

Lemma process_salary_two v a b rest :
  findall (str v) = a :: b :: rest ->
  exists x y,
    float a = Some x /\ float b = Some y /\
    process_salary v =
      Ok {| min_salary := Some x; max_salary := Some y;
            avg_salary := Some (mean2 x y) |}.
Proof.
  intros H. pose proof (findall_numbers (str v)) as F. rewrite H in F.
  inversion F as [|? ? Ha F']; subst. inversion F' as [|? ? Hb _]; subst.
  destruct (float_number _ Ha) as [x Hx]. destruct (float_number _ Hb) as [y Hy].
  exists x, y. repeat split; try assumption.
  unfold process_salary. rewrite H. simpl. unfold pyfloat. rewrite Hx, Hy.
  reflexivity.
Qed.

(** ** The number a literal is read as *)



Lemma pow10_pow (n : nat) : Zpos (pow10 n) = (10 ^ Z.of_nat n)%Z.
Proof.
  induction n as [|n IH]; [reflexivity|].
  cbn [pow10]. rewrite Pos2Z.inj_mul, IH, Nat2Z.inj_succ, Z.pow_succ_r by lia.
  reflexivity.
Qed.






Example process_salary_lpa :
  process_salary (PStr "₹6-10 LPA") =
    Ok {| min_salary := Some 6%Q; max_salary := Some 10%Q; avg_salary := Some 8%Q |}.
Proof. reflexivity. Qed.

Example process_salary_no_data : process_salary (PStr "no data") = Ok no_salary.
Proof. reflexivity. Qed.

Example process_salary_one_number : process_salary (PStr "5 LPA") = Ok no_salary.
Proof. reflexivity. Qed.

(** ** The experience parser *)

Lemma process_experience_none v :
  findall (str v) = [] -> process_experience v = Ok None.
Proof. intros H. unfold process_experience. rewrite H. reflexivity. Qed.

Lemma process_experience_one v a :
  findall (str v) = [a] ->
  exists x, float a = Some x /\ process_experience v = Ok (Some x).
Proof.
  intros H. pose proof (findall_numbers (str v)) as F. rewrite H in F.
  inversion F as [|? ? Ha _]; subst.
  destruct (float_number _ Ha) as [x Hx]. exists x. split; [assumption|].
  unfold process_experience. rewrite H. simpl. unfold pyfloat. rewrite Hx.
  reflexivity.
Qed.

Lemma process_experience_two v a b rest :
  findall (str v) = a :: b :: rest ->
  exists x y,
    float a = Some x /\ float b = Some y /\
    process_experience v = Ok (Some (mean2 x y)).
Proof.
  intros H. pose proof (findall_numbers (str v)) as F. rewrite H in F.
  inversion F as [|? ? Ha F']; subst. inversion F' as [|? ? Hb _]; subst.
  destruct (float_number _ Ha) as [x Hx]. destruct (float_number _ Hb) as [y Hy].
  exists x, y. repeat split; try assumption.
  unfold process_experience. rewrite H. simpl. unfold pyfloat. rewrite Hx, Hy.
  reflexivity.
Qed.

(** Neither parser raises. *)
Lemma process_experience_total v : exists r, process_experience v = Ok r.
Proof.
  destruct (findall (str v)) as [|a [|b rest]] eqn:E.
  - exists None. now apply process_experience_none.
  - destruct (process_experience_one v a E) as (x & _ & H). eauto.
  - destruct (process_experience_two v a b rest E) as (x & y & _ & _ & H). eauto.
Qed.

Lemma process_salary_total v : exists r, process_salary v = Ok r.
Proof.
  destruct (findall (str v)) as [|a [|b rest]] eqn:E.
  - exists no_salary. apply process_salary_short. rewrite E. simpl. lia.
  - exists no_salary. apply process_salary_short. rewrite E. simpl. lia.
  - destruct (process_salary_two v a b rest E) as (x & y & _ & _ & H). eauto.
Qed.

(** C3, as the program has it.  The experience parser returns absent when
    the text of its input holds no numeric literal, the value of the literal
    when it holds one, the mean of the first two when it holds two or more.
    The input is first turned into text by [str]: a missing or empty input
    has no literal in its text and gives absent, any other input that is not
    a string is read through its text like a string.  No input raises. *)
Theorem process_experience_spec (v : pyval) :
  let numbers := findall (str v) in
  (numbers = [] -> process_experience v = Ok None) /\
  (forall a, numbers = [a] ->
     exists x, float a = Some x /\ process_experience v = Ok (Some x)) /\
  (forall a b rest, numbers = a :: b :: rest ->
     exists x y,
       float a = Some x /\ float b = Some y /\
       process_experience v = Ok (Some (mean2 x y)) /\
       (mean2 x y == (x + y) / 2)%Q) /\
  process_experience PNaN = Ok None /\
  process_experience PNone = Ok None /\
  process_experience (PStr EmptyString) = Ok None /\
  process_experience v = process_experience (PStr (str v)) /\
  (exists r, process_experience v = Ok r).
Proof.
  intros numbers. repeat split.
  - apply process_experience_none.
  - apply process_experience_one.
  - intros a b rest H.
    destruct (process_experience_two v a b rest H) as (x & y & Hx & Hy & Hp).
    exists x, y. repeat split; try assumption. apply mean2_correct.
  - apply process_experience_total.
Qed.

(** C3 as written fails on an input that is not a string: the integer cell 3
    (a column of plain numbers) is read as "3" and gives 3.0, not absent. *)
Lemma process_experience_int_cell :
  process_experience (PInt 3) = Ok (Some 3%Q) /\
  process_experience (PInt 3) <> Ok None.
Proof. split; [reflexivity | discriminate]. Qed.

Example process_experience_range : process_experience (PStr "2-5 years") = Ok (Some (7 # 2)%Q).
Proof. reflexivity. Qed.

Example process_experience_single : process_experience (PStr "3 years") = Ok (Some 3%Q).
Proof. reflexivity. Qed.

Example process_experience_empty : process_experience (PStr "") = Ok None.
Proof. reflexivity. Qed.

(** ** The sidebar filter *)

Lemma boolean_index_map {A : Type} (p : A -> bool) (df : list A) :
  boolean_index df (map p df) = filter p df.
Proof.
  unfold boolean_index. induction df as [|x df IH]; simpl; [reflexivity|].
  destruct (p x); simpl; rewrite IH; reflexivity.
Qed.

Lemma Subseq_filter {A : Type} (p : A -> bool) (l : list A) :
  Subseq (filter p l) l.
Proof.
  induction l as [|x l IH]; simpl; [constructor|].
  destruct (p x); constructor; assumption.
Qed.

Lemma Subseq_refl {A : Type} (l : list A) : Subseq l l.
Proof. induction l; constructor; assumption. Qed.

Lemma Subseq_length {A : Type} (l1 l2 : list A) :
  Subseq l1 l2 -> List.length l1 <= List.length l2.
Proof. induction 1; simpl; lia. Qed.

Lemma isin_spec cell values : isin cell values = true <-> cell_in cell values.
Proof.
  unfold isin, cell_in. destruct cell as [s|].
  - rewrite existsb_exists. split.
    + intros (x & Hx & E). apply String.eqb_eq in E. subst. eauto.
    + intros (x & E & Hx). inversion E; subst. exists x. split; [assumption|].
      apply String.eqb_refl.
  - split; [discriminate | intros (s & E & _); discriminate].
Qed.

Lemma mask_row_spec lower upper locs sizes types r :
  mask_row lower upper locs sizes types r = true <->
  (lower <= ts_date (Posted_Date r) <= upper)%Z /\
  cell_in (Job_Location (raw r)) locs /\
  cell_in (Company_Size (raw r)) sizes /\
  cell_in (Job_Type (raw r)) types.
Proof.
  unfold mask_row. rewrite !andb_true_iff, !isin_spec, !Z.leb_le. tauto.
Qed.

Lemma filtered_df_filter df lower upper locs sizes types :
  filtered_df df [lower; upper] locs sizes types =
  Ok (filter (mask_row lower upper locs sizes types) df).
Proof. unfold filtered_df, mask. simpl. rewrite boolean_index_map. reflexivity. Qed.

(** C2.  For every table and filter criteria, a record is in the filtered
    view if and only if it is in the table, its posted date lies within
    [[lower, upper]] inclusive, its location is one of the selected
    locations, its company size one of the selected sizes and its job type
    one of the selected types; the view is no longer than the table, keeps
    the order of the table, and is empty when no location is selected. *)
Theorem filtered_df_spec (df : list Row) (lower upper : date)
    (locs sizes types : list string) :
  exists view,
    filtered_df df [lower; upper] locs sizes types = Ok view /\
    (forall r, In r view <->
       In r df /\
       (lower <= ts_date (Posted_Date r) <= upper)%Z /\
       cell_in (Job_Location (raw r)) locs /\
       cell_in (Company_Size (raw r)) sizes /\
       cell_in (Job_Type (raw r)) types) /\
    view = filter (mask_row lower upper locs sizes types) df /\
    List.length view <= List.length df /\
    Subseq view df /\
    filtered_df df [lower; upper] [] sizes types = Ok [].
Proof.
  exists (filter (mask_row lower upper locs sizes types) df).
  split; [apply filtered_df_filter|].
  split; [intros r; rewrite filter_In, mask_row_spec; reflexivity|].
  split; [reflexivity|].
  split; [apply Subseq_length, Subseq_filter|].
  split; [apply Subseq_filter|].
  rewrite filtered_df_filter. f_equal.
  induction df as [|r df IH]; simpl; [reflexivity|].
  replace (mask_row lower upper [] sizes types r) with false; [assumption|].
  unfold mask_row. destruct (Job_Location (raw r)); simpl;
    rewrite ?andb_false_r; reflexivity.
Qed.

(** The spec's end-to-end example: of the three postings the two in Mumbai
    are kept, with avg_salary 8.0 and 12.0. *)
Example filtered_df_mumbai :
  exists view,
    filtered_df (loaded fixture) [738886%Z; 739251%Z]
      ["Mumbai"] ["Small"; "Large"] ["Remote"; "Onsite"] = Ok view /\
    map (fun r => Job_ID (raw r)) view = [1%Z; 3%Z] /\
    map (fun r => avg_salary (salary r)) view = [Some 8%Q; Some 12%Q].
Proof. eexists. vm_compute. repeat split; reflexivity. Qed.

(** A date input that holds one date only: the second index fails. *)
Example filtered_df_one_date :
  filtered_df (loaded fixture) [738886%Z] ["Mumbai"] ["Small"] ["Remote"] =
  Raise IndexError.
Proof. reflexivity. Qed.

(** ** The loader *)

Lemma mapM_Forall2 {A B : Type} (f : A -> result B) (l : list A) (l' : list B) :
  mapM f l = Ok l' -> Forall2 (fun x y => f x = Ok y) l l'.
Proof.
  revert l'. induction l as [|x l IH]; simpl; intros l' H.
  - inversion H. constructor.
  - destruct (f x) as [y|e] eqn:E; simpl in H; [|discriminate].
    destruct (mapM f l) as [ys|e] eqn:E'; simpl in H; [|discriminate].
    inversion H; subst. constructor; auto.
Qed.

Lemma mapM_total {A B : Type} (f : A -> result B) (l : list A) :
  Forall (fun x => exists y, f x = Ok y) l -> exists l', mapM f l = Ok l'.
Proof.
  induction 1 as [|x l [y Hy] _ [ys IH]]; simpl; [eauto|].
  rewrite Hy, IH. simpl. eauto.
Qed.

Lemma mapM_map_Forall2 {A B C : Type} (f : B -> result C) (g : A -> B)
    (l : list A) (l' : list C) :
  mapM f (map g l) = Ok l' -> Forall2 (fun x y => f (g x) = Ok y) l l'.
Proof.
  intros H. apply mapM_Forall2 in H.
  revert l' H. induction l as [|x l IH]; simpl; intros l' H; inversion H; subst.
  - constructor.
  - constructor; auto.
Qed.

Lemma add_columns_rows csv sal exp posted deadline :
  Forall2 (fun r s => process_salary (Salary_Range r) = Ok s) csv sal ->
  Forall2 (fun r e => process_experience (Experience_Required r) = Ok e) csv exp ->
  List.length posted = List.length csv ->
  List.length deadline = List.length csv ->
  map raw (add_columns csv sal exp posted deadline) = csv /\
  Forall loaded_from (add_columns csv sal exp posted deadline).
Proof.
  intros Hs. revert exp posted deadline.
  induction Hs as [|r s csv sal Hr _ IH]; intros exp posted deadline He Hp Hd.
  - split; constructor.
  - inversion He as [|? e ? exp' Hre He']; subst.
    destruct posted as [|p posted]; [discriminate Hp|].
    destruct deadline as [|d deadline]; [discriminate Hd|].
    simpl in Hp, Hd. injection Hp as Hp. injection Hd as Hd.
    destruct (IH exp' posted deadline He' Hp Hd) as [IH1 IH2].
    cbn [add_columns map]. rewrite IH1. split; [reflexivity|].
    constructor; [|assumption]. repeat split; assumption.
Qed.

Lemma load_data_rows {DP : DateParser} (csv : list RawRow) (df : list Row) :
  load_data csv = Ok df ->
  map raw df = csv /\ Forall loaded_from df.
Proof.
  unfold load_data, parse_dates.
  destruct (mapM process_salary (map Salary_Range csv)) as [sal|] eqn:Es;
    [|discriminate].
  destruct (mapM process_experience (map Experience_Required csv)) as [exp|] eqn:Ee;
    [|discriminate].
  destruct (to_datetime (map Posted_Date_text csv)) as [posted|] eqn:Ep;
    [|discriminate].
  destruct (to_datetime (map Application_Deadline_text csv)) as [deadline|] eqn:Ed;
    [|discriminate].
  cbn [bind]. destruct (str_accessor (map Skills_Required csv)); [|discriminate].
  cbn [bind]. intros E. inversion E; subst.
  apply to_datetime_length in Ep, Ed. rewrite length_map in Ep, Ed.
  apply add_columns_rows; try assumption.
  - now apply mapM_map_Forall2 in Es.
  - now apply mapM_map_Forall2 in Ee.
Qed.

(** The load fails on the dates only: the two parsers never raise. *)
Lemma load_data_total {DP : DateParser} (csv : list RawRow) posted deadline text :
  to_datetime (map Posted_Date_text csv) = Some posted ->
  to_datetime (map Application_Deadline_text csv) = Some deadline ->
  str_accessor (map Skills_Required csv) = Ok text ->
  exists df, load_data csv = Ok df.
Proof.
  intros Hp Hd Ht. unfold load_data, parse_dates.
  destruct (mapM_total process_salary (map Salary_Range csv)) as [sal Hs].
  { apply Forall_forall. intros v _. apply process_salary_total. }
  destruct (mapM_total process_experience (map Experience_Required csv)) as [exp He].
  { apply Forall_forall. intros v _. apply process_experience_total. }
  rewrite Hs, He, Hp, Hd. cbn [bind]. rewrite Ht. cbn [bind]. eauto.
Qed.

(** [split] loses nothing: joining the pieces with the separator gives the
    text back, and no piece holds the separator. *)
Lemma split_nonempty sep s : split sep s <> [].
Proof.
  destruct s as [|c s]; simpl; [discriminate|].
  destruct (Ascii.eqb c sep); [discriminate|].
  destruct (split sep s); discriminate.
Qed.

Lemma concat_split sep s :
  String.concat (String sep EmptyString) (split sep s) = s.
Proof.
  induction s as [|c s IH]; simpl; [reflexivity|].
  destruct (Ascii.eqb c sep) eqn:E.
  - apply Ascii.eqb_eq in E. subst c.
    destruct (split sep s) as [|h t] eqn:Es; [now apply split_nonempty in Es|].
    simpl in *. rewrite IH. reflexivity.
  - destruct (split sep s) as [|h t] eqn:Es; [now apply split_nonempty in Es|].
    simpl in *. destruct t; simpl in *; rewrite <- IH; reflexivity.
Qed.

Lemma split_no_sep sep s :
  Forall (fun e => any_char (Ascii.eqb sep) e = false) (split sep s).
Proof.
  induction s as [|c s IH]; simpl; [repeat constructor|].
  destruct (Ascii.eqb c sep) eqn:E.
  - constructor; [reflexivity | assumption].
  - destruct (split sep s) as [|h t]; [repeat constructor; simpl|].
    + rewrite Ascii.eqb_sym, E. reflexivity.
    + inversion IH; subst. constructor; [|assumption].
      simpl. rewrite Ascii.eqb_sym, E. assumption.
Qed.

(** C4, as the program has it.  For every loaded record the skills sequence
    is the raw skills string split on the comma, the pieces kept as they
    stand, in order (nothing is trimmed at load: joining them with commas
    gives the raw string back), and the raw record is left unchanged. *)
Theorem load_data_skills {DP : DateParser} (csv : list RawRow) (df : list Row) :
  load_data csv = Ok df ->
  map raw df = csv /\
  Forall (fun r => Skills_List r = str_split (Skills_Required (raw r))) df /\
  (forall r s, In r df -> Skills_Required (raw r) = Some s ->
     exists skills,
       Skills_List r = Some skills /\
       skills = split "," s /\
       String.concat "," skills = s /\
       Forall (fun e => any_char (Ascii.eqb ",") e = false) skills).
Proof.
  intros E. destruct (load_data_rows _ _ E) as [Hraw Hrows].
  split; [assumption|].
  assert (F : Forall (fun r => Skills_List r = str_split (Skills_Required (raw r))) df).
  { eapply Forall_impl; [|exact Hrows]. intros r Hr. apply Hr. }
  split; [assumption|].
  intros r s Hin Hs. rewrite Forall_forall in F. specialize (F r Hin).
  rewrite Hs in F. exists (split "," s). repeat split.
  - assumption.
  - apply concat_split.
  - apply split_no_sep.
Qed.

Lemma load_data_skills_witness :
  load_data fixture = Ok (loaded fixture) /\
  map raw (loaded fixture) = fixture /\
  Forall (fun r => Skills_List r = str_split (Skills_Required (raw r))) (loaded fixture) /\
  (forall r s, In r (loaded fixture) -> Skills_Required (raw r) = Some s ->
     exists skills,
       Skills_List r = Some skills /\
       skills = split "," s /\
       String.concat "," skills = s /\
       Forall (fun e => any_char (Ascii.eqb ",") e = false) skills).
Proof.
  split; [vm_compute; reflexivity|].
  apply (load_data_skills fixture (loaded fixture)). vm_compute; reflexivity.
Defined.

(** C4 as written fails: the pieces are not trimmed when the table is
    loaded.  "Python, SQL" is stored as "Python" and " SQL". *)
Lemma load_data_skills_untrimmed :
  exists r rest,
    load_data fixture = Ok (r :: rest) /\
    Skills_Required (raw r) = Some "Python, SQL" /\
    Skills_List r = Some ["Python"; " SQL"] /\
    Skills_List r <> Some (map strip (split "," "Python, SQL")).
Proof.
  eexists. eexists. split; [vm_compute; reflexivity|].
  split; [reflexivity|]. split; [reflexivity|]. vm_compute. discriminate.
Qed.

(** ** Salary bounds of a loaded record *)

Lemma process_salary_bounds v info a b :
  process_salary v = Ok info ->
  min_salary info = Some a -> max_salary info = Some b ->
  exists n0 n1 rest,
    findall (str v) = n0 :: n1 :: rest /\
    float n0 = Some a /\ float n1 = Some b /\
    avg_salary info = Some (mean2 a b).
Proof.
  intros Hp Ha Hb.
  destruct (findall (str v)) as [|n0 [|n1 rest]] eqn:E.
  - rewrite process_salary_short in Hp by (rewrite E; simpl; lia).
    inversion Hp; subst. discriminate Ha.
  - rewrite process_salary_short in Hp by (rewrite E; simpl; lia).
    inversion Hp; subst. discriminate Ha.
  - destruct (process_salary_two v n0 n1 rest E) as (x & y & Hx & Hy & Hq).
    rewrite Hq in Hp. inversion Hp; subst. simpl in *.
    inversion Ha; inversion Hb; subst. exists n0, n1, rest. auto.
Qed.

(** C5, as the program has it.  For every loaded record in which both salary
    bounds are present, min_salary is the first and max_salary the second
    number of the salary text, in the order met (the parser does not sort
    them): min_salary <= max_salary holds when the first number is not
    greater than the second, and fails when it is greater. *)
Theorem load_data_salary_order {DP : DateParser} (csv : list RawRow) (df : list Row)
    (r : Row) (a b : Q) :
  load_data csv = Ok df -> In r df ->
  min_salary (salary r) = Some a -> max_salary (salary r) = Some b ->
  exists n0 n1 rest x0 x1,
    findall (str (Salary_Range (raw r))) = n0 :: n1 :: rest /\
    float n0 = Some x0 /\ float n1 = Some x1 /\
    a = x0 /\ b = x1 /\
    ((x0 <= x1)%Q -> (a <= b)%Q) /\
    ((x1 < x0)%Q -> ~ (a <= b)%Q).
Proof.
  intros E Hin Ha Hb. destruct (load_data_rows _ _ E) as [_ Hrows].
  rewrite Forall_forall in Hrows. specialize (Hrows r Hin).
  destruct Hrows as (Hs & _).
  destruct (process_salary_bounds _ _ _ _ Hs Ha Hb) as (n0 & n1 & rest & H0 & H1 & H2 & _).
  exists n0, n1, rest, a, b. repeat split; try assumption.
  - intros Hle. exact Hle.
  - intros Hlt. apply Qlt_not_le. exact Hlt.
Qed.

Lemma load_data_salary_order_witness :
  exists r,
    loaded reversed_range = [r] /\
    exists n0 n1 rest x0 x1,
      findall (str (Salary_Range (raw r))) = n0 :: n1 :: rest /\
      float n0 = Some x0 /\ float n1 = Some x1 /\
      10%Q = x0 /\ 6%Q = x1 /\
      ((x0 <= x1)%Q -> (10 <= 6)%Q) /\
      ((x1 < x0)%Q -> ~ (10 <= 6)%Q).
Proof.
  eexists. split; [vm_compute; reflexivity|].
  eapply (load_data_salary_order reversed_range (loaded reversed_range)).
  - vm_compute; reflexivity.
  - vm_compute. left. reflexivity.
  - reflexivity.
  - reflexivity.
Defined.

(** C5 as written fails: "10-6 LPA" loads with min_salary 10 and
    max_salary 6. *)
Lemma load_data_min_above_max :
  exists r,
    load_data reversed_range = Ok [r] /\
    min_salary (salary r) = Some 10%Q /\
    max_salary (salary r) = Some 6%Q /\
    ~ (10 <= 6)%Q.
Proof.
  eexists. split; [vm_compute; reflexivity|].
  split; [reflexivity|]. split; [reflexivity|].
  intros H. vm_compute in H. apply H. reflexivity.
Qed.

(** ** Sorting *)

Lemma key_gtb_ge x y : key_gtb x y = true -> key_ge x y.
Proof.
  destruct x as [a|], y as [b|]; simpl; try discriminate; try exact (fun _ => I).
  intros H. apply negb_true_iff in H.
  destruct (Qlt_le_dec b a) as [Hlt|Hle].
  - now apply Qlt_le_weak.
  - apply Qle_bool_iff in Hle. congruence.
Qed.

Lemma key_gtb_false_ge x y : key_gtb x y = false -> key_ge y x.
Proof.
  destruct x as [a|], y as [b|]; simpl; try discriminate; try exact (fun _ => I).
  intros H. apply negb_false_iff in H. now apply Qle_bool_iff in H.
Qed.

Lemma key_ge_trans x y z : key_ge x y -> key_ge y z -> key_ge x z.
Proof.
  destruct x as [a|], y as [b|], z as [c|]; simpl; try tauto.
  intros H1 H2. eapply Qle_trans; eassumption.
Qed.

Lemma insert_desc_perm {A : Type} (key : A -> option Q) (x : A) (l : list A) :
  Permutation (x :: l) (insert_desc key x l).
Proof.
  induction l as [|y l IH]; simpl; [reflexivity|].
  destruct (key_gtb (key y) (key x)); [|reflexivity].
  rewrite perm_swap. now constructor.
Qed.

Lemma stable_sort_desc_perm (A : Type) (key : A -> option Q) (l : list A) :
  Permutation l (stable_sort_desc A key l).
Proof.
  induction l as [|x l IH]; simpl; [constructor|].
  rewrite <- insert_desc_perm. now constructor.
Qed.

Lemma insert_desc_sorted {A : Type} (key : A -> option Q) (x : A) (l : list A) :
  StronglySorted (fun a b => key_ge (key a) (key b)) l ->
  StronglySorted (fun a b => key_ge (key a) (key b)) (insert_desc key x l).
Proof.
  induction 1 as [|y l Hs IH Hy]; simpl.
  - repeat constructor.
  - destruct (key_gtb (key y) (key x)) eqn:E.
    + constructor; [assumption|].
      eapply Permutation_Forall; [apply insert_desc_perm|].
      constructor; [now apply key_gtb_ge | assumption].
    + apply key_gtb_false_ge in E. constructor.
      * constructor; assumption.
      * constructor; [assumption|].
        eapply Forall_impl; [|exact Hy]. intros z Hz.
        eapply key_ge_trans; eassumption.
Qed.

Lemma stable_sort_desc_sorted (A : Type) (key : A -> option Q) (l : list A) :
  StronglySorted (fun a b => key_ge (key a) (key b)) (stable_sort_desc A key l).
Proof.
  induction l as [|x l IH]; simpl; [constructor|].
  now apply insert_desc_sorted.
Qed.

Lemma reverse_sort_desc_perm (A : Type) (key : A -> option Q) (l : list A) :
  Permutation l (reverse_sort_desc A key l).
Proof.
  unfold reverse_sort_desc.
  eapply Permutation_trans; [apply Permutation_rev | apply stable_sort_desc_perm].
Qed.

Lemma reverse_sort_desc_sorted (A : Type) (key : A -> option Q) (l : list A) :
  StronglySorted (fun a b => key_ge (key a) (key b)) (reverse_sort_desc A key l).
Proof. apply stable_sort_desc_sorted. Qed.

(** Two sorts that are a [sort_values].  They differ in the order they leave
    equal keys in, which the laws of [Sorter] leave open as the program
    does: the first returns them in the reverse of the order they came in
    (the order pandas 2.2 returns on the three postings), the second in the
    order they came in.  No property proved for every [Sorter] depends on
    either. *)
#[export] Instance descending_sorter : Sorter := {|
  sort_values := reverse_sort_desc;
  sort_values_perm := reverse_sort_desc_perm;
  sort_values_sorted := reverse_sort_desc_sorted
|}.

#[export] Instance stable_sorter : Sorter := {|
  sort_values := stable_sort_desc;
  sort_values_perm := stable_sort_desc_perm;
  sort_values_sorted := stable_sort_desc_sorted
|}.

(** In a sorted list, what stands in front is above what stands behind. *)
Lemma StronglySorted_app {A : Type} (R : A -> A -> Prop) (l1 l2 : list A) :
  StronglySorted R (l1 ++ l2) ->
  StronglySorted R l1 /\ forall a b, In a l1 -> In b l2 -> R a b.
Proof.
  induction l1 as [|x l1 IH]; simpl; intros H.
  - split; [constructor | intros a b []].
  - inversion H as [|? ? Hs Hx]; subst. destruct (IH Hs) as [IH1 IH2].
    rewrite Forall_app in Hx. destruct Hx as [Hx1 Hx2]. split.
    + constructor; assumption.
    + intros a b [<-|Ha] Hb; [|auto].
      rewrite Forall_forall in Hx2. auto.
Qed.

Lemma firstn_sorted {A : Type} (R : A -> A -> Prop) (n : nat) (l : list A) :
  StronglySorted R l ->
  StronglySorted R (firstn n l) /\
  forall a b, In a (firstn n l) -> In b (skipn n l) -> R a b.
Proof. intros H. apply StronglySorted_app. now rewrite firstn_skipn. Qed.

(** What [head(n)] leaves out stands behind all it keeps, and when it leaves
    something out it keeps [n] records. *)
Lemma firstn_left_out {A : Type} (n : nat) (l : list A) (x : A) :
  In x l -> ~ In x (firstn n l) ->
  In x (skipn n l) /\ List.length (firstn n l) = n.
Proof.
  intros Hin Hout. rewrite <- (firstn_skipn n l) in Hin.
  apply in_app_or in Hin as [Hin|Hin]; [contradiction|].
  split; [assumption|]. apply firstn_length_le.
  destruct (Nat.le_gt_cases n (List.length l)) as [Hle|Hgt]; [assumption|].
  rewrite skipn_all2 in Hin by lia. destruct Hin.
Qed.

(** ** Group keys *)

Lemma insert_key_In k x l : In x (insert_key k l) <-> x = k \/ In x l.
Proof.
  induction l as [|h t IH]; simpl; [intuition|].
  destruct (String.compare k h) eqn:E; simpl.
  - apply String.compare_eq_iff in E. subst. intuition.
  - intuition.
  - rewrite IH. intuition.
Qed.

Lemma group_keys_In x l : In x (group_keys l) <-> In x l.
Proof.
  induction l as [|k l IH]; simpl; [reflexivity|].
  rewrite insert_key_In, IH. intuition.
Qed.

Lemma str_lt_trans a b c : str_lt a b -> str_lt b c -> str_lt a c.
Proof.
  unfold str_lt. intros H1 H2.
  apply OrderedTypeEx.String_as_OT.cmp_lt in H1, H2.
  apply OrderedTypeEx.String_as_OT.cmp_lt.
  eapply OrderedTypeEx.String_as_OT.lt_trans; eassumption.
Qed.

Lemma str_lt_irrefl a : ~ str_lt a a.
Proof.
  unfold str_lt. intros H.
  assert (E : String.compare a a = Eq)
    by (apply OrderedTypeEx.String_as_OT.cmp_eq; reflexivity).
  congruence.
Qed.

Lemma str_gt_lt a b : String.compare a b = Gt -> str_lt b a.
Proof.
  unfold str_lt. intros H. rewrite String.compare_antisym, H. reflexivity.
Qed.

Lemma insert_key_sorted k l :
  StronglySorted str_lt l -> StronglySorted str_lt (insert_key k l).
Proof.
  induction 1 as [|h t Hs IH Hh]; simpl; [repeat constructor|].
  destruct (String.compare k h) eqn:E.
  - constructor; assumption.
  - constructor; [constructor; assumption|].
    constructor; [exact E|].
    eapply Forall_impl; [|exact Hh]. intros z Hz. eapply str_lt_trans; eassumption.
  - constructor; [assumption|].
    apply Forall_forall. intros x Hx. apply insert_key_In in Hx as [->|Hx].
    + now apply str_gt_lt.
    + rewrite Forall_forall in Hh. auto.
Qed.

Lemma group_keys_sorted l : StronglySorted str_lt (group_keys l).
Proof.
  induction l as [|k l IH]; simpl; [constructor|]. now apply insert_key_sorted.
Qed.

Lemma group_keys_NoDup l : NoDup (group_keys l).
Proof.
  pose proof (group_keys_sorted l) as H.
  induction H as [|h t _ IH Hh]; constructor; [|assumption].
  intros Hin. rewrite Forall_forall in Hh. apply (str_lt_irrefl h). auto.
Qed.

(** ** Trimming *)

Lemma all_space_app (a b : string) :
  all_space a -> all_space b -> all_space (a ++ b).
Proof.
  unfold all_space. induction a as [|c a IH]; simpl; [auto|].
  intros Ha Hb. inversion Ha; subst. constructor; auto.
Qed.

(** [lstrip] takes a run of white space off the front, all of it. *)
Lemma lstrip_spec (s : string) :
  exists pre, s = (pre ++ lstrip s)%string /\ all_space pre /\
              forall c rest, lstrip s = String c rest -> is_space c = false.
Proof.
  induction s as [|c s IH].
  - exists EmptyString. split; [reflexivity|]. split; [constructor | discriminate].
  - cbn [lstrip]. destruct (is_space c) eqn:E.
    + destruct IH as (pre & Hs & Hp & Hc). exists (String c pre).
      split; [simpl; congruence|]. split; [constructor; assumption | exact Hc].
    + exists EmptyString. split; [reflexivity|]. split; [constructor|].
      intros c' rest [= <- _]. exact E.
Qed.

(** [rstrip] takes a run of white space off the end, all of it, and leaves
    the front as it is. *)
Lemma rstrip_spec (s : string) :
  exists post, s = (rstrip s ++ post)%string /\ all_space post /\
               forall init c, rstrip s = (init ++ String c EmptyString)%string ->
                              is_space c = false.
Proof.
  induction s as [|c s IH].
  - exists EmptyString. split; [reflexivity|]. split; [constructor|].
    intros [|a init] c H; discriminate H.
  - destruct IH as (post & Hs & Hp & Hc). cbn [rstrip].
    destruct (rstrip s) as [|r0 r] eqn:Er.
    + destruct (is_space c) eqn:E.
      * exists (String c post). split; [simpl in *; congruence|].
        split; [constructor; assumption|]. intros [|a init] c' H; discriminate H.
      * exists post. split; [simpl in *; congruence|]. split; [assumption|].
        intros [|a init] c' H; simpl in H.
        -- injection H as <-. exact E.
        -- injection H as _ H. destruct init; discriminate H.
    + exists post. split; [simpl in *; congruence|]. split; [assumption|].
      intros [|a init] c' H; simpl in H; [discriminate H|].
      injection H as _ H. apply (Hc init c'). exact H.
Qed.

Lemma rstrip_first (s : string) (c : ascii) (rest : string) :
  rstrip s = String c rest -> exists rest', s = String c rest'.
Proof.
  destruct s as [|a s]; [discriminate|]. cbn [rstrip].
  destruct (rstrip s); [destruct (is_space a)|]; intros [= <- _]; eauto.
Qed.

(** What [strip] returns: the text between a run of white space at the
    front and one at the end, itself with no white space at either end. *)
Lemma strip_spec (e : string) :
  exists pre post,
    e = (pre ++ strip e ++ post)%string /\
    all_space pre /\ all_space post /\ trimmed (strip e).
Proof.
  unfold strip. destruct (lstrip_spec e) as (pre & He & Hpre & Hfirst).
  destruct (rstrip_spec (lstrip e)) as (post & Hl & Hpost & Hlast).
  exists pre, post. split; [rewrite He at 1; rewrite Hl at 1; reflexivity|].
  split; [assumption|]. split; [assumption|].
  split; [|exact Hlast].
  intros c rest H. apply rstrip_first in H as [rest' H]. eapply Hfirst. exact H.
Qed.

Lemma lstrip_space (pre s : string) : all_space pre -> lstrip (pre ++ s) = lstrip s.
Proof.
  induction pre as [|c pre IH]; intros H; [reflexivity|].
  inversion H as [|? ? Hc Hp]; subst. simpl. rewrite Hc. auto.
Qed.

Lemma rstrip_space (post : string) : all_space post -> rstrip post = EmptyString.
Proof.
  induction post as [|c post IH]; intros H; [reflexivity|].
  inversion H as [|? ? Hc Hp]; subst. cbn [rstrip]. rewrite (IH Hp), Hc. reflexivity.
Qed.

Lemma rstrip_trimmed (s : string) :
  (forall init c, s = (init ++ String c EmptyString)%string -> is_space c = false) ->
  rstrip s = s.
Proof.
  induction s as [|c s IH]; intros H; [reflexivity|]. cbn [rstrip].
  destruct s as [|c' s'].
  - cbn [rstrip]. rewrite (H EmptyString c eq_refl). reflexivity.
  - rewrite IH; [reflexivity|]. intros init a E. apply (H (String c init) a).
    simpl. congruence.
Qed.

Lemma rstrip_app_space (s post : string) :
  all_space post -> rstrip (s ++ post) = rstrip s.
Proof.
  intros H. induction s as [|c s IH]; simpl; [now apply rstrip_space|].
  now rewrite IH.
Qed.

(** [strip] undoes any padding with white space. *)
Lemma strip_padded (pre core post : string) :
  all_space pre -> all_space post -> trimmed core ->
  strip (pre ++ core ++ post) = core.
Proof.
  intros Hpre Hpost [Hfirst Hlast]. unfold strip. rewrite lstrip_space by assumption.
  destruct core as [|c core].
  - simpl. assert (A : lstrip post = EmptyString).
    { clear Hfirst Hlast. induction post as [|a post IH]; [reflexivity|].
      inversion Hpost as [|? ? Ha Hp]; subst. simpl. rewrite Ha. auto. }
    rewrite A. reflexivity.
  - assert (E : lstrip (String c core ++ post) = (String c core ++ post)%string).
    { simpl. now rewrite (Hfirst c core eq_refl). }
    rewrite E, rstrip_app_space by assumption. now apply rstrip_trimmed.
Qed.

(** ** Counting skills *)

Lemma groupby_size_keys l : map fst (groupby_size l) = group_keys l.
Proof. unfold groupby_size. rewrite map_map. simpl. apply map_id. Qed.

Lemma groupby_size_In l k n :
  In (k, n) (groupby_size l) <-> In k l /\ n = count_occ string_dec l k.
Proof.
  unfold groupby_size. rewrite in_map_iff. split.
  - intros (x & E & Hx). inversion E; subst.
    apply (proj1 (group_keys_In _ _)) in Hx. split; [assumption | reflexivity].
  - intros [Hk ->]. exists k. split; [reflexivity|]. now apply group_keys_In.
Qed.

Lemma StronglySorted_impl {A : Type} (R R' : A -> A -> Prop) (l : list A) :
  (forall a b, R a b -> R' a b) -> StronglySorted R l -> StronglySorted R' l.
Proof.
  intros HR. induction 1 as [|x l _ IH Hx]; constructor; [assumption|].
  eapply Forall_impl; [|exact Hx]. auto.
Qed.

Lemma size_key_ge (p q : string * nat) :
  key_ge (size_key p) (size_key q) <-> snd q <= snd p.
Proof.
  unfold size_key, key_ge. rewrite <- Zle_Qle. lia.
Qed.

Lemma NoDup_firstn {A : Type} (n : nat) (l : list A) : NoDup l -> NoDup (firstn n l).
Proof.
  intros H. rewrite <- (firstn_skipn n l) in H. now apply NoDup_app_remove_r in H.
Qed.

Lemma In_firstn {A : Type} (n : nat) (l : list A) (x : A) :
  In x (firstn n l) -> In x l.
Proof.
  intros H. rewrite <- (firstn_skipn n l). apply in_or_app. now left.
Qed.

Section ValueCounts.
Context {S : Sorter}.

Lemma value_counts_In l k n :
  In (k, n) (value_counts l) <-> In k l /\ n = count_occ string_dec l k.
Proof.
  unfold value_counts. rewrite <- groupby_size_In. split; intros H.
  - eapply Permutation_in; [symmetry; apply sort_values_perm | exact H].
  - eapply Permutation_in; [apply sort_values_perm | exact H].
Qed.

Lemma value_counts_NoDup l : NoDup (map fst (value_counts l)).
Proof.
  unfold value_counts.
  eapply Permutation_NoDup;
    [apply Permutation_map, sort_values_perm|].
  rewrite groupby_size_keys. apply group_keys_NoDup.
Qed.

Lemma value_counts_sorted l :
  StronglySorted (fun p q => snd q <= snd p) (value_counts l).
Proof.
  unfold value_counts.
  eapply StronglySorted_impl; [|apply sort_values_sorted].
  intros a b H. now apply size_key_ge.
Qed.

(** The flattened list: every stored element, trimmed, in order. *)
Lemma all_skills_flat view :
  Forall has_skills view ->
  all_skills view = Ok (map strip (stored_skills view)).
Proof.
  unfold all_skills, stored_skills. intros H.
  assert (E : mapM (fun r => skills <- iter_skills r ;; Ok (map strip skills)) view
              = Ok (map (fun r => map strip (skills_of r)) view)).
  { induction H as [|r view Hr _ IH]; simpl; [reflexivity|].
    unfold has_skills in Hr. unfold iter_skills at 1, skills_of at 1.
    destruct (Skills_List r); [|congruence]. simpl. rewrite IH. reflexivity. }
  rewrite E. simpl. f_equal.
  clear. induction view as [|r view IH]; simpl; [reflexivity|].
  rewrite map_app, IH. reflexivity.
Qed.

Lemma all_skills_missing view :
  ~ Forall has_skills view -> all_skills view = Raise TypeError.
Proof.
  unfold all_skills. intros H.
  assert (E : mapM (fun r => skills <- iter_skills r ;; Ok (map strip skills)) view
              = Raise TypeError).
  { induction view as [|r view IH]; simpl; [exfalso; apply H; constructor|].
    unfold iter_skills at 1. destruct (Skills_List r) as [l|] eqn:El; [|reflexivity].
    simpl. rewrite IH; [reflexivity|].
    intros F. apply H. constructor; [|assumption].
    unfold has_skills. congruence. }
  rewrite E. reflexivity.
Qed.

End ValueCounts.

(** The flattened elements are the stored ones with the white space at
    their ends taken off, one for one. *)
Lemma map_strip_trims (l : list string) :
  Forall2 (fun e k => exists pre post,
             e = (pre ++ k ++ post)%string /\
             all_space pre /\ all_space post /\ trimmed k)
          l (map strip l).
Proof.
  induction l as [|e l IH]; constructor; [|assumption].
  destruct (strip_spec e) as (pre & post & H). exists pre, post. exact H.
Qed.

(** C7, as the program has it.  On a view whose records all have a skills
    list, the ranking by frequency flattens the lists of all records (one
    element per occurrence, duplicates kept, each with the white space at
    its two ends taken off), counts the occurrences of every distinct
    skill, sorts by count, largest first, and returns the first ten at
    most: what is left out occurs no more often than anything returned.
    The order of skills with equal counts is the library's, not fixed by
    the program. *)
Theorem top_skills_spec {S : Sorter} (view : list Row) :
  Forall has_skills view ->
  exists skills top,
    all_skills view = Ok skills /\
    top_skills view = Ok top /\
    skills = map strip (stored_skills view) /\
    Forall2 (fun e k => exists pre post,
               e = (pre ++ k ++ post)%string /\
               all_space pre /\ all_space post /\ trimmed k)
            (stored_skills view) skills /\
    List.length top <= 10 /\
    NoDup (map fst top) /\
    (forall k n, In (k, n) top -> In k skills /\ n = count_occ string_dec skills k) /\
    StronglySorted (fun p q => snd q <= snd p) top /\
    (forall k, In k skills -> ~ In k (map fst top) ->
       List.length top = 10 /\
       forall p, In p top -> count_occ string_dec skills k <= snd p).
Proof.
  intros Hv. pose proof (all_skills_flat view Hv) as E.
  exists (map strip (stored_skills view)), (firstn 10 (value_counts (map strip (stored_skills view)))).
  split; [assumption|].
  split; [unfold top_skills, skills_df; rewrite E; reflexivity|].
  split; [reflexivity|].
  split; [apply map_strip_trims|].
  set (skills := map strip (stored_skills view)) in *.
  split; [apply firstn_le_length|].
  split; [rewrite <- firstn_map; apply NoDup_firstn, value_counts_NoDup|].
  split; [intros k n H; apply In_firstn in H; now apply value_counts_In|].
  destruct (firstn_sorted _ 10 _ (value_counts_sorted skills)) as [Hs Hle].
  split; [assumption|].
  intros k Hk Hout.
  assert (Hin : In (k, count_occ string_dec skills k) (value_counts skills))
    by (apply value_counts_In; auto).
  destruct (firstn_left_out 10 _ _ Hin) as [Hskip Hlen].
  { intros H. apply Hout. apply in_map_iff. exists (k, count_occ string_dec skills k). auto. }
  split; [assumption|]. intros p Hp. exact (Hle _ _ Hp Hskip).
Qed.

Lemma top_skills_spec_witness :
  Forall has_skills (loaded fixture) /\
  stored_skills (loaded fixture) = ["Python"; " SQL"; "Java"; "SQL"; "Python"; "ML"] /\
  all_skills (loaded fixture) = Ok ["Python"; "SQL"; "Java"; "SQL"; "Python"; "ML"] /\
  exists skills top,
    all_skills (loaded fixture) = Ok skills /\
    @top_skills descending_sorter (loaded fixture) = Ok top /\
    skills = map strip (stored_skills (loaded fixture)) /\
    Forall2 (fun e k => exists pre post,
               e = (pre ++ k ++ post)%string /\
               all_space pre /\ all_space post /\ trimmed k)
            (stored_skills (loaded fixture)) skills /\
    List.length top <= 10 /\
    NoDup (map fst top) /\
    (forall k n, In (k, n) top -> In k skills /\ n = count_occ string_dec skills k) /\
    StronglySorted (fun p q => snd q <= snd p) top /\
    (forall k, In k skills -> ~ In k (map fst top) ->
       List.length top = 10 /\
       forall p, In p top -> count_occ string_dec skills k <= snd p).
Proof.
  assert (H : Forall has_skills (loaded fixture))
    by (vm_compute; repeat constructor; discriminate).
  split; [exact H|].
  split; [vm_compute; reflexivity|].
  split; [vm_compute; reflexivity|].
  exact (top_skills_spec (S := descending_sorter) (loaded fixture) H).
Defined.

Example top_skills_fixture :
  @top_skills descending_sorter (loaded fixture)
  = Ok [("SQL", 2); ("Python", 2); ("ML", 1); ("Java", 1)].
Proof. vm_compute. reflexivity. Qed.

(** A record with no skills cell stops the ranking by frequency (the cell is
    a float, and a float cannot be iterated); the ranking by salary skips
    it.  A table in which no record has a skills cell does not load. *)
Example top_skills_missing_cell :
  List.length (loaded one_without_skills) = 2 /\
  top_skills (loaded one_without_skills) = Raise TypeError /\
  top_paying_skills (loaded one_without_skills) = [] /\
  load_data [no_skills_posting] = Raise AttributeError.
Proof. vm_compute. repeat split; reflexivity. Qed.

(** C7 as written fails on ties: the program leaves their order to the
    library's sort.  On the three postings Python and SQL occur twice, Java
    and ML once, met in the order Python, SQL, Java, ML; with a sort that
    leaves equal counts in the reverse of the order of the groups (as pandas
    2.2 returns them here) the ranking is SQL, Python, ML, Java.  On the two
    postings with SQL and Java the same sort returns SQL before Java, the
    order they were met in. *)
Lemma top_skills_tie_order :
  all_skills (loaded fixture) = Ok ["Python"; "SQL"; "Java"; "SQL"; "Python"; "ML"] /\
  @top_skills descending_sorter (loaded fixture)
  = Ok [("SQL", 2); ("Python", 2); ("ML", 1); ("Java", 1)] /\
  spec_top_skills ["Python"; "SQL"; "Java"; "SQL"; "Python"; "ML"]
  = [("Python", 2); ("SQL", 2); ("Java", 1); ("ML", 1)] /\
  all_skills (loaded tie_postings) = Ok ["SQL"; "Java"] /\
  @top_skills descending_sorter (loaded tie_postings)
  = Ok [("SQL", 1); ("Java", 1)] /\
  spec_top_skills ["SQL"; "Java"] = [("SQL", 1); ("Java", 1)].
Proof. vm_compute. repeat split; reflexivity. Qed.

(** ** Highest paying skills *)

Lemma present_app {A : Type} (l1 l2 : list (option A)) :
  present (l1 ++ l2) = present l1 ++ present l2.
Proof.
  induction l1 as [|[a|] l1 IH]; simpl; [reflexivity | f_equal; assumption | assumption].
Qed.

Lemma present_Some {A : Type} (l : list A) : present (map Some l) = l.
Proof. induction l; simpl; [reflexivity | f_equal; assumption]. Qed.

(** The keys of the exploded view are the stored elements, as they stand. *)
Lemma explode_keys view : present (map fst (explode view)) = stored_skills view.
Proof.
  unfold explode, stored_skills. induction view as [|r view IH]; [reflexivity|].
  cbn [flat_map]. rewrite map_app, present_app, IH. f_equal.
  unfold skills_of, explode_row.
  destruct (Skills_List r) as [[|s l]|]; try reflexivity.
  rewrite map_map. simpl. f_equal. apply (present_Some l).
Qed.

Lemma series_count_paid k ex :
  series_count (group_salaries k ex) = paid_occurrences k ex.
Proof.
  unfold series_count, group_salaries, paid_occurrences, has_salary.
  induction ex as [|p ex IH]; simpl; [reflexivity|].
  destruct (key_is k p); simpl; [|assumption].
  destruct (avg_salary (salary (snd p))); simpl; congruence.
Qed.

Lemma paid_le_occurrences k ex : paid_occurrences k ex <= occurrences k ex.
Proof.
  unfold paid_occurrences, occurrences. induction ex as [|p ex IH]; simpl; [lia|].
  destruct (key_is k p); simpl; [|assumption].
  destruct (has_salary p); simpl; lia.
Qed.

Lemma occurrences_count view k :
  occurrences k (explode view) = count_occ string_dec (stored_skills view) k.
Proof.
  rewrite <- explode_keys. unfold occurrences.
  induction (explode view) as [|[[s|] r] ex IH]; simpl; [reflexivity| |assumption].
  unfold key_is at 1. simpl. destruct (string_dec s k) as [->|Hne].
  - rewrite String.eqb_refl. simpl. congruence.
  - apply String.eqb_neq in Hne. rewrite Hne. assumption.
Qed.

Lemma series_mean_some l :
  1 <= series_count l -> exists m, series_mean l = Some m.
Proof.
  unfold series_count, series_mean. destruct (present l); simpl; [lia | eauto].
Qed.

Lemma agg_mean_count_skills ex :
  map skill (agg_mean_count ex) = group_keys (present (map fst ex)).
Proof. unfold agg_mean_count. rewrite map_map. simpl. apply map_id. Qed.

Lemma agg_mean_count_In ex e :
  In e (agg_mean_count ex) ->
  In (skill e) (present (map fst ex)) /\
  mean e = option_map round2 (series_mean (group_salaries (skill e) ex)) /\
  count e = series_count (group_salaries (skill e) ex).
Proof.
  unfold agg_mean_count. rewrite in_map_iff. intros (k & <- & Hk). simpl.
  apply (proj1 (group_keys_In _ _)) in Hk. auto.
Qed.

Lemma agg_mean_count_key ex k :
  In k (present (map fst ex)) ->
  In {| skill := k;
        mean := option_map round2 (series_mean (group_salaries k ex));
        count := series_count (group_salaries k ex) |} (agg_mean_count ex).
Proof.
  intros H. unfold agg_mean_count. apply in_map_iff. exists k.
  split; [reflexivity|]. now apply group_keys_In.
Qed.

Lemma filter_skills_NoDup (keep : skill_stat -> bool) (stats : list skill_stat) :
  NoDup (map skill stats) -> NoDup (map skill (filter keep stats)).
Proof.
  intros H. induction stats as [|e stats IH]; simpl; [constructor|].
  simpl in H. apply NoDup_cons_iff in H as [He Hs].
  destruct (keep e); simpl; [|now apply IH].
  apply NoDup_cons_iff. split; [|now apply IH].
  rewrite in_map_iff. intros (e' & E & He'). apply He.
  apply filter_In in He' as [He' _]. rewrite <- E. now apply in_map.
Qed.

Section HighestPaying.
Context {S : Sorter}.

Lemma skills_salary_avg_In view e :
  In e (skills_salary_avg view) <->
  In e (agg_mean_count (explode view)) /\ 5 <= count e.
Proof.
  unfold skills_salary_avg. rewrite <- Nat.leb_le.
  rewrite <- (filter_In (fun e => (5 <=? count e)%nat)). split; intros H.
  - eapply Permutation_in; [symmetry; apply sort_values_perm | exact H].
  - eapply Permutation_in; [apply sort_values_perm | exact H].
Qed.

Lemma skills_salary_avg_NoDup view : NoDup (map skill (skills_salary_avg view)).
Proof.
  unfold skills_salary_avg.
  eapply Permutation_NoDup; [apply Permutation_map, sort_values_perm|].
  apply filter_skills_NoDup. rewrite agg_mean_count_skills. apply group_keys_NoDup.
Qed.

End HighestPaying.

(** C6, as the program has it.  The ranking of the highest paying skills
    explodes the skills lists of the view, groups by skill, and gives every
    skill the mean of avg_salary over its occurrences that have one, rounded
    to two decimals, and the number of those occurrences (an occurrence
    whose avg_salary is absent is not counted); it leaves out every skill
    with a count below 5, sorts by that mean, largest first, and returns the
    first ten at most.  Every returned skill has a count of 5 or more, and so
    occurs 5 times or more. *)
Theorem top_paying_skills_spec {S : Sorter} (view : list Row) :
  let ex := explode view in
  let top := top_paying_skills view in
  List.length top <= 10 /\
  NoDup (map skill top) /\
  (forall e, In e top ->
     In (skill e) (stored_skills view) /\
     count e = paid_occurrences (skill e) ex /\
     5 <= count e <= occurrences (skill e) ex /\
     occurrences (skill e) ex = count_occ string_dec (stored_skills view) (skill e) /\
     mean e = option_map round2 (series_mean (group_salaries (skill e) ex)) /\
     exists m, mean e = Some m) /\
  StronglySorted (fun e1 e2 => key_ge (mean e1) (mean e2)) top /\
  (forall k, In k (stored_skills view) -> 5 <= paid_occurrences k ex ->
     ~ In k (map skill top) ->
     List.length top = 10 /\
     forall e, In e top ->
       key_ge (mean e) (option_map round2 (series_mean (group_salaries k ex)))).
Proof.
  intros ex top. unfold top, top_paying_skills.
  split; [apply firstn_le_length|].
  split; [rewrite <- firstn_map; apply NoDup_firstn, skills_salary_avg_NoDup|].
  split.
  { intros e He. apply In_firstn in He. apply skills_salary_avg_In in He as [He H5].
    apply agg_mean_count_In in He as (Hk & Hm & Hc). fold ex in Hm, Hc.
    rewrite explode_keys in Hk. rewrite series_count_paid in Hc.
    pose proof (paid_le_occurrences (skill e) ex) as Hle.
    split; [assumption|]. split; [assumption|]. split; [lia|].
    split; [apply occurrences_count|]. split; [assumption|].
    destruct (series_mean_some (group_salaries (skill e) ex)) as [m Hs].
    - rewrite series_count_paid. lia.
    - rewrite Hm, Hs. simpl. eauto. }
  destruct (firstn_sorted _ 10 _ (sort_values_sorted _ mean
              (filter (fun e => (5 <=? count e)%nat) (agg_mean_count ex)))) as [Hs Hle].
  split; [exact Hs|].
  intros k Hk H5 Hout.
  set (ek := {| skill := k;
                mean := option_map round2 (series_mean (group_salaries k ex));
                count := series_count (group_salaries k ex) |}).
  assert (Hin : In ek (skills_salary_avg view)).
  { apply skills_salary_avg_In. split.
    - apply agg_mean_count_key. now rewrite explode_keys.
    - simpl. rewrite series_count_paid. assumption. }
  destruct (firstn_left_out 10 _ _ Hin) as [Hskip Hlen].
  { intros H. apply Hout. apply in_map_iff. exists ek. auto. }
  split; [assumption|]. intros e He. exact (Hle e ek He Hskip).
Qed.

(** C6 as written fails where a salary is absent: the count is taken over
    the occurrences that have an avg_salary, not over all occurrences.  Go
    occurs six times, once without a salary, and is reported with count 5;
    with five occurrences, one without a salary, it is left out.  And the
    order is that of the rounded means: Ada (8.001) and Bash (8.004) are both
    reported with 8.0, Ada first. *)
Lemma top_paying_skills_count :
  top_paying_skills (loaded (go_postings 1 5)) =
    [ {| skill := "Go"; mean := Some 8%Q; count := 5 |} ] /\
  occurrences "Go" (explode (loaded (go_postings 1 5))) = 6 /\
  top_paying_skills (loaded (go_postings 1 4)) = [] /\
  occurrences "Go" (explode (loaded (go_postings 1 4))) = 5 /\
  top_paying_skills (loaded rounding_postings) =
    [ {| skill := "Ada"; mean := Some 8%Q; count := 5 |};
      {| skill := "Bash"; mean := Some 8%Q; count := 5 |} ] /\
  series_mean (group_salaries "Ada" (explode (loaded rounding_postings))) =
    Some (8001 # 1000)%Q /\
  series_mean (group_salaries "Bash" (explode (loaded rounding_postings))) =
    Some (2001 # 250)%Q /\
  ~ (2001 # 250 <= 8001 # 1000)%Q.
Proof.
  repeat (split; [vm_compute; reflexivity|]).
  intros H. vm_compute in H. apply H. reflexivity.
Qed.

(** ** Trimmed in one ranking, as stored in the other *)

Lemma count_occ_map_strip l k :
  count_occ string_dec (map strip l) k =
  List.length (filter (fun e => String.eqb (strip e) k) l).
Proof.
  induction l as [|e l IH]; simpl; [reflexivity|].
  destruct (string_dec (strip e) k) as [E|E].
  - rewrite E, String.eqb_refl. simpl. congruence.
  - apply String.eqb_neq in E. rewrite E. assumption.
Qed.

Lemma two_in_filter (p : string -> bool) (l : list string) (e1 e2 : string) :
  In e1 l -> In e2 l -> e1 <> e2 -> p e1 = true -> p e2 = true ->
  2 <= List.length (filter p l).
Proof.
  intros H1 H2 Hne P1 P2.
  apply (NoDup_incl_length (l := [e1; e2])).
  - constructor; [simpl; intuition congruence|]. constructor; [simpl; tauto | constructor].
  - intros x [<-|[<-|[]]]; apply filter_In; auto.
Qed.

(** C10.  In the ranking by frequency every flattened element is trimmed
    before it is counted: the white space at its two ends is taken off, all
    of it and nothing else.  The keys are the trimmed forms of the stored
    elements, each counted over all stored elements that trim to it, so two
    stored elements that differ only in leading or trailing white space
    fall under one key and are counted together.  The stored column keeps
    the pieces of the split untrimmed, and the ranking by salary groups by
    the stored elements as they stand. *)
Theorem skills_trimmed_before_counting {S : Sorter} (view : list Row) :
  Forall has_skills view ->
  exists df,
    skills_df view = Ok df /\
    NoDup (map fst df) /\
    (forall e, In e (stored_skills view) ->
       exists pre post,
         e = (pre ++ strip e ++ post)%string /\
         all_space pre /\ all_space post /\ trimmed (strip e)) /\
    (forall pre core post,
       all_space pre -> all_space post -> trimmed core ->
       strip (pre ++ core ++ post) = core) /\
    (forall k, In k (map fst df) <->
       exists e, In e (stored_skills view) /\ strip e = k) /\
    (forall k, In k (map fst df) -> trimmed k) /\
    (forall k n, In (k, n) df ->
       n = List.length (filter (fun e => String.eqb (strip e) k) (stored_skills view))) /\
    (forall e1 e2 core pre1 post1 pre2 post2,
       In e1 (stored_skills view) -> In e2 (stored_skills view) -> e1 <> e2 ->
       trimmed core ->
       all_space pre1 -> all_space post1 -> all_space pre2 -> all_space post2 ->
       e1 = (pre1 ++ core ++ post1)%string -> e2 = (pre2 ++ core ++ post2)%string ->
       exists n, In (core, n) df /\ 2 <= n) /\
    (forall (DP : DateParser) csv df, load_data csv = Ok df ->
       Forall (fun row =>
                 Skills_List row = option_map (split ",") (Skills_Required (raw row)))
              df) /\
    (forall e, In e (map skill (agg_mean_count (explode view))) <->
       In e (stored_skills view)).
Proof.
  intros Hv. exists (value_counts (map strip (stored_skills view))).
  assert (K : forall k, In k (map fst (value_counts (map strip (stored_skills view)))) <->
                exists e, In e (stored_skills view) /\ strip e = k).
  { intros k. split.
    - intros H. apply in_map_iff in H as ([k' n] & E & H). simpl in E. subst k'.
      apply value_counts_In in H as [H _]. apply in_map_iff in H as (e & E & He). eauto.
    - intros (e & He & E). apply in_map_iff.
      exists (k, count_occ string_dec (map strip (stored_skills view)) k).
      split; [reflexivity|]. apply value_counts_In. split; [|reflexivity].
      apply in_map_iff. eauto. }
  split; [unfold skills_df; rewrite (all_skills_flat view Hv); reflexivity|].
  split; [apply value_counts_NoDup|].
  split; [intros e _; apply strip_spec|].
  split; [apply strip_padded|].
  split; [exact K|].
  split.
  { intros k Hk. apply K in Hk as (e & _ & <-).
    destruct (strip_spec e) as (pre & post & _ & _ & _ & Ht). exact Ht. }
  split.
  { intros k n H. apply value_counts_In in H as [_ ->]. apply count_occ_map_strip. }
  split.
  { intros e1 e2 core pre1 post1 pre2 post2 H1 H2 Hne Hc Hp1 Hq1 Hp2 Hq2 E1 E2.
    assert (S1 : strip e1 = core) by (rewrite E1; now apply strip_padded).
    assert (S2 : strip e2 = core) by (rewrite E2; now apply strip_padded).
    exists (count_occ string_dec (map strip (stored_skills view)) core). split.
    - apply value_counts_In. split; [|reflexivity]. rewrite <- S1. now apply in_map.
    - rewrite count_occ_map_strip.
      apply (two_in_filter _ _ e1 e2); try assumption.
      + rewrite S1. apply String.eqb_refl.
      + rewrite S2. apply String.eqb_refl. }
  split.
  { intros DP csv df H. destruct (load_data_rows _ _ H) as [_ Hrows].
    eapply Forall_impl; [|exact Hrows]. intros row Hr. apply Hr. }
  intros e. rewrite agg_mean_count_skills, group_keys_In, explode_keys. reflexivity.
Qed.

Lemma skills_trimmed_before_counting_witness :
  Forall has_skills (loaded fixture) /\
  stored_skills (loaded fixture) = ["Python"; " SQL"; "Java"; "SQL"; "Python"; "ML"] /\
  strip " SQL" = "SQL" /\
  @skills_df descending_sorter (loaded fixture)
  = Ok [("SQL", 2); ("Python", 2); ("ML", 1); ("Java", 1)] /\
  exists df,
    @skills_df descending_sorter (loaded fixture) = Ok df /\
    NoDup (map fst df) /\
    (forall e, In e (stored_skills (loaded fixture)) ->
       exists pre post,
         e = (pre ++ strip e ++ post)%string /\
         all_space pre /\ all_space post /\ trimmed (strip e)) /\
    (forall pre core post,
       all_space pre -> all_space post -> trimmed core ->
       strip (pre ++ core ++ post) = core) /\
    (forall k, In k (map fst df) <->
       exists e, In e (stored_skills (loaded fixture)) /\ strip e = k) /\
    (forall k, In k (map fst df) -> trimmed k) /\
    (forall k n, In (k, n) df ->
       n = List.length (filter (fun e => String.eqb (strip e) k)
                          (stored_skills (loaded fixture)))) /\
    (forall e1 e2 core pre1 post1 pre2 post2,
       In e1 (stored_skills (loaded fixture)) ->
       In e2 (stored_skills (loaded fixture)) -> e1 <> e2 ->
       trimmed core ->
       all_space pre1 -> all_space post1 -> all_space pre2 -> all_space post2 ->
       e1 = (pre1 ++ core ++ post1)%string -> e2 = (pre2 ++ core ++ post2)%string ->
       exists n, In (core, n) df /\ 2 <= n) /\
    (forall (DP : DateParser) csv df, load_data csv = Ok df ->
       Forall (fun row =>
                 Skills_List row = option_map (split ",") (Skills_Required (raw row)))
              df) /\
    (forall e, In e (map skill (agg_mean_count (explode (loaded fixture)))) <->
       In e (stored_skills (loaded fixture))).
Proof.
  assert (H : Forall has_skills (loaded fixture))
    by (vm_compute; repeat constructor; discriminate).
  split; [exact H|].
  split; [vm_compute; reflexivity|].
  split; [vm_compute; reflexivity|].
  split; [vm_compute; reflexivity|].
  exact (skills_trimmed_before_counting (S := descending_sorter) (loaded fixture) H).
Defined.

(** On the three postings: " SQL" and "SQL" are stored as two elements, are
    one key with count 2 in the ranking by frequency, and two groups in the
    ranking by salary. *)
Example skills_fixture :
  stored_skills (loaded fixture) = ["Python"; " SQL"; "Java"; "SQL"; "Python"; "ML"] /\
  @skills_df descending_sorter (loaded fixture)
  = Ok [("SQL", 2); ("Python", 2); ("ML", 1); ("Java", 1)] /\
  map skill (agg_mean_count (explode (loaded fixture))) =
    [" SQL"; "Java"; "ML"; "Python"; "SQL"].
Proof. vm_compute. repeat split; reflexivity. Qed.

(** ** Job search *)

Lemma prefix_ci_spec p s :
  prefix_ci p s = true <->
  exists post, lower_string s = (lower_string p ++ post)%string.
Proof.
  revert s. induction p as [|a p IH]; intros s; simpl.
  - split; [eauto | reflexivity].
  - destruct s as [|b s]; simpl.
    + split; [discriminate | intros [post E]; discriminate].
    + rewrite andb_true_iff, Ascii.eqb_eq, IH. split.
      * intros [E [post H]]. exists post. rewrite E, H. reflexivity.
      * intros [post H]. inversion H. eauto.
Qed.

(** [contains_ci] is substring containment after lowering both texts. *)
Lemma contains_ci_spec p s :
  contains_ci p s = true <->
  exists pre post, lower_string s = (pre ++ lower_string p ++ post)%string.
Proof.
  induction s as [|b s IH].
  - simpl. rewrite orb_false_r, prefix_ci_spec. split.
    + intros [post H]. exists EmptyString, post. assumption.
    + intros (pre & post & H). destruct pre; [eauto | discriminate].
  - cbn [contains_ci]. rewrite orb_true_iff, prefix_ci_spec, IH. split.
    + intros [[post H] | (pre & post & H)].
      * exists EmptyString, post. assumption.
      * exists (String (lower b) pre), post. simpl. rewrite H. reflexivity.
    + intros (pre & post & H). destruct pre as [|c pre].
      * left. eauto.
      * right. simpl in H. inversion H. eauto.
Qed.

Lemma contains_ci_case p q s :
  lower_string p = lower_string q -> contains_ci p s = contains_ci q s.
Proof.
  intros E. apply eq_true_iff_eq. rewrite !contains_ci_spec, E. reflexivity.
Qed.

Lemma is_special_lower c : is_special (lower c) = is_special c.
Proof. destruct c as [[] [] [] [] [] [] [] []]; reflexivity. Qed.

Lemma has_special_lower s : has_special (lower_string s) = has_special s.
Proof.
  induction s as [|c s IH]; simpl; [reflexivity|].
  rewrite is_special_lower, IH. reflexivity.
Qed.

(** The small engine is a [Regex]. *)
Lemma parse_atoms_plain p :
  has_special p = false ->
  parse_atoms p = Ok (map Lit (list_ascii_of_string p)).
Proof.
  induction p as [|c p IH]; simpl; intros H; [reflexivity|].
  apply orb_false_iff in H as [Hc Hp].
  assert (Hd : Ascii.eqb c "." = false).
  { destruct (Ascii.eqb c ".") eqn:E; [|reflexivity].
    apply Ascii.eqb_eq in E. subst c. discriminate Hc. }
  rewrite Hd, Hc, (IH Hp). reflexivity.
Qed.

Lemma atoms_prefix_plain p s :
  atoms_prefix (map Lit (list_ascii_of_string p)) s = prefix_ci p s.
Proof.
  revert s. induction p as [|a p IH]; intros s; simpl; [reflexivity|].
  destruct s as [|b s]; [reflexivity|]. simpl. rewrite IH. reflexivity.
Qed.

Lemma atoms_search_plain p s :
  atoms_search (map Lit (list_ascii_of_string p)) s = contains_ci p s.
Proof.
  induction s as [|b s IH]; cbn [atoms_search contains_ci];
    rewrite atoms_prefix_plain; [reflexivity|]. rewrite IH. reflexivity.
Qed.

Lemma atoms_search_dot s :
  atoms_search [AnyChar] s = any_char (fun c => negb (Ascii.eqb c newline)) s.
Proof.
  induction s as [|b s IH]; simpl; [reflexivity|].
  rewrite IH, andb_true_r. reflexivity.
Qed.

Lemma small_engine_literal (p : string) :
  has_special p = false ->
  exists r, parse_atoms p = Ok r /\ forall s, atoms_search r s = contains_ci p s.
Proof.
  intros H. exists (map Lit (list_ascii_of_string p)).
  split; [now apply parse_atoms_plain | intros s; apply atoms_search_plain].
Qed.

Lemma small_engine_dot :
  exists r, parse_atoms "." = Ok r /\
    forall s, atoms_search r s = any_char (fun c => negb (Ascii.eqb c newline)) s.
Proof. exists [AnyChar]. split; [reflexivity | apply atoms_search_dot]. Qed.

#[export] Instance small_engine : Regex := {|
  pattern := list atom;
  re_compile := parse_atoms;
  re_search := atoms_search;
  re_literal := small_engine_literal;
  re_dot := small_engine_dot;
  re_nothing_to_repeat := fun _ => eq_refl
|}.

Lemma existsb_pointwise {A : Type} (f g : A -> bool) (l : list A) :
  (forall x, f x = g x) -> existsb f l = existsb g l.
Proof. intros H. induction l as [|x l IH]; simpl; [reflexivity|]. now rewrite H, IH. Qed.

Section Search.
Context {R : Regex}.

(** An empty term: the view as it is. *)
Lemma search_results_empty view : search_results view EmptyString = Ok view.
Proof. reflexivity. Qed.

(** A term with no special character: the records that hold it as a
    substring of one of the four cells, letter case apart; a missing cell
    holds nothing. *)
Lemma search_results_plain view term :
  has_special term = false -> nonempty term = true ->
  search_results view term = Ok (filter (matches_term term) view).
Proof.
  intros Hs Hn. unfold search_results. rewrite Hn.
  destruct (re_literal term Hs) as (r & Hc & Hr). rewrite Hc. cbn [bind].
  rewrite boolean_index_map. f_equal. apply filter_ext. intros row.
  unfold matches_term. apply existsb_pointwise. intros [s|]; simpl; [apply Hr | reflexivity].
Qed.

Lemma search_results_plain_subset view term res :
  has_special term = false ->
  search_results view term = Ok res -> Subseq res view.
Proof.
  intros Hs. destruct term as [|c term].
  - rewrite search_results_empty. intros E; inversion E; subst.
    apply Subseq_refl.
  - rewrite search_results_plain by (assumption || reflexivity).
    intros E; inversion E; subst. apply Subseq_filter.
Qed.

(** Two plain terms that differ only in letter case find the same
    records. *)
Lemma search_results_plain_case view t1 t2 :
  has_special t1 = false -> lower_string t1 = lower_string t2 ->
  search_results view t1 = search_results view t2.
Proof.
  intros Hs E.
  assert (Hs2 : has_special t2 = false)
    by (rewrite <- has_special_lower, <- E, has_special_lower; assumption).
  destruct t1 as [|c1 t1], t2 as [|c2 t2]; try discriminate E; [reflexivity|].
  rewrite !search_results_plain by (assumption || reflexivity).
  f_equal. apply filter_ext. intros row. unfold matches_term.
  apply existsb_pointwise. intros [s|]; simpl; [|reflexivity].
  now apply contains_ci_case.
Qed.

(** The term [.] is a pattern: it finds every record with a cell that
    holds any character but a newline. *)
Lemma search_results_dot view :
  search_results view "." =
  Ok (filter (fun r =>
        existsb (fun cell =>
                   match cell with
                   | Some s => any_char (fun c => negb (Ascii.eqb c newline)) s
                   | None => false
                   end) (search_cols r)) view).
Proof.
  unfold search_results. cbn [nonempty]. destruct re_dot as (r & Hc & Hr).
  rewrite Hc. cbn [bind]. rewrite boolean_index_map. f_equal.
  apply filter_ext. intros row. apply existsb_pointwise.
  intros [s|]; simpl; [apply Hr | reflexivity].
Qed.

Lemma search_results_star view p :
  search_results view (String "*" p) = Raise ReError.
Proof.
  unfold search_results. cbn [nonempty]. rewrite re_nothing_to_repeat. reflexivity.
Qed.

End Search.

(** C8 fails in the program for a term with a character that means
    something in a regular expression: the term is compiled as a pattern.
    On the three postings no searched cell holds a point, so the search for
    "." is meant to find nothing; the program returns all three.  The search
    for "*" is meant to find nothing as well; the program raises. *)
Theorem search_results_term_is_pattern {R : Regex} :
  filter (matches_term ".") (loaded fixture) = [] /\
  search_results (loaded fixture) "." = Ok (loaded fixture) /\
  filter (matches_term "*") (loaded fixture) = [] /\
  search_results (loaded fixture) "*" = Raise ReError.
Proof.
  split; [vm_compute; reflexivity|].
  split; [rewrite search_results_dot; vm_compute; reflexivity|].
  split; [vm_compute; reflexivity|].
  apply search_results_star.
Qed.

(** ** The download *)

Lemma read_plain_app stop f rest :
  any_char stop f = false ->
  match rest with
  | String c _ => stop c = true
  | EmptyString => True
  end ->
  read_plain stop (f ++ rest) = (f, rest).
Proof.
  induction f as [|a f IH]; simpl; intros Hf Hr.
  - destruct rest as [|c rest]; simpl; [reflexivity|]. rewrite Hr. reflexivity.
  - apply orb_false_iff in Hf as [Ha Hf]. rewrite Ha, (IH Hf Hr). reflexivity.
Qed.

Lemma read_quoted_app f rest :
  match rest with
  | String c _ => Ascii.eqb c double_quote = false
  | EmptyString => True
  end ->
  read_quoted (double_quotes f ++ String double_quote rest) = Some (f, rest).
Proof.
  intros Hr. induction f as [|a f IH].
  - simpl. destruct rest as [|c rest]; [reflexivity|]. rewrite Hr. reflexivity.
  - cbn [double_quotes]. destruct (Ascii.eqb a double_quote) eqn:Ea.
    + apply Ascii.eqb_eq in Ea. subst a.
      change (read_quoted (String double_quote (String double_quote
                (double_quotes f ++ String double_quote rest))) =
              Some (String double_quote f, rest)).
      cbn [read_quoted]. rewrite Ascii.eqb_refl, IH. reflexivity.
    + change (read_quoted (String a (double_quotes f ++ String double_quote rest)) =
              Some (String a f, rest)).
      cbn [read_quoted]. rewrite Ea, IH. reflexivity.
Qed.

Lemma csv_special_quote T : csv_special T double_quote = true.
Proof. unfold csv_special. rewrite Ascii.eqb_refl, orb_true_r. reflexivity. Qed.

Lemma read_field_app T f rest :
  sep_start T rest ->
  read_field T (csv_field T f ++ rest) = Some (f, rest).
Proof.
  intros Hr. unfold csv_field. destruct (any_char (csv_special T) f) eqn:Hf.
  - unfold quoted. cbn [append read_field]. rewrite Ascii.eqb_refl.
    rewrite append_assoc. cbn [append]. apply read_quoted_app.
    destruct rest as [|c rest]; [exact I | apply Hr].
  - destruct f as [|a f].
    + destruct rest as [|c rest]; [destruct Hr|]. destruct Hr as [Hc Hq].
      cbn [append read_field read_plain]. rewrite Hq, Hc. reflexivity.
    + assert (Ha : Ascii.eqb a double_quote = false).
      { destruct (Ascii.eqb a double_quote) eqn:E; [|reflexivity].
        apply Ascii.eqb_eq in E. subst a. cbn [any_char] in Hf.
        rewrite csv_special_quote in Hf. discriminate Hf. }
      cbn [append read_field]. rewrite Ha.
      change (String a (f ++ rest)) with (String a f ++ rest)%string.
      rewrite read_plain_app; [reflexivity | assumption|].
      destruct rest as [|c rest]; [exact I | apply Hr].
Qed.

Lemma strip_prefix_app p s : strip_prefix p (p ++ s) = Some s.
Proof.
  induction p as [|a p IH]; simpl; [destruct s; reflexivity|].
  rewrite Ascii.eqb_refl. assumption.
Qed.

(** The line terminators: where one starts a field has ended, and it is
    neither the delimiter nor a quote. *)
Lemma linesep_start p rest :
  exists c r,
    (os_linesep p ++ rest)%string = String c r /\
    Ascii.eqb c "," = false /\
    sep_start (os_linesep p) (os_linesep p ++ rest).
Proof.
  destruct p; simpl; eexists; eexists; (split; [reflexivity|]); split;
    try reflexivity; split; reflexivity.
Qed.

Lemma comma_start T rest : sep_start T (String "," rest).
Proof. split; reflexivity. Qed.

Lemma concat_cons2 sep x y l :
  String.concat sep (x :: y :: l) = (x ++ sep ++ String.concat sep (y :: l))%string.
Proof. reflexivity. Qed.

Lemma read_record_body p fields rest fuel :
  fields <> [] -> List.length fields <= fuel ->
  read_record (os_linesep p) fuel (row_body (os_linesep p) fields ++ rest) =
  Some (fields, rest).
Proof.
  set (T := os_linesep p). revert fuel.
  induction fields as [|f fields IH]; intros fuel Hne Hlen; [congruence|].
  destruct fuel as [|fuel]; [simpl in Hlen; lia|].
  destruct fields as [|g fields].
  - unfold row_body. cbn [map String.concat]. rewrite append_assoc.
    destruct (linesep_start p rest) as (c & r & E & Hc & Hs). fold T in E, Hs.
    cbn [read_record]. rewrite (read_field_app T f _ Hs).
    rewrite E, Hc, <- E, strip_prefix_app. reflexivity.
  - unfold row_body. cbn [map]. rewrite concat_cons2, !append_assoc.
    cbn [append]. cbn [read_record].
    rewrite (read_field_app T f _ (comma_start T _)).
    rewrite Ascii.eqb_refl.
    change (String.concat "," (csv_field T g :: map (csv_field T) fields)
            ++ T ++ rest)%string
      with (String.concat "," (map (csv_field T) (g :: fields)) ++ T ++ rest)%string.
    rewrite <- append_assoc. fold (row_body T (g :: fields)).
    rewrite IH; [reflexivity | discriminate | simpl in *; lia].
Qed.

Lemma read_record_writerow p fields rest fuel :
  fields <> [] -> List.length fields <= fuel ->
  read_record (os_linesep p) fuel (writerow (os_linesep p) fields ++ rest) =
  Some (fields, rest).
Proof.
  intros Hne Hlen.
  destruct fields as [|f [|g fields]]; [congruence| |].
  - destruct f as [|a f].
    + destruct fuel as [|fuel]; [simpl in Hlen; lia|].
      destruct p; simpl; destruct rest; reflexivity.
    + apply (read_record_body p [String a f] rest fuel); assumption.
  - destruct f as [|a f].
    + apply (read_record_body p (EmptyString :: g :: fields) rest fuel); assumption.
    + apply (read_record_body p (String a f :: g :: fields) rest fuel); assumption.
Qed.

Lemma concat_fields_length l :
  List.length l <= S (String.length (String.concat "," l)).
Proof.
  induction l as [|x [|y l] IH]; [simpl; lia | simpl; lia|].
  rewrite concat_cons2, !length_append. simpl List.length in *.
  change (String.length ",") with 1. lia.
Qed.

Lemma os_linesep_length p : 1 <= String.length (os_linesep p).
Proof. destruct p; simpl; lia. Qed.

Lemma writerow_length p fields :
  List.length fields <= String.length (writerow (os_linesep p) fields) /\
  1 <= String.length (writerow (os_linesep p) fields).
Proof.
  pose proof (os_linesep_length p) as HT.
  assert (Hb : List.length fields <= String.length (row_body (os_linesep p) fields) /\
               1 <= String.length (row_body (os_linesep p) fields)).
  { unfold row_body. rewrite length_append.
    pose proof (concat_fields_length (map (csv_field (os_linesep p)) fields)) as H.
    rewrite length_map in H. lia. }
  destruct fields as [|f [|g fields]]; try exact Hb;
    destruct f; try exact Hb.
  unfold writerow. rewrite length_append. simpl. lia.
Qed.

Lemma concat_empty_cons x l :
  String.concat EmptyString (x :: l) = (x ++ String.concat EmptyString l)%string.
Proof. destruct l; simpl; [now rewrite append_nil_r | reflexivity]. Qed.

Lemma read_records_text p rows fuel :
  Forall (fun r => r <> []) rows -> List.length rows < fuel ->
  read_records (os_linesep p) fuel
    (String.concat EmptyString (map (writerow (os_linesep p)) rows)) = Some rows.
Proof.
  intros Hrows. revert fuel.
  induction Hrows as [|r rows Hr _ IH]; intros fuel Hlen.
  - destruct fuel; [lia | reflexivity].
  - destruct fuel as [|fuel]; [lia|].
    cbn [map]. rewrite concat_empty_cons.
    destruct (writerow_length p r) as [Hfields Hone].
    set (rest := String.concat EmptyString (map (writerow (os_linesep p)) rows)) in *.
    destruct (writerow (os_linesep p) r ++ rest)%string as [|c s] eqn:E.
    { apply (f_equal String.length) in E. rewrite length_append in E. simpl in E. lia. }
    cbn [read_records]. rewrite <- E.
    rewrite (read_record_writerow p r rest) by
      (try assumption; rewrite length_append; lia).
    rewrite IH by (simpl in Hlen; lia). reflexivity.
Qed.

Lemma records_text_length p rows :
  List.length rows <=
  String.length (String.concat EmptyString (map (writerow (os_linesep p)) rows)).
Proof.
  induction rows as [|r rows IH]; [simpl; lia|].
  cbn [map]. rewrite concat_empty_cons, length_append.
  destruct (writerow_length p r) as [_ H]. simpl List.length. lia.
Qed.

(** Reading back what the writer wrote gives the records written. *)
Lemma read_csv_records p rows :
  Forall (fun r => r <> []) rows ->
  read_csv (os_linesep p)
    (String.concat EmptyString (map (writerow (os_linesep p)) rows)) = Some rows.
Proof.
  intros H. unfold read_csv. apply read_records_text; [assumption|].
  pose proof (records_text_length p rows). lia.
Qed.

Lemma to_csv_records {F : Formatter} (df : list Row) :
  to_csv df =
  String.concat EmptyString
    (map (writerow (os_linesep os)) (all_columns :: map cells df)).
Proof.
  unfold to_csv. cbn [map]. rewrite concat_empty_cons, map_map. reflexivity.
Qed.

Lemma to_csv_read {F : Formatter} (df : list Row) :
  read_csv (os_linesep os) (to_csv df) = Some (all_columns :: map cells df).
Proof.
  rewrite to_csv_records. apply read_csv_records.
  constructor; [discriminate|]. apply Forall_forall. intros r Hr.
  apply in_map_iff in Hr as (x & <- & _). discriminate.
Qed.

Lemma cells_written {F : Formatter} (r : Row) : written_from r (cells r).
Proof. unfold written_from. cbv zeta. repeat split; reflexivity. Qed.

Lemma fmt_number_missing {F : Formatter} (x : option Q) :
  fmt_number x = EmptyString <-> x = None.
Proof.
  destruct x as [q|]; simpl; split; try reflexivity; try discriminate.
  intros H. now apply fmt_float_written in H.
Qed.

(** C9, as the program has it.  The download is the search result written
    as comma-separated text: a header record, then one record per row of
    the search result, in its order, every record with one field for every
    column of the table (the 14 columns read and the 7 columns added by the
    load), not for a subset of them.  Reading the text back gives the column
    names and, record by record, the values of the postings: under every
    column name the value of that column, text as it is (commas, quotes and
    line ends included), a missing value as the empty field and nothing else
    as the empty field.  When the search raises there is no download. *)
Theorem csv_spec {R : Regex} {F : Formatter} (filtered : list Row) (term : string) :
  (forall results, search_results filtered term = Ok results ->
     csv filtered term = Ok (to_csv results)) /\
  (forall e, search_results filtered term = Raise e -> csv filtered term = Raise e) /\
  (forall df,
     read_csv (os_linesep os) (to_csv df) = Some (all_columns :: map cells df) /\
     (exists records,
        to_csv df = (String.concat "," all_columns ++ os_linesep os ++ records)%string) /\
     Forall (fun r => List.length (cells r) = List.length all_columns) df) /\
  (forall df,
     exists records,
       read_csv (os_linesep os) (to_csv df) = Some (all_columns :: records) /\
       Forall2 written_from df records) /\
  (forall x, fmt_number x = EmptyString <-> x = None) /\
  List.length all_columns = 21 /\
  NoDup all_columns /\
  incl display_columns all_columns /\
  ~ incl all_columns display_columns.
Proof.
  split; [intros results H; unfold csv; rewrite H; reflexivity|].
  split; [intros e H; unfold csv; rewrite H; reflexivity|].
  split.
  { intros df. split; [apply to_csv_read|]. split.
    - eexists. unfold to_csv.
      assert (E : writerow (os_linesep os) all_columns =
                  (String.concat "," all_columns ++ os_linesep os)%string)
        by (destruct os; reflexivity).
      rewrite E, append_assoc. reflexivity.
    - apply Forall_forall. intros r _. reflexivity. }
  split.
  { intros df. exists (map cells df). split; [apply to_csv_read|].
    induction df as [|r df IH]; constructor; [apply cells_written | assumption]. }
  split; [apply fmt_number_missing|].
  split; [reflexivity|].
  split.
  { unfold all_columns.
    repeat (constructor; [simpl; intros H; repeat (destruct H as [H|H]; [discriminate H|]); exact H|]).
    constructor. }
  split.
  - intros c Hc. simpl in Hc. simpl.
    repeat (destruct Hc as [<-|Hc]; [tauto|]). destruct Hc.
  - intros H. specialize (H "Job ID" (or_introl eq_refl)). simpl in H.
    repeat (destruct H as [H|H]; [discriminate H|]). exact H.
Qed.

(** C9 as written fails: the download is not restricted to a subset of the
    columns.  With an empty search term the three postings are written with
    all 21 columns, Job ID and Skills_List among them, which the table on
    the page does not show; the first record holds the 21 values of the
    first posting. *)
Lemma csv_all_columns :
  exists text header records,
    csv (loaded fixture) EmptyString = Ok text /\
    read_csv (os_linesep Posix) text = Some (header :: records) /\
    header = all_columns /\
    List.length records = 3 /\
    List.length header = 21 /\
    List.length display_columns = 9 /\
    In "Job ID" header /\ ~ In "Job ID" display_columns /\
    In "Skills_List" header /\ ~ In "Skills_List" display_columns /\
    nth_error records 0 =
      Some ["1"; "Data Analyst"; "Acme"; "Mumbai"; "Remote"; "Small";
            "6-10 LPA"; "2-5 years"; "Python, SQL"; "2024-01-05"; "2024-01-05";
            "Remote"; "B.Tech"; "10"; "6.0"; "10.0"; "8.0"; "3.5"; "2024-01-05";
            "2024-01-05"; "['Python', ' SQL']"].
Proof.
  eexists. exists all_columns. eexists.
  split; [reflexivity|].
  split; [apply (to_csv_read (F := posix_formatter))|].
  split; [reflexivity|]. split; [reflexivity|]. split; [reflexivity|].
  split; [reflexivity|].
  split; [simpl; tauto|].
  split; [simpl; intros H; repeat (destruct H as [H|H]; [discriminate H|]); exact H|].
  split; [simpl; tauto|].
  split; [simpl; intros H; repeat (destruct H as [H|H]; [discriminate H|]); exact H|].
  vm_compute. reflexivity.
Qed.

Example to_csv_first_line :
  first_line (to_csv (loaded fixture)) =
  "Job ID,Job Title,Company Name,Job Location,Job Type,Company Size,Salary Range,Experience Required,Skills Required,Posted Date,Application Deadline,Remote/Onsite,Education Requirement,Number of Applicants,min_salary,max_salary,avg_salary,Experience_Years,Posted_Date,Application_Deadline,Skills_List".
Proof. vm_compute. reflexivity. Qed.

(** * Further properties of the program *)

(** ** The parsers: sign and shape of what they return *)

Lemma digit_value_nonneg c : is_digit c = true -> (0 <= digit_value c)%Z.
Proof.
  unfold is_digit, digit_value. intros H.
  apply andb_true_iff in H as [H _]. apply Nat.leb_le in H. lia.
Qed.

Lemma int_of_digits_nonneg s acc :
  all_digits s = true -> (0 <= acc)%Z -> (0 <= int_of_digits acc s)%Z.
Proof.
  revert acc. induction s as [|c s IH]; cbn [int_of_digits all_digits];
    intros acc H Hacc; [assumption|].
  apply andb_true_iff in H as [Hc Hs]. apply IH; [assumption|].
  pose proof (digit_value_nonneg c Hc). lia.
Qed.

Lemma Qmake_nonneg n d : (0 <= n)%Z -> (0 <= Qmake n d)%Q.
Proof. intros H. unfold Qle. simpl. lia. Qed.

Lemma Qred_nonneg q : (0 <= q)%Q -> (0 <= Qred q)%Q.
Proof. intros H. pose proof (Qred_correct q) as E. lra. Qed.

(** A decimal literal has no sign: what [float] reads from one is not
    negative. *)
Lemma float_nonneg t q : float t = Some q -> (0 <= q)%Q.
Proof.
  unfold float. destruct (split_point t) as [i [f|]].
  - destruct (all_digits i && all_digits f
              && negb ((i =? EmptyString) && (f =? EmptyString))%string) eqn:E;
      [|discriminate].
    apply andb_true_iff in E as [E _]. apply andb_true_iff in E as [Hi Hf].
    set (n := int_of_digits (int_of_digits 0 i) f).
    assert (Hn : (0 <= n)%Z).
    { apply int_of_digits_nonneg; [assumption|].
      apply int_of_digits_nonneg; [assumption | lia]. }
    generalize (pow10 (String.length f)). clearbody n. intros d H.
    assert (E : q = Qred (Qmake n d)) by congruence.
    rewrite E. apply Qred_nonneg, Qmake_nonneg, Hn.
  - destruct (all_digits i && negb (i =? EmptyString)%string) eqn:E; [|discriminate].
    apply andb_true_iff in E as [Hi _].
    assert (Hn : (0 <= int_of_digits 0 i)%Z)
      by (apply int_of_digits_nonneg; [assumption | lia]).
    generalize dependent (int_of_digits 0 i). intros n Hn H.
    assert (E : q = inject_Z n) by congruence.
    rewrite E. apply Qmake_nonneg, Hn.
Qed.

Lemma mean2_half x y : (mean2 x y == (x + y) * (1 # 2))%Q.
Proof. unfold mean2. apply Qred_correct. Qed.

Lemma mean2_between x y :
  ((x <= y -> x <= mean2 x y <= y) /\ (y <= x -> y <= mean2 x y <= x))%Q.
Proof.
  pose proof (mean2_half x y) as H. split; intros Hle; split; lra.
Qed.

Lemma mean2_nonneg x y : (0 <= x -> 0 <= y -> 0 <= mean2 x y)%Q.
Proof. intros Hx Hy. pose proof (mean2_half x y) as H. lra. Qed.

Lemma digit_value_le c : is_digit c = true -> (digit_value c <= 9)%Z.
Proof.
  unfold is_digit, digit_value. intros H.
  apply andb_true_iff in H as [_ H]. apply Nat.leb_le in H. lia.
Qed.

Lemma int_of_digits_below s acc :
  all_digits s = true -> (0 <= acc)%Z ->
  (int_of_digits acc s < (acc + 1) * 10 ^ Z.of_nat (String.length s))%Z.
Proof.
  revert acc. induction s as [|c s IH]; cbn [int_of_digits all_digits String.length];
    intros acc H Hacc; [simpl; lia|].
  apply andb_true_iff in H as [Hc Hs].
  pose proof (digit_value_nonneg c Hc). pose proof (digit_value_le c Hc).
  specialize (IH (10 * acc + digit_value c)%Z Hs ltac:(lia)).
  rewrite Nat2Z.inj_succ, Z.pow_succ_r by lia.
  assert (P : (0 < 10 ^ Z.of_nat (String.length s))%Z) by (apply Z.pow_pos_nonneg; lia).
  nia.
Qed.

(** A literal of [n] characters stands for a number below the [n]th power
    of ten. *)
Lemma float_below t q :
  float t = Some q -> (q < inject_Z (10 ^ Z.of_nat (String.length t)))%Q.
Proof.
  unfold float. destruct (split_point t) as [i [f|]] eqn:S;
    apply split_point_spec in S; subst t.
  - destruct (all_digits i && all_digits f
              && negb ((i =? EmptyString) && (f =? EmptyString))%string) eqn:E;
      [|discriminate].
    apply andb_true_iff in E as [E _]. apply andb_true_iff in E as [Hi Hf].
    pose proof (int_of_digits_nonneg i 0 Hi ltac:(lia)) as Hn0.
    pose proof (int_of_digits_below i 0 Hi ltac:(lia)) as Hn.
    pose proof (int_of_digits_below f _ Hf Hn0) as Hm.
    rewrite length_append. cbn [String.length].
    set (n := int_of_digits 0 i) in *.
    set (m := int_of_digits n f) in *.
    pose proof (pow10_pow (String.length f)) as P.
    set (p := pow10 (String.length f)) in *. clearbody n m p.
    intros H. assert (Eq : q = Qred (Qmake m p)) by congruence.
    rewrite Eq, Qred_correct. unfold Qlt, inject_Z. cbn [Qnum Qden].
    rewrite Nat2Z.inj_add, Nat2Z.inj_succ, Z.pow_add_r, Z.pow_succ_r by lia.
    rewrite P. clear P.
    assert (Pi : (0 < 10 ^ Z.of_nat (String.length i))%Z) by (apply Z.pow_pos_nonneg; lia).
    assert (Pf : (0 < 10 ^ Z.of_nat (String.length f))%Z) by (apply Z.pow_pos_nonneg; lia).
    nia.
  - destruct (all_digits i && negb (i =? EmptyString)%string) eqn:E; [|discriminate].
    apply andb_true_iff in E as [Hi _].
    pose proof (int_of_digits_below i 0 Hi ltac:(lia)) as Hn.
    generalize dependent (int_of_digits 0 i). intros n Hn H.
    assert (Eq : q = inject_Z n) by congruence.
    rewrite Eq. rewrite <- Zlt_Qlt. lia.
Qed.

(** A literal the scan finds is a piece of the text. *)
Lemma Scan_lengths s toks :
  Scan s toks -> Forall (fun t => String.length t <= String.length s) toks.
Proof.
  induction 1 as [g Hg | g t rest toks Hg Ht Hm Hs IH]; constructor.
  - rewrite !length_append. lia.
  - eapply Forall_impl; [|exact IH]. intros a Ha. cbn beta in *.
    rewrite !length_append. lia.
Qed.

Lemma pow10_mono (a b : nat) :
  a <= b -> (inject_Z (10 ^ Z.of_nat a) <= inject_Z (10 ^ Z.of_nat b))%Q.
Proof.
  intros H. rewrite <- Zle_Qle. apply Z.pow_le_mono_r; lia.
Qed.

(** X1.  For every cell, whatever its type, [process_salary] returns (it
    never raises), and its three fields are all absent or all present; when
    present, min and max are not negative (a sign in the text is not read).
    When the text of the cell has at most 300 characters, min, max and avg
    are below the 300th power of ten, well inside the range of a float, and
    avg lies between min and max. *)
Theorem process_salary_shape (v : pyval) :
  exists info,
    process_salary v = Ok info /\
    ((min_salary info = None /\ max_salary info = None /\ avg_salary info = None) \/
     (exists x y m,
        min_salary info = Some x /\ max_salary info = Some y /\
        avg_salary info = Some m /\
        (0 <= x /\ 0 <= y /\ 0 <= m)%Q /\
        (String.length (str v) <= 300 ->
         (x < inject_Z (10 ^ 300) /\ y < inject_Z (10 ^ 300) /\
          m < inject_Z (10 ^ 300))%Q /\
         (x <= y -> x <= m <= y)%Q /\
         (y <= x -> y <= m <= x)%Q))).
Proof.
  destruct (findall (str v)) as [|a [|b rest]] eqn:E.
  - exists no_salary. split; [|left; auto].
    apply process_salary_short. rewrite E. simpl. lia.
  - exists no_salary. split; [|left; auto].
    apply process_salary_short. rewrite E. simpl. lia.
  - destruct (process_salary_two v a b rest E) as (x & y & Hx & Hy & H).
    eexists. split; [exact H|]. right. exists x, y, (mean2 x y).
    cbn [min_salary max_salary avg_salary].
    pose proof (float_nonneg _ _ Hx) as Hx0. pose proof (float_nonneg _ _ Hy) as Hy0.
    destruct (mean2_between x y) as [H1 H2].
    split; [reflexivity|]. split; [reflexivity|]. split; [reflexivity|].
    split; [repeat split; try assumption; now apply mean2_nonneg|].
    intros Hlen.
    pose proof (Scan_lengths _ _ (findall_Scan (str v))) as L. rewrite E in L.
    inversion L as [|? ? La L']; subst. inversion L' as [|? ? Lb _]; subst.
    cbn beta in La, Lb.
    assert (Bx : (x < inject_Z (10 ^ 300))%Q).
    { eapply Qlt_le_trans; [apply (float_below _ _ Hx)|].
      apply (pow10_mono _ 300). eapply Nat.le_trans; eassumption. }
    assert (By : (y < inject_Z (10 ^ 300))%Q).
    { eapply Qlt_le_trans; [apply (float_below _ _ Hy)|].
      apply (pow10_mono _ 300). eapply Nat.le_trans; eassumption. }
    split; [|split; assumption].
    split; [assumption|]. split; [assumption|].
    pose proof (mean2_half x y) as Hm. set (B := inject_Z (10 ^ 300)) in *.
    clearbody B. lra.
Qed.

Example process_salary_sign_lost :
  process_salary (PStr "-5 to -3") =
    Ok {| min_salary := Some 5%Q; max_salary := Some 3%Q; avg_salary := Some 4%Q |}.
Proof. reflexivity. Qed.

(** X2.  [process_experience] agrees with [process_salary] on every cell
    where the latter finds a range: the experience is the avg of the salary
    reading of the same cell.  What it returns is never negative, and it is
    absent exactly when the text of the cell holds no digit. *)
Theorem process_experience_agrees (v : pyval) :
  exists e,
    process_experience v = Ok e /\
    (forall q, e = Some q -> (0 <= q)%Q) /\
    (forall info m, process_salary v = Ok info -> avg_salary info = Some m ->
       e = Some m) /\
    (e = None <-> no_digit (str v) = true).
Proof.
  destruct (findall (str v)) as [|a [|b rest]] eqn:E.
  - exists None. split; [now apply process_experience_none|].
    split; [discriminate|]. split.
    + intros info m Hp Hm.
      rewrite process_salary_short in Hp by (rewrite E; simpl; lia).
      inversion Hp; subst. discriminate Hm.
    + split; [intros _|reflexivity].
      pose proof (findall_Scan (str v)) as S. rewrite E in S. now inversion S.
  - destruct (process_experience_one v a E) as (x & Hx & H).
    exists (Some x). split; [assumption|].
    split; [intros q Hq; inversion Hq; subst; eapply float_nonneg; eassumption|].
    split.
    + intros info m Hp Hm.
      rewrite process_salary_short in Hp by (rewrite E; simpl; lia).
      inversion Hp; subst. discriminate Hm.
    + split; [discriminate|]. intros Hn.
      rewrite (findall_no_digit _ Hn) in E. discriminate E.
  - destruct (process_experience_two v a b rest E) as (x & y & Hx & Hy & H).
    exists (Some (mean2 x y)). split; [assumption|].
    split.
    { intros q Hq; inversion Hq; subst. apply mean2_nonneg; eapply float_nonneg; eassumption. }
    split.
    + intros info m Hp Hm.
      destruct (process_salary_two v a b rest E) as (x' & y' & Hx' & Hy' & Hp').
      rewrite Hp' in Hp. inversion Hp; subst. simpl in Hm.
      rewrite Hx in Hx'. rewrite Hy in Hy'. inversion Hx'; inversion Hy'; subst.
      exact Hm.
    + split; [discriminate|]. intros Hn.
      rewrite (findall_no_digit _ Hn) in E. discriminate E.
Qed.

(** ** The loader: when it fails, and what it keeps *)

Lemma mapM_length {A B : Type} (f : A -> result B) (l : list A) (l' : list B) :
  mapM f l = Ok l' -> List.length l' = List.length l.
Proof.
  intros H. apply mapM_Forall2 in H. induction H; simpl; congruence.
Qed.

Lemma add_columns_columns csv sal exp posted deadline :
  List.length sal = List.length csv ->
  List.length exp = List.length csv ->
  List.length posted = List.length csv ->
  List.length deadline = List.length csv ->
  map raw (add_columns csv sal exp posted deadline) = csv /\
  map Posted_Date (add_columns csv sal exp posted deadline) = posted /\
  map Application_Deadline (add_columns csv sal exp posted deadline) = deadline.
Proof.
  revert sal exp posted deadline.
  induction csv as [|r csv IH]; intros sal exp posted deadline Hs He Hp Hd.
  - destruct posted; [|discriminate]. destruct deadline; [|discriminate].
    repeat split.
  - destruct sal as [|s sal]; [discriminate|].
    destruct exp as [|e exp]; [discriminate|].
    destruct posted as [|p posted]; [discriminate|].
    destruct deadline as [|d deadline]; [discriminate|].
    simpl in Hs, He, Hp, Hd.
    destruct (IH sal exp posted deadline) as (H1 & H2 & H3); try congruence.
    cbn [add_columns map Posted_Date Application_Deadline raw].
    rewrite H1, H2, H3. repeat split.
Qed.

(** The accessor fails on a column that has records and no text. *)
Lemma str_accessor_spec (col : list text_cell) :
  ((col = [] \/ exists c, In c col /\ c <> None) -> str_accessor col = Ok col) /\
  (col <> [] -> Forall (fun c => c = None) col ->
   str_accessor col = Raise AttributeError) /\
  ((col = [] \/ exists c, In c col /\ c <> None) \/
   (col <> [] /\ Forall (fun c => c = None) col)).
Proof.
  assert (D : existsb notna col = true /\ (exists c, In c col /\ c <> None) \/
              existsb notna col = false /\ Forall (fun c => c = None) col).
  { induction col as [|c col IH]; [right; split; [reflexivity | constructor]|].
    destruct c as [s|].
    - left. split; [reflexivity|]. exists (Some s). split; [now left | discriminate].
    - destruct IH as [[E (c & Hc & Hn)]|[E F]].
      + left. split; [exact E|]. exists c. split; [now right | assumption].
      + right. split; [exact E | constructor; [reflexivity | assumption]]. }
  destruct col as [|c0 col]; [repeat split; auto; intros H; contradiction|].
  unfold str_accessor. destruct D as [[E Hex]|[E F]]; rewrite E.
  - split; [reflexivity|]. split; [|left; right; assumption].
    intros _ F. destruct Hex as (c & Hc & Hn). rewrite Forall_forall in F.
    elim Hn. now apply F.
  - split; [|split; [reflexivity | right; split; [discriminate | assumption]]].
    intros [H|(c & Hc & Hn)]; [discriminate H|].
    rewrite Forall_forall in F. elim Hn. now apply F.
Qed.

Lemma skills_column (csv : list RawRow) :
  ((csv = [] \/ exists r, In r csv /\ Skills_Required r <> None) ->
   str_accessor (map Skills_Required csv) = Ok (map Skills_Required csv)) /\
  (csv <> [] -> Forall (fun r => Skills_Required r = None) csv ->
   str_accessor (map Skills_Required csv) = Raise AttributeError) /\
  ((csv = [] \/ exists r, In r csv /\ Skills_Required r <> None) \/
   (csv <> [] /\ Forall (fun r => Skills_Required r = None) csv)).
Proof.
  destruct (str_accessor_spec (map Skills_Required csv)) as (Hok & Hbad & D).
  assert (Some_iff : (exists c, In c (map Skills_Required csv) /\ c <> None) <->
                     (exists r, In r csv /\ Skills_Required r <> None)).
  { split.
    - intros (c & Hc & Hn). apply in_map_iff in Hc as (r & <- & Hr). eauto.
    - intros (r & Hr & Hn). exists (Skills_Required r). split; [now apply in_map | assumption]. }
  assert (Nil_iff : map Skills_Required csv = [] <-> csv = []).
  { destruct csv; split; (reflexivity || discriminate). }
  split; [|split].
  - intros [H|H]; apply Hok; [left; now apply Nil_iff | right; now apply Some_iff].
  - intros Hne F. apply Hbad; [now rewrite Nil_iff | now apply Forall_map].
  - destruct D as [[H|H]|[Hne F]].
    + left; left. now apply Nil_iff.
    + left; right. now apply Some_iff.
    + right. split; [now rewrite <- Nil_iff | now apply Forall_map in F].
Qed.

(** X3.  [load_data] fails on the dates and on a skills column without any
    text, and on nothing else.  When one of the date columns does not parse
    it raises ValueError.  When both parse and the table has records none of
    which has a skills cell, it raises AttributeError (the column is read as
    numbers, which have no [.str]).  Otherwise it returns one record per
    record read, in order, the records read unchanged and the parsed dates
    beside them; the salary and experience texts never make it fail. *)
Theorem load_data_outcome {DP : DateParser} (csv : list RawRow) :
  (forall posted deadline,
     to_datetime (map Posted_Date_text csv) = Some posted ->
     to_datetime (map Application_Deadline_text csv) = Some deadline ->
     (csv = [] \/ exists r, In r csv /\ Skills_Required r <> None) ->
     exists df,
       load_data csv = Ok df /\
       map raw df = csv /\
       List.length df = List.length csv /\
       map Posted_Date df = posted /\
       map Application_Deadline df = deadline) /\
  (to_datetime (map Posted_Date_text csv) = None \/
   to_datetime (map Application_Deadline_text csv) = None ->
   load_data csv = Raise ValueError) /\
  (forall posted deadline,
     to_datetime (map Posted_Date_text csv) = Some posted ->
     to_datetime (map Application_Deadline_text csv) = Some deadline ->
     csv <> [] -> Forall (fun r => Skills_Required r = None) csv ->
     load_data csv = Raise AttributeError) /\
  (forall df, load_data csv = Ok df ->
     (exists posted deadline,
        to_datetime (map Posted_Date_text csv) = Some posted /\
        to_datetime (map Application_Deadline_text csv) = Some deadline) /\
     (csv = [] \/ exists r, In r csv /\ Skills_Required r <> None)) /\
  (forall e, load_data csv = Raise e -> e = ValueError \/ e = AttributeError).
Proof.
  destruct (mapM_total process_salary (map Salary_Range csv)) as [sal Hs].
  { apply Forall_forall. intros v _. apply process_salary_total. }
  destruct (mapM_total process_experience (map Experience_Required csv)) as [exp He].
  { apply Forall_forall. intros v _. apply process_experience_total. }
  pose proof (mapM_length _ _ _ Hs) as Ls. pose proof (mapM_length _ _ _ He) as Le.
  rewrite length_map in Ls, Le.
  destruct (skills_column csv) as (Hok & Hbad & D).
  unfold load_data, parse_dates. rewrite Hs, He. cbn [bind].
  split; [|split; [|split; [|split]]].
  - intros posted deadline Hp Hd Hk. rewrite Hp, Hd. cbn [bind].
    rewrite (Hok Hk). cbn [bind].
    pose proof (to_datetime_length _ _ Hp) as Lp.
    pose proof (to_datetime_length _ _ Hd) as Ld.
    rewrite length_map in Lp, Ld.
    destruct (add_columns_columns csv sal exp posted deadline Ls Le Lp Ld)
      as (H1 & H2 & H3).
    eexists. split; [reflexivity|]. repeat split; try assumption.
    rewrite <- H1 at 2. now rewrite length_map.
  - intros [Hn|Hn].
    + rewrite Hn. reflexivity.
    + rewrite Hn. destruct (to_datetime (map Posted_Date_text csv)); reflexivity.
  - intros posted deadline Hp Hd Hne F. rewrite Hp, Hd. cbn [bind].
    rewrite (Hbad Hne F). reflexivity.
  - intros df H.
    destruct (to_datetime (map Posted_Date_text csv)) as [p|]; [|discriminate].
    destruct (to_datetime (map Application_Deadline_text csv)) as [d|]; [|discriminate].
    cbn [bind] in H. split; [eauto|].
    destruct D as [Hk|[Hne F]]; [assumption|].
    rewrite (Hbad Hne F) in H. discriminate.
  - intros e H.
    destruct (to_datetime (map Posted_Date_text csv)) as [p|];
      [|left; cbn [bind] in H; congruence].
    destruct (to_datetime (map Application_Deadline_text csv)) as [d|];
      [|left; cbn [bind] in H; congruence].
    cbn [bind] in H. destruct D as [Hk|[Hne F]].
    + rewrite (Hok Hk) in H. discriminate.
    + rewrite (Hbad Hne F) in H. right. cbn [bind] in H. congruence.
Qed.

Example load_data_bad_date :
  load_data [posting 1 "Analyst" "Acme" "Pune" "Onsite" "Small"
               "6-10 LPA" "1 year" "SQL" "yesterday"] = Raise ValueError.
Proof. reflexivity. Qed.

(** ** The filter: widening and narrowing *)

Lemma filter_filter_implied {A : Type} (p q : A -> bool) (l : list A) :
  (forall x, p x = true -> q x = true) ->
  filter p (filter q l) = filter p l.
Proof.
  intros H. induction l as [|x l IH]; simpl; [reflexivity|].
  destruct (q x) eqn:Eq; simpl.
  - destruct (p x); rewrite IH; reflexivity.
  - destruct (p x) eqn:Ep; [|assumption]. apply H in Ep. congruence.
Qed.

Lemma Subseq_filter_implied {A : Type} (p q : A -> bool) (l : list A) :
  (forall x, p x = true -> q x = true) ->
  Subseq (filter p l) (filter q l).
Proof.
  intros H. rewrite <- (filter_filter_implied p q l H). apply Subseq_filter.
Qed.

Lemma isin_incl cell l l' : incl l l' -> isin cell l = true -> isin cell l' = true.
Proof.
  intros Hi H. apply isin_spec in H as (s & E & Hs). apply isin_spec.
  exists s. auto.
Qed.

Lemma mask_row_wider lower upper locs sizes types lower' upper' locs' sizes' types' r :
  (lower' <= lower)%Z -> (upper <= upper')%Z ->
  incl locs locs' -> incl sizes sizes' -> incl types types' ->
  mask_row lower upper locs sizes types r = true ->
  mask_row lower' upper' locs' sizes' types' r = true.
Proof.
  intros Hl Hu Hlocs Hsizes Htypes. unfold mask_row.
  rewrite !andb_true_iff, !Z.leb_le. intros ((((H1 & H2) & H3) & H4) & H5).
  repeat split; try lia; eapply isin_incl; eassumption.
Qed.

(** X4.  Widening the criteria (an earlier lower date, a later upper date,
    more locations, sizes or types selected) only adds records: the narrower
    view is the wider view with records left out; filtering the wider view
    with the narrower criteria gives the narrower view, and filtering a view
    again with its own criteria changes nothing. *)
Theorem filtered_df_widen (df : list Row) (lower upper lower' upper' : date)
    (locs sizes types locs' sizes' types' : list string) :
  (lower' <= lower)%Z -> (upper <= upper')%Z ->
  incl locs locs' -> incl sizes sizes' -> incl types types' ->
  exists narrow wide,
    filtered_df df [lower; upper] locs sizes types = Ok narrow /\
    filtered_df df [lower'; upper'] locs' sizes' types' = Ok wide /\
    Subseq narrow wide /\
    filtered_df wide [lower; upper] locs sizes types = Ok narrow /\
    filtered_df narrow [lower; upper] locs sizes types = Ok narrow.
Proof.
  intros Hl Hu Hlocs Hsizes Htypes.
  exists (filter (mask_row lower upper locs sizes types) df),
         (filter (mask_row lower' upper' locs' sizes' types') df).
  rewrite !filtered_df_filter.
  assert (Himp : forall r, mask_row lower upper locs sizes types r = true ->
                           mask_row lower' upper' locs' sizes' types' r = true)
    by (intros r; now apply mask_row_wider).
  split; [reflexivity|]. split; [reflexivity|].
  split; [now apply Subseq_filter_implied|].
  split; f_equal.
  - now apply filter_filter_implied.
  - apply filter_filter_implied. auto.
Qed.

Lemma filtered_df_widen_witness :
  exists narrow wide,
    filtered_df (loaded fixture) [738891%Z; 738892%Z]
      ["Mumbai"] ["Small"] ["Remote"] = Ok narrow /\
    filtered_df (loaded fixture) [738886%Z; 739251%Z]
      ["Mumbai"; "Delhi"] ["Small"; "Large"] ["Remote"; "Onsite"] = Ok wide /\
    Subseq narrow wide /\
    filtered_df wide [738891%Z; 738892%Z] ["Mumbai"] ["Small"] ["Remote"] = Ok narrow /\
    filtered_df narrow [738891%Z; 738892%Z] ["Mumbai"] ["Small"] ["Remote"] = Ok narrow.
Proof.
  apply filtered_df_widen; try lia;
    intros x Hx; simpl in *; tauto.
Defined.

(** ** Key metrics *)

Lemma boolean_index_negb {A : Type} (p : A -> bool) (df : list A) :
  boolean_index df (map negb (map p df)) = filter (fun x => negb (p x)) df.
Proof. rewrite map_map. apply (boolean_index_map (fun x => negb (p x))). Qed.

Lemma filter_partition_length {A : Type} (p : A -> bool) (l : list A) :
  List.length (filter p l) + List.length (filter (fun x => negb (p x)) l)
  = List.length l.
Proof.
  induction l as [|x l IH]; simpl; [reflexivity|].
  destruct (p x); simpl; lia.
Qed.

Lemma filter_all_length {A : Type} (p : A -> bool) (l : list A) :
  List.length (filter p l) = List.length l -> filter p l = l.
Proof.
  induction l as [|x l IH]; simpl; [reflexivity|].
  destruct (p x); simpl; intros H.
  - f_equal. apply IH. lia.
  - pose proof (filter_length_le p l). lia.
Qed.

(** X5.  The mask and its negation split the table: the records kept and
    the records left out add up to the table.  So the change shown under
    "Total Jobs", kept minus left out, is twice the number kept minus the
    size of the table: it is positive only when more than half of the table
    is kept, and it equals the number kept only when nothing is left out. *)
Theorem total_jobs_split (df : list Row) (lower upper : date)
    (locs sizes types : list string) :
  exists m filtered,
    mask df [lower; upper] locs sizes types = Ok m /\
    filtered_df df [lower; upper] locs sizes types = Ok filtered /\
    total_jobs (metrics df m) = List.length filtered /\
    List.length filtered + List.length (boolean_index df (map negb m))
      = List.length df /\
    total_jobs_change (metrics df m)
      = (2 * Z.of_nat (List.length filtered) - Z.of_nat (List.length df))%Z /\
    ((0 < total_jobs_change (metrics df m))%Z <->
       List.length df < 2 * List.length filtered) /\
    (total_jobs_change (metrics df m) = Z.of_nat (List.length filtered) <->
       filtered = df).
Proof.
  set (p := mask_row lower upper locs sizes types).
  exists (map p df), (filter p df).
  pose proof (filter_partition_length p df) as Hsplit.
  split; [reflexivity|]. split; [apply filtered_df_filter|].
  unfold metrics, total_jobs_delta. cbn [total_jobs total_jobs_change].
  rewrite boolean_index_map, boolean_index_negb.
  split; [reflexivity|]. split; [assumption|].
  split; [lia|]. split; [lia|]. split.
  - intros H. apply filter_all_length. lia.
  - intros H. apply (f_equal (@List.length Row)) in H. lia.
Qed.




Lemma series_mean_none (l : list (option Q)) :
  series_mean l = None <-> present l = [].
Proof.
  unfold series_mean. destruct (present l); split; (discriminate || reflexivity).
Qed.

Lemma present_In {A : Type} (l : list (option A)) (a : A) :
  In a (present l) <-> In (Some a) l.
Proof.
  induction l as [|[x|] l IH]; simpl; [tauto| |].
  - rewrite IH. split; intros [H|H]; auto; [left; congruence | left; congruence].
  - rewrite IH. split; [auto | intros [H|H]; [discriminate | assumption]].
Qed.

Lemma present_all_missing {A B : Type} (col : A -> option B) (l : list A) :
  Forall (fun r => col r = None) l -> present (map col l) = [].
Proof.
  induction 1 as [|r l Hr _ IH]; [reflexivity|].
  cbn [map present]. rewrite Hr. assumption.
Qed.

Lemma ratio_props (c n : nat) :
  0 < n -> c <= n ->
  let r := (inject_Z (Z.of_nat c) / inject_Z (Z.of_nat n))%Q in
  (0 <= r <= 1)%Q /\ ((r == 1)%Q <-> c = n) /\ ((r == 0)%Q <-> c = 0).
Proof.
  intros Hn Hc. destruct n as [|n]; [lia|].
  cbv zeta. change (Z.of_nat (S n)) with (Zpos (Pos.of_succ_nat n)).
  unfold Qdiv, Qinv, inject_Z. cbn [Qnum Qden].
  unfold Qle, Qeq, Qmult. cbn [Qnum Qden].
  split; [split; lia | split; (split; intros H; lia)].
Qed.

Lemma filter_id_all (l : list bool) :
  List.length (filter (fun b => b) l) = List.length l <-> Forall (fun b => b = true) l.
Proof.
  split.
  - intros H. apply filter_all_length in H. rewrite <- H.
    apply Forall_forall. intros b Hb. now apply filter_In in Hb.
  - intros H. f_equal. induction H as [|b l Hb _ IH]; simpl; [reflexivity|].
    rewrite Hb. f_equal. assumption.
Qed.

Lemma filter_id_none (l : list bool) :
  List.length (filter (fun b => b) l) = 0 <-> Forall (fun b => b = false) l.
Proof.
  induction l as [|b l IH]; simpl.
  - split; [constructor | reflexivity].
  - destruct b; simpl.
    + split; [discriminate | intros H; inversion H; discriminate].
    + rewrite IH. split; [now constructor | now inversion 1].
Qed.

Lemma remote_pct_props (df : list Row) (p : Q) :
  remote_pct df = Some p ->
  (0 <= p <= 100)%Q /\
  ((p == 100)%Q <-> Forall (fun r => is_remote r = true) df) /\
  ((p == 0)%Q <-> Forall (fun r => is_remote r = false) df).
Proof.
  unfold remote_pct, bool_mean.
  destruct (map is_remote df) as [|b l] eqn:E; [discriminate|].
  cbn [option_map]. assert (Ebs := E). rewrite <- E. clear E.
  set (bs := map is_remote df) in *. intros Hp.
  assert (Hlen : 0 < List.length bs) by (rewrite Ebs; simpl; lia).
  pose proof (filter_length_le (fun b => b) bs) as Hc.
  destruct (ratio_props _ _ Hlen Hc) as (Hr & H1 & H0).
  pose proof (filter_id_all bs) as Ha. pose proof (filter_id_none bs) as Hz.
  unfold bs in Ha, Hz. rewrite Forall_map in Ha, Hz. fold bs in Ha, Hz.
  set (r := (inject_Z (Z.of_nat (List.length (filter (fun b => b) bs)))
             / inject_Z (Z.of_nat (List.length bs)))%Q) in *.
  clearbody r.
  assert (Ep : p = Qred (Qred r * 100)) by congruence.
  pose proof (Qred_correct r) as E1.
  pose proof (Qred_correct (Qred r * 100)) as E2. rewrite <- Ep in E2.
  generalize dependent (Qred r). intros x Ep E1 E2.
  rewrite <- Ha, <- Hz, <- H1, <- H0. clear - Hr E1 E2.
  split; [split; lra|]. split; split; intros H; lra.
Qed.

(** X6.  The metric cards.  The average salary of the view is absent
    exactly when no record of the view has an average salary, and the
    average experience exactly when none has an experience.  The share of
    remote jobs is absent for an empty view and otherwise lies between 0
    and 100, is 100 exactly when every record is marked Remote (in that
    spelling) and 0 exactly when none is. *)
Theorem metrics_cards (df : list Row) (m : list bool) :
  let filtered := boolean_index df m in
  let k := metrics df m in
  (average_salary k = None <->
     Forall (fun r => avg_salary_col r = None) filtered) /\
  (average_experience k = None <->
     Forall (fun r => Experience_Years r = None) filtered) /\
  (remote_jobs k = None <-> filtered = []) /\
  (forall p, remote_jobs k = Some p ->
     (0 <= p <= 100)%Q /\
     ((p == 100)%Q <-> Forall (fun r => is_remote r = true) filtered) /\
     ((p == 0)%Q <-> Forall (fun r => is_remote r = false) filtered)).
Proof.
  intros filtered k. unfold k, metrics. fold filtered.
  cbn [average_salary average_experience remote_jobs].
  assert (Hn : forall col : Row -> option Q,
             column_mean col filtered = None <->
             Forall (fun r => col r = None) filtered).
  { intros col. unfold column_mean. rewrite series_mean_none. split.
    - intros H. apply Forall_forall. intros r Hr.
      destruct (col r) as [q|] eqn:E; [|reflexivity].
      assert (Hin : In q (present (map col filtered))).
      { apply present_In. apply in_map_iff. eauto. }
      rewrite H in Hin. destruct Hin.
    - apply present_all_missing. }
  split; [apply Hn|]. split; [apply Hn|].
  split.
  { unfold remote_pct, bool_mean. destruct filtered; simpl; split;
      (discriminate || reflexivity). }
  intros p Hp. now apply remote_pct_props.
Qed.

(** ** Grouped summaries *)



Lemma cell_is_spec k cell : cell_is k cell = true <-> cell = Some k.
Proof.
  destruct cell as [s|]; simpl; [|split; discriminate].
  rewrite String.eqb_eq. split; congruence.
Qed.

(** The size of a group is the number of occurrences of its key. *)
Lemma group_size (col : Row -> text_cell) (k : string) (view : list Row) :
  List.length (filter (fun r => cell_is k (col r)) view)
  = count_occ string_dec (present (map col view)) k.
Proof.
  induction view as [|r view IH]; [reflexivity|].
  cbn [map filter]. destruct (col r) as [s|]; cbn [present cell_is]; [|assumption].
  cbn [count_occ]. destruct (String.eqb_spec s k), (string_dec s k);
    try contradiction; cbn [List.length]; congruence.
Qed.

Lemma list_sum_step (n : nat) (l : list nat) : list_sum (n :: l) = n + list_sum l.
Proof. reflexivity. Qed.

Lemma list_sum_zero (keys : list string) :
  list_sum (map (fun _ => 0) keys) = 0.
Proof. induction keys; simpl; auto. Qed.

Lemma list_sum_one (x : string) (keys : list string) :
  NoDup keys -> In x keys ->
  list_sum (map (fun k => if string_dec x k then 1 else 0) keys) = 1.
Proof.
  induction 1 as [|h t Hh _ IH]; intros Hin; [contradiction|].
  cbn [map]. rewrite list_sum_step. destruct (string_dec x h) as [->|N].
  - assert (E : map (fun k => if string_dec h k then 1 else 0) t = map (fun _ => 0) t).
    { apply map_ext_in. intros k Hk. destruct (string_dec h k); [subst; contradiction | reflexivity]. }
    rewrite E, list_sum_zero. reflexivity.
  - destruct Hin as [->|Hin]; [contradiction|]. now rewrite IH.
Qed.

(** Counted key by key, the occurrences add up to the length of the column. *)
Lemma counts_add_up (keys l : list string) :
  NoDup keys -> (forall x, In x l -> In x keys) ->
  list_sum (map (count_occ string_dec l) keys) = List.length l.
Proof.
  intros Hk. induction l as [|x l IH]; intros Hl.
  - rewrite (map_ext _ (fun _ => 0)) by reflexivity. apply list_sum_zero.
  - assert (E : map (count_occ string_dec (x :: l)) keys
                = map (fun k => (if string_dec x k then 1 else 0) + count_occ string_dec l k) keys).
    { apply map_ext. intros k. cbn [count_occ]. destruct (string_dec x k); reflexivity. }
    rewrite E.
    assert (S : forall (f g : string -> nat) ks,
               list_sum (map (fun k => f k + g k) ks) = list_sum (map f ks) + list_sum (map g ks)).
    { intros f g ks. induction ks as [|k ks IHk]; [reflexivity|]. cbn [map]. rewrite !list_sum_step, IHk. lia. }
    rewrite S, list_sum_one, IH; [reflexivity | | assumption |].
    + intros y Hy. apply Hl. now right.
    + apply Hl. now left.
Qed.

Lemma groupby_keys col view :
  map fst (groupby col view) = group_keys (present (map col view)).
Proof. unfold groupby. rewrite map_map. apply map_id. Qed.

(** A group is the records of its key, and is never empty. *)
Lemma groupby_In col view g :
  In g (groupby col view) ->
  snd g = filter (fun r => cell_is (fst g) (col r)) view /\
  exists r, In r view /\ col r = Some (fst g).
Proof.
  unfold groupby. rewrite in_map_iff. intros [k [<- Hk]]. split; [reflexivity|].
  apply group_keys_In, present_In, in_map_iff in Hk as [r [Hr Hin]]. eauto.
Qed.

Lemma groupby_nonempty col view g : In g (groupby col view) -> 1 <= List.length (snd g).
Proof.
  intros H. apply groupby_In in H as [-> [r [Hin Hr]]].
  assert (Hf : In r (filter (fun r => cell_is (fst g) (col r)) view)).
  { apply filter_In. split; [assumption|]. now apply cell_is_spec. }
  destruct (filter _ view); [contradiction | simpl; lia].
Qed.






Lemma agg_metrics_groups col view :
  map group (map agg_metrics (groupby col view)) = group_keys (present (map col view)).
Proof. rewrite map_map. cbn [agg_metrics group]. apply groupby_keys. Qed.






Lemma jobs_key_ge (p q : group_metrics) :
  key_ge (jobs_key p) (jobs_key q) <-> group_jobs q <= group_jobs p.
Proof. unfold jobs_key, key_ge. rewrite <- Zle_Qle. lia. Qed.

Lemma agg_metrics_In col view m :
  In m (map agg_metrics (groupby col view)) ->
  let rows := filter (fun r => cell_is (group m) (col r)) view in
  (exists r, In r view /\ col r = Some (group m)) /\
  1 <= List.length rows /\
  group_jobs m = List.length rows /\
  group_avg_salary m = column_mean avg_salary_col rows /\
  group_applicants m = column_mean applicants_col rows.
Proof.
  intros Hm rows. apply in_map_iff in Hm as [g [<- Hg]].
  cbn [agg_metrics group group_jobs group_avg_salary group_applicants] in *.
  pose proof (groupby_nonempty _ _ _ Hg) as Hn.
  apply groupby_In in Hg as [Eg Hr]. fold rows in Eg. rewrite Eg in *. auto.
Qed.

(** X9. The top-companies table has at most ten records, one company each,
    taken from the companies that occur in the view; a record carries the
    number of the company's postings (at least 1), the exact mean of their
    present average salaries (not rounded) and the mean number of their
    applicants.  The records come in descending order of the number of
    postings, and a company that is left out has no more postings than any
    company shown; then the table is full. *)
Theorem top_companies_spec {S : Sorter} (view : list Row) :
  List.length (top_companies view) <= 10 /\
  NoDup (map group (top_companies view)) /\
  (forall m, In m (top_companies view) ->
     let rows := filter (fun r => cell_is (group m) (Company_Name_col r)) view in
     (exists r, In r view /\ Company_Name_col r = Some (group m)) /\
     group_jobs m = List.length rows /\ 1 <= group_jobs m /\
     group_avg_salary m = column_mean avg_salary_col rows /\
     group_applicants m = column_mean applicants_col rows) /\
  StronglySorted (fun p q => group_jobs q <= group_jobs p) (top_companies view) /\
  (forall r k, In r view -> Company_Name_col r = Some k ->
     ~ In k (map group (top_companies view)) ->
     List.length (top_companies view) = 10 /\
     forall m, In m (top_companies view) ->
       List.length (filter (fun r => cell_is k (Company_Name_col r)) view) <= group_jobs m).
Proof.
  unfold top_companies.
  set (all := map agg_metrics (groupby Company_Name_col view)).
  set (sorted := sort_values _ jobs_key all).
  assert (P : Permutation all sorted) by apply sort_values_perm.
  assert (Hs : StronglySorted (fun p q => group_jobs q <= group_jobs p) sorted).
  { eapply StronglySorted_impl; [|apply sort_values_sorted].
    intros a b H. now apply jobs_key_ge. }
  split; [apply firstn_le_length|].
  split.
  { rewrite <- firstn_map. apply NoDup_firstn.
    eapply Permutation_NoDup; [apply Permutation_map, P|].
    unfold all. rewrite agg_metrics_groups. apply group_keys_NoDup. }
  split.
  { intros m Hm. cbv zeta. apply In_firstn in Hm.
    apply (Permutation_in _ (Permutation_sym P)) in Hm.
    apply agg_metrics_In in Hm as (Hr & Hn & Ej & Es & Ea).
    repeat split; try assumption. lia. }
  destruct (firstn_sorted _ 10 _ Hs) as [Hsf Hle].
  split; [assumption|].
  intros r k Hr Hk Hout.
  assert (Hall : In k (map group all)).
  { unfold all. rewrite agg_metrics_groups. apply group_keys_In, present_In, in_map_iff. eauto. }
  apply in_map_iff in Hall as [mk [Ek Hmk]].
  assert (Hsorted : In mk sorted) by (eapply Permutation_in; eassumption).
  assert (Hnot : ~ In mk (firstn 10 sorted)).
  { intros Hin. apply Hout. apply in_map_iff. eauto. }
  destruct (firstn_left_out 10 sorted mk Hsorted Hnot) as [Hskip Hlen].
  split; [assumption|].
  intros m Hm. specialize (Hle m mk Hm Hskip). cbn beta in Hle.
  apply agg_metrics_In in Hmk as (_ & _ & Ej & _). rewrite Ek in Ej. lia.
Qed.

(** ** Daily postings *)

Lemma ts_compare_eq a b : ts_compare a b = Eq <-> a = b.
Proof.
  unfold ts_compare. destruct a as [d s], b as [d' s']. cbn [ts_date ts_seconds]. split.
  - destruct (Z.compare_spec d d') as [Ed|Ed|Ed]; try discriminate.
    intros H. apply Z.compare_eq in H. congruence.
  - intros [= -> ->]. now rewrite !Z.compare_refl.
Qed.

Lemma ts_eqb_spec a b : ts_eqb a b = true <-> a = b.
Proof.
  unfold ts_eqb. rewrite <- ts_compare_eq.
  destruct (ts_compare a b); split; (reflexivity || discriminate).
Qed.

Lemma ts_lt_spec a b :
  ts_lt a b <->
  (ts_date a < ts_date b \/ (ts_date a = ts_date b /\ ts_seconds a < ts_seconds b))%Z.
Proof.
  unfold ts_lt, ts_compare.
  destruct (Z.compare_spec (ts_date a) (ts_date b)) as [E|E|E].
  - rewrite Z.compare_lt_iff. lia.
  - split; [auto | reflexivity].
  - split; [discriminate | lia].
Qed.

Lemma ts_gt_lt a b : ts_compare a b = Gt -> ts_lt b a.
Proof.
  intros H. apply ts_lt_spec. unfold ts_compare in H.
  destruct (Z.compare_spec (ts_date a) (ts_date b)) as [E|E|E]; try discriminate.
  - apply Z.compare_gt_iff in H. lia.
  - lia.
Qed.

Lemma ts_lt_trans a b c : ts_lt a b -> ts_lt b c -> ts_lt a c.
Proof. rewrite !ts_lt_spec. lia. Qed.

Lemma ts_lt_irrefl a : ~ ts_lt a a.
Proof. rewrite ts_lt_spec. lia. Qed.

Lemma insert_ts_In k x l : In x (insert_ts k l) <-> x = k \/ In x l.
Proof.
  induction l as [|h t IH]; simpl; [intuition|].
  destruct (ts_compare k h) eqn:E; simpl.
  - apply ts_compare_eq in E. subst. intuition.
  - intuition.
  - rewrite IH. intuition.
Qed.

Lemma ts_keys_In x l : In x (ts_keys l) <-> In x l.
Proof.
  induction l as [|k l IH]; simpl; [reflexivity|].
  rewrite insert_ts_In, IH. intuition.
Qed.

Lemma insert_ts_sorted k l :
  StronglySorted ts_lt l -> StronglySorted ts_lt (insert_ts k l).
Proof.
  induction 1 as [|h t Hs IH Hh]; simpl; [repeat constructor|].
  destruct (ts_compare k h) eqn:E.
  - constructor; assumption.
  - constructor; [constructor; assumption|].
    constructor; [exact E|].
    eapply Forall_impl; [|exact Hh]. intros z Hz. eapply ts_lt_trans; eassumption.
  - constructor; [assumption|].
    apply Forall_forall. intros x Hx. apply insert_ts_In in Hx as [->|Hx].
    + now apply ts_gt_lt.
    + rewrite Forall_forall in Hh. auto.
Qed.

Lemma ts_keys_sorted l : StronglySorted ts_lt (ts_keys l).
Proof.
  induction l as [|k l IH]; simpl; [constructor|]. now apply insert_ts_sorted.
Qed.

Lemma ts_keys_NoDup l : NoDup (ts_keys l).
Proof.
  pose proof (ts_keys_sorted l) as H.
  induction H as [|h t _ IH Hh]; constructor; [|assumption].
  intros Hin. rewrite Forall_forall in Hh. apply (ts_lt_irrefl h). auto.
Qed.

(** The groups of a column without missing values share out all records. *)
Lemma date_groups_add_up (keys : list Timestamp) (view : list Row) :
  NoDup keys -> (forall r, In r view -> In (Posted_Date r) keys) ->
  list_sum (map (fun k => List.length (filter (fun r => ts_eqb (Posted_Date r) k) view)) keys)
  = List.length view.
Proof.
  intros Hk. induction view as [|r view IH]; intros Hv.
  - cbn [filter List.length]. clear. induction keys; simpl; auto.
  - assert (One : forall ks, NoDup ks -> In (Posted_Date r) ks ->
              list_sum (map (fun k => if ts_eqb (Posted_Date r) k then 1 else 0) ks) = 1).
    { clear. induction 1 as [|h t Hh _ IHt]; intros Hin; [contradiction|].
      cbn [map]. rewrite list_sum_step.
      destruct (ts_eqb (Posted_Date r) h) eqn:E.
      - apply ts_eqb_spec in E. subst h.
        assert (Z : forall l, ~ In (Posted_Date r) l ->
                    list_sum (map (fun k => if ts_eqb (Posted_Date r) k then 1 else 0) l) = 0).
        { intros l. induction l as [|a l IHl]; intros Hn; [reflexivity|].
          cbn [map]. rewrite list_sum_step.
          destruct (ts_eqb (Posted_Date r) a) eqn:Ea.
          - apply ts_eqb_spec in Ea. subst a. exfalso. apply Hn. now left.
          - rewrite IHl; [reflexivity|]. intros Hin'. apply Hn. now right. }
        rewrite Z; [reflexivity | assumption].
      - destruct Hin as [->|Hin].
        + assert (T : ts_eqb (Posted_Date r) (Posted_Date r) = true) by now apply ts_eqb_spec.
          congruence.
        + now rewrite IHt. }
    assert (Split : forall ks,
              list_sum (map (fun k => List.length (filter (fun x => ts_eqb (Posted_Date x) k) (r :: view))) ks)
              = list_sum (map (fun k => if ts_eqb (Posted_Date r) k then 1 else 0) ks)
                + list_sum (map (fun k => List.length (filter (fun x => ts_eqb (Posted_Date x) k) view)) ks)).
    { intros ks. induction ks as [|k ks IHk]; [reflexivity|].
      cbn [map]. rewrite !list_sum_step, IHk. cbn [filter].
      destruct (ts_eqb (Posted_Date r) k); cbn [List.length]; lia. }
    rewrite Split, One, IH; [reflexivity | | assumption |].
    + intros x Hx. apply Hv. now right.
    + apply Hv. now left.
Qed.

(** X10. The daily-postings series has one point for every posting date of
    the view, in strictly ascending order of the dates (day, then time of
    day); the count of a point is the number of postings of that date, at
    least 1, and the counts add up to the number of postings of the view: a
    date without postings has no point, not a point with count 0. *)
Theorem daily_posts_spec (view : list Row) :
  StronglySorted ts_lt (map fst (daily_posts view)) /\
  (forall d, In d (map fst (daily_posts view)) <-> exists r, In r view /\ Posted_Date r = d) /\
  (forall d n, In (d, n) (daily_posts view) ->
     1 <= n /\ n = List.length (filter (fun r => ts_eqb (Posted_Date r) d) view)) /\
  list_sum (map snd (daily_posts view)) = List.length view /\
  (view = [] <-> daily_posts view = []).
Proof.
  assert (K : map fst (daily_posts view) = ts_keys (map Posted_Date view)).
  { unfold daily_posts. rewrite map_map. apply map_id. }
  assert (I : forall d, In d (ts_keys (map Posted_Date view))
                        <-> exists r, In r view /\ Posted_Date r = d).
  { intros d. rewrite ts_keys_In, in_map_iff. split; intros [r Hr]; exists r; tauto. }
  split; [rewrite K; apply ts_keys_sorted|].
  split; [intros d; rewrite K; apply I|].
  split.
  { intros d n H. unfold daily_posts in H. apply in_map_iff in H as [k [E Hk]].
    injection E as <- <-. split; [|reflexivity].
    apply I in Hk as [r [Hin Hr]].
    assert (Hf : In r (filter (fun r => ts_eqb (Posted_Date r) k) view)).
    { apply filter_In. split; [assumption|]. now apply ts_eqb_spec. }
    destruct (filter _ view); [contradiction | simpl; lia]. }
  split.
  { unfold daily_posts. rewrite map_map. cbn [snd].
    apply date_groups_add_up; [apply ts_keys_NoDup|].
    intros r Hr. apply ts_keys_In, in_map. assumption. }
  split.
  - intros ->. reflexivity.
  - intros E. destruct view as [|r view]; [reflexivity|].
    assert (Hin : In (Posted_Date r) (map fst (daily_posts (r :: view)))).
    { rewrite K. apply ts_keys_In. now left. }
    rewrite E in Hin. contradiction.
Qed.

(** ** The education distribution *)

Lemma seen_spec k seen : existsb (String.eqb k) seen = true <-> In k seen.
Proof.
  rewrite existsb_exists. split.
  - intros [x [Hx E]]. apply String.eqb_eq in E. now subst.
  - intros H. exists k. split; [assumption | apply String.eqb_refl].
Qed.

Lemma first_seen_In k seen l :
  In k (first_seen seen l) <-> In k l /\ ~ In k seen.
Proof.
  revert seen. induction l as [|x l IH]; intros seen; cbn [first_seen].
  - simpl. tauto.
  - destruct (existsb (String.eqb x) seen) eqn:E.
    + apply seen_spec in E. rewrite IH. simpl. split; [tauto|].
      intros [[->|H] Hn]; [contradiction | tauto].
    + assert (Hx : ~ In x seen) by (rewrite <- seen_spec; congruence).
      simpl. rewrite IH. simpl. split.
      * intros [->|[H Hn]]; [tauto|]. split; [tauto|]. intros Hs. apply Hn. now right.
      * intros [[->|H] Hn]; [now left|].
        destruct (string_dec x k) as [->|N]; [now left|].
        right. split; [assumption|]. intros [Hs|Hs]; [contradiction | contradiction].
Qed.

Lemma first_seen_NoDup seen l : NoDup (first_seen seen l).
Proof.
  revert seen. induction l as [|x l IH]; intros seen; cbn [first_seen]; [constructor|].
  destruct (existsb (String.eqb x) seen); [apply IH|].
  constructor; [|apply IH]. rewrite first_seen_In. intros [_ Hn]. apply Hn. now left.
Qed.

(** A rearrangement keeps the sum. *)
Lemma rearranged_sum (l l' : list nat) : Permutation l l' -> list_sum l = list_sum l'.
Proof.
  induction 1 as [|x l l' _ IH|x y l|l l' l'' _ IH1 _ IH2];
    rewrite ?list_sum_step; lia.
Qed.

Section EducationDistribution.
Context {S : Sorter}.

Lemma series_value_counts_keys col :
  Permutation (first_seen [] (present col)) (map fst (series_value_counts col)).
Proof.
  unfold series_value_counts.
  eapply Permutation_trans; [|apply Permutation_map, sort_values_perm].
  rewrite map_map. cbn [fst]. rewrite map_id. apply Permutation_refl.
Qed.

Lemma series_value_counts_In col k n :
  In (k, n) (series_value_counts col)
  <-> In (Some k) col /\ n = count_occ string_dec (present col) k.
Proof.
  unfold series_value_counts.
  set (rows := map (fun k => (k, count_occ string_dec (present col) k))
                   (first_seen [] (present col))).
  assert (R : In (k, n) rows <-> In (Some k) col /\ n = count_occ string_dec (present col) k).
  { unfold rows. rewrite in_map_iff. split.
    - intros [x [E Hx]]. injection E as -> <-.
      apply first_seen_In in Hx as [Hx _]. apply present_In in Hx. tauto.
    - intros [Hk ->]. exists k. split; [reflexivity|].
      apply first_seen_In. split; [now apply present_In | tauto]. }
  rewrite <- R. split; intros H.
  - eapply Permutation_in; [symmetry; apply sort_values_perm | exact H].
  - eapply Permutation_in; [apply sort_values_perm | exact H].
Qed.

Lemma series_value_counts_total col :
  list_sum (map snd (series_value_counts col)) = List.length (present col).
Proof.
  unfold series_value_counts.
  set (rows := map (fun k => (k, count_occ string_dec (present col) k))
                   (first_seen [] (present col))).
  assert (P : Permutation (map snd rows) (map snd (sort_values _ size_key rows)))
    by apply Permutation_map, sort_values_perm.
  rewrite <- (rearranged_sum _ _ P). unfold rows. rewrite map_map. cbn [snd].
  apply counts_add_up; [apply first_seen_NoDup|].
  intros x Hx. apply first_seen_In. tauto.
Qed.

End EducationDistribution.

(** X11. Whatever order the library's sort leaves equal counts in, the
    education distribution has one slice for every education requirement
    that occurs in the view, none twice and none left out (there is no cap);
    the value of a slice is the number of postings with that requirement,
    at least 1; the slices come in descending order of their values, and the
    values add up to the number of postings whose education requirement is
    present (a posting without one is in no slice). *)
Theorem edu_dist_spec {S : Sorter} (view : list Row) :
  let col := fun r => Education_Requirement (raw r) in
  NoDup (map fst (edu_dist view)) /\
  (forall k, In k (map fst (edu_dist view)) <-> exists r, In r view /\ col r = Some k) /\
  (forall k n, In (k, n) (edu_dist view) ->
     1 <= n /\ n = List.length (filter (fun r => cell_is k (col r)) view)) /\
  StronglySorted (fun p q => snd q <= snd p) (edu_dist view) /\
  list_sum (map snd (edu_dist view))
  = List.length (filter (fun r => notna (col r)) view).
Proof.
  intros col. unfold edu_dist. fold col.
  split.
  { eapply Permutation_NoDup; [apply series_value_counts_keys | apply first_seen_NoDup]. }
  split.
  { intros k. split.
    - intros H. apply (Permutation_in _ (Permutation_sym (series_value_counts_keys _))) in H.
      apply first_seen_In in H as [H _]. apply present_In, in_map_iff in H as [r Hr].
      exists r. tauto.
    - intros [r [Hin Hr]].
      apply (Permutation_in _ (series_value_counts_keys _)).
      apply first_seen_In. split; [|tauto]. apply present_In, in_map_iff. eauto. }
  split.
  { intros k n H. apply series_value_counts_In in H as [Hk ->].
    rewrite <- group_size. split; [|reflexivity].
    apply in_map_iff in Hk as [r [Hr Hin]].
    assert (Hf : In r (filter (fun r => cell_is k (col r)) view)).
    { apply filter_In. split; [assumption|]. now apply cell_is_spec. }
    destruct (filter _ view); [contradiction | simpl; lia]. }
  split.
  { unfold series_value_counts.
    eapply StronglySorted_impl; [|apply sort_values_sorted].
    intros a b H. now apply size_key_ge. }
  rewrite series_value_counts_total.
  induction view as [|r view IH]; [reflexivity|].
  cbn [map filter]. unfold col at 1 3. destruct (Education_Requirement (raw r));
    cbn [present notna List.length]; congruence.
Qed.

(** ** The options of the sidebar *)

Lemma cell_eqb_spec a b : cell_eqb a b = true <-> a = b.
Proof.
  destruct a as [x|], b as [y|]; simpl; try (split; (reflexivity || discriminate)).
  rewrite String.eqb_eq. split; congruence.
Qed.

Lemma seen_cell_spec c seen : existsb (cell_eqb c) seen = true <-> In c seen.
Proof.
  rewrite existsb_exists. split.
  - intros [x [Hx E]]. apply cell_eqb_spec in E. now subst.
  - intros H. exists c. split; [assumption | now apply cell_eqb_spec].
Qed.

Lemma unique_from_strings seen l :
  unique_from (map Some seen) (map Some l) = map Some (first_seen seen l).
Proof.
  revert seen. induction l as [|k l IH]; intros seen; [reflexivity|].
  cbn [map unique_from first_seen].
  assert (E : existsb (cell_eqb (Some k)) (map Some seen) = existsb (String.eqb k) seen).
  { clear. induction seen as [|s seen IHs]; [reflexivity|].
    cbn [map existsb cell_eqb]. now rewrite IHs. }
  rewrite E. destruct (existsb (String.eqb k) seen); [apply IH|].
  cbn [map]. f_equal. apply (IH (k :: seen)).
Qed.

Lemma unique_from_In c seen col :
  In c (unique_from seen col) <-> In c col /\ ~ In c seen.
Proof.
  revert seen. induction col as [|x col IH]; intros seen; cbn [unique_from].
  - simpl. tauto.
  - destruct (existsb (cell_eqb x) seen) eqn:E.
    + apply seen_cell_spec in E. rewrite IH. simpl. split; [tauto|].
      intros [[->|H] Hn]; [contradiction | tauto].
    + assert (Hx : ~ In x seen) by (rewrite <- seen_cell_spec; congruence).
      simpl. rewrite IH. simpl. split.
      * intros [->|[H Hn]]; [tauto|]. split; [tauto|]. intros Hs. apply Hn. now right.
      * intros [[->|H] Hn]; [now left|].
        destruct (cell_eqb x c) eqn:Ec; [apply cell_eqb_spec in Ec; now left|].
        right. split; [assumption|]. intros [Hs|Hs]; [|contradiction].
        apply cell_eqb_spec in Hs. congruence.
Qed.

Lemma unique_missing seen col :
  Forall (fun c => c = None) col ->
  unique_from seen col = if existsb (cell_eqb None) seen then [] else
                           match col with [] => [] | _ :: _ => [None] end.
Proof.
  intros H. revert seen. induction H as [|c col -> _ IH]; intros seen.
  - cbn [unique_from]. now destruct (existsb _ seen).
  - cbn [unique_from]. destruct (existsb (cell_eqb None) seen) eqn:E.
    + rewrite IH, E. reflexivity.
    + rewrite IH. cbn [existsb cell_eqb orb]. reflexivity.
Qed.

Lemma no_missing (col : list text_cell) :
  Forall (fun c => notna c = true) col -> col = map Some (present col).
Proof.
  induction 1 as [|c col Hc _ IH]; [reflexivity|].
  destruct c as [s|]; [|discriminate]. cbn [present map]. congruence.
Qed.

(** Inserting a new string into an ascending list of strings. *)
Lemma insort_strings x s :
  ~ In x s -> StronglySorted str_lt s ->
  exists s', insort (Some x) (map Some s) = Ok (map Some s') /\
             (forall y, In y s' <-> y = x \/ In y s) /\
             StronglySorted str_lt s'.
Proof.
  intros Hx Hs. induction Hs as [|h t Ht IH Hh].
  - exists [x]. split; [reflexivity|].
    split; [intros y; simpl; intuition congruence | repeat constructor].
  - cbn [map insort py_lt bind]. destruct (String.compare h x) eqn:E.
    + exfalso. apply Hx. left. now apply OrderedTypeEx.String_as_OT.cmp_eq.
    + destruct IH as [t' [Et [Hin Hst]]]; [intros H; apply Hx; now right|].
      rewrite Et. cbn [bind]. exists (h :: t'). split; [reflexivity|].
      split; [intros y; simpl; rewrite Hin; intuition congruence|].
      constructor; [assumption|]. apply Forall_forall. intros y Hy.
      apply Hin in Hy as [->|Hy]; [exact E|]. rewrite Forall_forall in Hh. auto.
    + exists (x :: h :: t). split; [reflexivity|].
      split; [intros y; simpl; intuition congruence|].
      apply str_gt_lt in E. constructor; [constructor; assumption|].
      constructor; [assumption|]. eapply Forall_impl; [|exact Hh].
      intros z Hz. eapply str_lt_trans; eassumption.
Qed.

Lemma sorted_strings l :
  NoDup l ->
  exists s, sorted (map Some l) = Ok (map Some s) /\
            (forall y, In y s <-> In y l) /\ StronglySorted str_lt s.
Proof.
  induction 1 as [|x l Hx _ IH].
  - exists []. split; [reflexivity|]. split; [tauto | constructor].
  - destruct IH as [s [Es [Hin Hs]]]. cbn [map sorted]. rewrite Es. cbn [bind].
    destruct (insort_strings x s) as [s' [Es' [Hin' Hs']]];
      [rewrite Hin; assumption | assumption |].
    exists s'. split; [assumption|]. split; [|assumption].
    intros y. rewrite Hin', Hin. simpl. intuition congruence.
Qed.

(** An ascending list of strings is fixed by its elements. *)
Lemma ascending_fixed (a b : list string) :
  StronglySorted str_lt a -> StronglySorted str_lt b ->
  (forall y, In y a <-> In y b) -> a = b.
Proof.
  intros Ha. revert b. induction Ha as [|x a Ha IH Hx]; intros b Hb Hab.
  - destruct b as [|y b]; [reflexivity|]. exfalso. apply (Hab y). now left.
  - destruct Hb as [|y b Hb Hy].
    + exfalso. apply (Hab x). now left.
    + rewrite Forall_forall in Hx, Hy.
      assert (E : x = y).
      { destruct (proj1 (Hab x) (or_introl eq_refl)) as [E|Hin]; [congruence|].
        destruct (proj2 (Hab y) (or_introl eq_refl)) as [E|Hin']; [congruence|].
        exfalso. apply (str_lt_irrefl x). eapply str_lt_trans; [apply Hx, Hin' | apply Hy, Hin]. }
      subst y. f_equal. apply IH; [assumption|].
      intros z. split; intros Hz.
      * destruct (proj1 (Hab z) (or_intror Hz)) as [->|H]; [|assumption].
        exfalso. apply (str_lt_irrefl z). auto.
      * destruct (proj2 (Hab z) (or_intror Hz)) as [->|H]; [|assumption].
        exfalso. apply (str_lt_irrefl z). auto.
Qed.

Lemma sorted_missing n : sorted (repeat None n) = Ok (repeat None n).
Proof.
  induction n as [|n IH]; [reflexivity|].
  cbn [repeat sorted]. rewrite IH. cbn [bind]. destruct n; reflexivity.
Qed.

Lemma cells_kinds (l : list text_cell) :
  (exists n, l = repeat None n) \/ (exists s, l = map Some s) \/
  (In None l /\ exists s, In (Some s) l).
Proof.
  induction l as [|c l IH]; [left; exists 0; reflexivity|].
  destruct IH as [[n ->]|[[s ->]|[Hn [s Hs]]]].
  - destruct c as [x|].
    + destruct n; [right; left; exists [x]; reflexivity|].
      right; right. split; [right; now left | exists x; now left].
    + left. exists (S n). reflexivity.
  - destruct c as [x|].
    + right; left. exists (x :: s). reflexivity.
    + destruct s as [|y s]; [left; exists 1; reflexivity|].
      right; right. split; [now left | exists y; right; now left].
  - right; right. split; [now right | exists s; now right].
Qed.

Lemma insort_total x r :
  exists r', insort (Some x) (map Some r) = Ok (map Some r') /\
             List.length r' = S (List.length r).
Proof.
  induction r as [|h r IH]; [exists [x]; split; reflexivity|].
  cbn [map insort py_lt bind]. destruct (String.compare h x).
  - exists (x :: h :: r). split; reflexivity.
  - destruct IH as [r' [-> Hl]]. cbn [bind]. exists (h :: r').
    split; [reflexivity | simpl; congruence].
  - exists (x :: h :: r). split; reflexivity.
Qed.

Lemma sorted_total s :
  exists r, sorted (map Some s) = Ok (map Some r) /\ List.length r = List.length s.
Proof.
  induction s as [|x s IH]; [exists []; split; reflexivity|].
  destruct IH as [r [Er Hl]]. cbn [map sorted]. rewrite Er. cbn [bind].
  destruct (insort_total x r) as [r' [-> Hl']]. exists r'.
  split; [reflexivity | simpl; congruence].
Qed.

(** Python does not order a missing value against a string. *)
Lemma sorted_mixed (l : list text_cell) (s : string) :
  In None l -> In (Some s) l -> sorted l = Raise TypeError.
Proof.
  revert s. induction l as [|c l IH]; intros s Hn Hs; [contradiction|].
  cbn [sorted]. destruct (cells_kinds l) as [[n ->]|[[t ->]|[Hn' [s' Hs']]]].
  - destruct c as [x|].
    + destruct n as [|n]; [destruct Hn as [Hn|[]]; discriminate|].
      rewrite sorted_missing. reflexivity.
    + destruct Hs as [Hs|Hs]; [discriminate|]. apply repeat_spec in Hs. discriminate.
  - destruct c as [x|].
    + destruct Hn as [Hn|Hn]; [discriminate|].
      apply in_map_iff in Hn as [y [Hy _]]. discriminate.
    + destruct t as [|y t]; [destruct Hs as [Hs|[]]; discriminate|].
      destruct (sorted_total (y :: t)) as [r [-> Hl]].
      destruct r as [|x r]; [discriminate|]. reflexivity.
  - rewrite (IH s' Hn' Hs'). reflexivity.
Qed.

Section Options.
Variable col : Row -> text_cell.

Lemma options_present (df : list Row) :
  Forall (fun r => notna (col r) = true) df ->
  options col df = Ok (map Some (group_keys (present (map col df)))).
Proof.
  unfold options, unique. intros H.
  assert (E : map col df = map Some (present (map col df))).
  { apply no_missing. apply Forall_map. exact H. }
  rewrite E at 1.
  change (@nil text_cell) with (map (@Some string) []).
  rewrite (unique_from_strings [] (present (map col df))).
  destruct (sorted_strings _ (first_seen_NoDup [] (present (map col df))))
    as [s [-> [Hin Hs]]].
  do 2 f_equal. apply ascending_fixed; [assumption | apply group_keys_sorted|].
  intros y. rewrite Hin, first_seen_In, group_keys_In. simpl. tauto.
Qed.

(** X12. The options of a sidebar filter are [sorted(df[col].unique())]:
    when no record lacks the column they are the values that occur, each
    once, in ascending order; when some record lacks it and another has it,
    Python cannot order the missing value against a string and the page
    fails with a TypeError; when every record lacks it the only option is
    the missing value. *)
Theorem options_spec (df : list Row) :
  (Forall (fun r => notna (col r) = true) df ->
   exists keys,
     options col df = Ok (map Some keys) /\
     StronglySorted str_lt keys /\
     forall k, In k keys <-> exists r, In r df /\ col r = Some k) /\
  (forall r r' s, In r df -> col r = None -> In r' df -> col r' = Some s ->
   options col df = Raise TypeError) /\
  (df <> [] -> Forall (fun r => col r = None) df -> options col df = Ok [None]).
Proof.
  split; [|split].
  - intros H. exists (group_keys (present (map col df))).
    split; [now apply options_present|]. split; [apply group_keys_sorted|].
    intros k. rewrite group_keys_In, present_In, in_map_iff.
    split; intros [r Hr]; exists r; tauto.
  - unfold options, unique.
    intros r r' s Hr Er Hr' Er'. apply (sorted_mixed _ s).
    + apply unique_from_In. split; [|simpl; tauto]. rewrite <- Er. now apply in_map.
    + apply unique_from_In. split; [|simpl; tauto]. rewrite <- Er'. now apply in_map.
  - unfold options, unique.
    intros Hne H. rewrite unique_missing by (apply Forall_map; exact H).
    cbn [existsb]. destruct df; [contradiction | reflexivity].
Qed.

End Options.

(** ** The view of the first run *)

Lemma ts_compare_Lt a b : ts_compare a b = Lt <-> ts_lt a b.
Proof. reflexivity. Qed.

Lemma ts_min_le a b :
  (ts_date (ts_min a b) <= ts_date a)%Z /\ (ts_date (ts_min a b) <= ts_date b)%Z.
Proof.
  unfold ts_min. pose proof (ts_lt_spec b a) as H. unfold ts_lt in H.
  destruct (ts_compare b a) eqn:E.
  - apply ts_compare_eq in E. subst. lia.
  - destruct H as [H _]. specialize (H eq_refl). lia.
  - apply ts_gt_lt, ts_lt_spec in E. lia.
Qed.

Lemma ts_max_ge a b :
  (ts_date a <= ts_date (ts_max a b))%Z /\ (ts_date b <= ts_date (ts_max a b))%Z.
Proof.
  unfold ts_max. pose proof (ts_lt_spec a b) as H. unfold ts_lt in H.
  destruct (ts_compare a b) eqn:E.
  - apply ts_compare_eq in E. subst. lia.
  - destruct H as [H _]. specialize (H eq_refl). lia.
  - apply ts_gt_lt, ts_lt_spec in E. lia.
Qed.

Lemma fold_min_le l t :
  (ts_date (fold_left ts_min l t) <= ts_date t)%Z /\
  Forall (fun x => (ts_date (fold_left ts_min l t) <= ts_date x)%Z) l.
Proof.
  revert t. induction l as [|x l IH]; intros t; cbn [fold_left]; [split; [lia | constructor]|].
  destruct (IH (ts_min t x)) as [H1 H2]. pose proof (ts_min_le t x) as [M1 M2].
  split; [lia|]. constructor; [lia | assumption].
Qed.

Lemma fold_max_ge l t :
  (ts_date t <= ts_date (fold_left ts_max l t))%Z /\
  Forall (fun x => (ts_date x <= ts_date (fold_left ts_max l t))%Z) l.
Proof.
  revert t. induction l as [|x l IH]; intros t; cbn [fold_left]; [split; [lia | constructor]|].
  destruct (IH (ts_max t x)) as [H1 H2]. pose proof (ts_max_ge t x) as [M1 M2].
  split; [lia|]. constructor; [lia | assumption].
Qed.

(** The default date range leaves no record out. *)
Lemma default_date_range_covers (df : list Row) :
  df <> [] ->
  exists lower upper,
    default_date_range df = Some [lower; upper] /\
    Forall (fun r => (lower <= ts_date (Posted_Date r) <= upper)%Z) df.
Proof.
  intros Hne. destruct df as [|r df]; [contradiction|]. unfold default_date_range.
  cbn [map]. eexists _, _. split; [reflexivity|].
  destruct (fold_min_le (map Posted_Date df) (Posted_Date r)) as [L1 L2].
  destruct (fold_max_ge (map Posted_Date df) (Posted_Date r)) as [U1 U2].
  constructor; [lia|]. rewrite Forall_map in L2, U2.
  rewrite Forall_forall in *. intros x Hx. specialize (L2 x Hx). specialize (U2 x Hx).
  cbn beta in *. lia.
Qed.

Lemma isin_all_options (col : Row -> text_cell) (df : list Row) (r : Row) :
  In r df -> notna (col r) = true ->
  isin (col r) (group_keys (present (map col df))) = true.
Proof.
  intros Hin Hc. apply isin_spec. unfold cell_in.
  destruct (col r) as [s|] eqn:E; [|discriminate].
  exists s. split; [reflexivity|]. apply group_keys_In, present_In, in_map_iff. eauto.
Qed.

(** X13. On the first run of a table that has records, none of them without
    a location, a company size or a job type, the sidebar starts with the
    full range of posting dates, every company size and every job type, and
    with the first five locations in ascending order of the names; the view
    is then the records of those five locations, whatever their date, size
    or type, and it is the whole table when there are at most five
    locations. *)
Theorem first_run_view (df : list Row) :
  df <> [] ->
  Forall (fun r => notna (Job_Location_col r) = true /\
                   notna (Company_Size_col r) = true /\
                   notna (Job_Type_col r) = true) df ->
  exists range locs sizes types,
    default_date_range df = Some range /\
    options Job_Location_col df = Ok (map Some locs) /\
    options Company_Size_col df = Ok (map Some sizes) /\
    options Job_Type_col df = Ok (map Some types) /\
    default_locations df = Ok (map Some (firstn 5 locs)) /\
    StronglySorted str_lt locs /\
    filtered_df df range (firstn 5 locs) sizes types
    = Ok (filter (fun r => isin (Job_Location_col r) (firstn 5 locs)) df) /\
    (List.length locs <= 5 ->
     filtered_df df range (firstn 5 locs) sizes types = Ok df).
Proof.
  intros Hne Hall. rewrite Forall_forall in Hall.
  destruct (default_date_range_covers df Hne) as [lower [upper [Er Hr]]].
  rewrite Forall_forall in Hr.
  assert (El : options Job_Location_col df
               = Ok (map Some (group_keys (present (map Job_Location_col df))))).
  { apply options_present, Forall_forall. intros r Hin. now apply Hall. }
  assert (Es : options Company_Size_col df
               = Ok (map Some (group_keys (present (map Company_Size_col df))))).
  { apply options_present, Forall_forall. intros r Hin. now apply Hall. }
  assert (Et : options Job_Type_col df
               = Ok (map Some (group_keys (present (map Job_Type_col df))))).
  { apply options_present, Forall_forall. intros r Hin. now apply Hall. }
  set (locs := group_keys (present (map Job_Location_col df))) in *.
  set (sizes := group_keys (present (map Company_Size_col df))) in *.
  set (types := group_keys (present (map Job_Type_col df))) in *.
  exists [lower; upper], locs, sizes, types.
  split; [assumption|]. split; [assumption|]. split; [assumption|]. split; [assumption|].
  split; [unfold default_locations; rewrite El; cbn [bind]; now rewrite firstn_map|].
  split; [apply group_keys_sorted|].
  rewrite filtered_df_filter.
  assert (M : forall r, In r df ->
              mask_row lower upper (firstn 5 locs) sizes types r
              = isin (Job_Location_col r) (firstn 5 locs)).
  { intros r Hin. unfold mask_row. destruct (Hall r Hin) as (_ & Hs & Ht).
    fold (Company_Size_col r). fold (Job_Type_col r). fold (Job_Location_col r).
    unfold sizes, types. rewrite !isin_all_options by assumption.
    destruct (Hr r Hin) as [H1 H2].
    apply Z.leb_le in H1, H2. rewrite H1, H2. cbn [andb]. now rewrite !andb_true_r. }
  split.
  - f_equal. apply filter_ext_in. exact M.
  - intros Hlen. f_equal. rewrite firstn_all2 in * by assumption.
    assert (A : forall l : list Row, (forall r, In r l -> In r df) ->
                filter (mask_row lower upper locs sizes types) l = l).
    { induction l as [|r l IHl]; intros Hl; [reflexivity|]. cbn [filter].
      rewrite M by (apply Hl; now left).
      unfold locs. rewrite isin_all_options;
        [|apply Hl; now left | apply Hall, Hl; now left].
      f_equal. apply IHl. intros x Hx. apply Hl. now right. }
    apply A. auto.
Qed.

Lemma first_run_view_witness :
  exists range locs sizes types,
    default_date_range (loaded fixture) = Some range /\
    options Job_Location_col (loaded fixture) = Ok (map Some locs) /\
    options Company_Size_col (loaded fixture) = Ok (map Some sizes) /\
    options Job_Type_col (loaded fixture) = Ok (map Some types) /\
    default_locations (loaded fixture) = Ok (map Some (firstn 5 locs)) /\
    StronglySorted str_lt locs /\
    filtered_df (loaded fixture) range (firstn 5 locs) sizes types
    = Ok (filter (fun r => isin (Job_Location_col r) (firstn 5 locs)) (loaded fixture)) /\
    (List.length locs <= 5 ->
     filtered_df (loaded fixture) range (firstn 5 locs) sizes types = Ok (loaded fixture)).
Proof.
  apply first_run_view; [discriminate|].
  repeat constructor.
Defined.

(** ** The table of results *)

(** X14. The table shown under the search box has the nine selected columns
    of exactly the records found: it is a rearrangement of them, none lost
    and none added, with the latest posting first; when every time of day
    lies within its day, no record stands above one posted later. *)
Theorem results_table_spec {S : Sorter} (results : list Row) :
  Permutation (map select_shown results) (results_table results) /\
  List.length (results_table results) = List.length results /\
  (forall s, In s (results_table results) <-> exists r, In r results /\ select_shown r = s) /\
  StronglySorted
    (fun a b => (instant (shown_Posted_Date b) <= instant (shown_Posted_Date a))%Z)
    (results_table results) /\
  (Forall (fun r => (0 <= ts_seconds (Posted_Date r) < 86400)%Z) results ->
   StronglySorted (fun a b => ~ ts_lt (shown_Posted_Date a) (shown_Posted_Date b))
     (results_table results)).
Proof.
  unfold results_table.
  pose proof (sort_values_perm _ posted_key (map select_shown results)) as P.
  assert (Hs : StronglySorted
    (fun a b => (instant (shown_Posted_Date b) <= instant (shown_Posted_Date a))%Z)
    (sort_values _ posted_key (map select_shown results))).
  { eapply StronglySorted_impl; [|apply sort_values_sorted].
    intros a b H. unfold posted_key, key_ge in H. now rewrite <- Zle_Qle in H. }
  split; [assumption|].
  split; [rewrite <- (Permutation_length P); apply length_map|].
  split.
  { intros s. split.
    - intros H. apply (Permutation_in _ (Permutation_sym P)) in H.
      apply in_map_iff in H as [r [E Hr]]. eauto.
    - intros [r [Hr E]]. apply (Permutation_in _ P). apply in_map_iff. eauto. }
  split; [assumption|].
  intros Hv.
  assert (V : Forall (fun s => (0 <= ts_seconds (shown_Posted_Date s) < 86400)%Z)
                (sort_values _ posted_key (map select_shown results))).
  { apply Forall_forall. intros s Hin.
    apply (Permutation_in _ (Permutation_sym P)) in Hin.
    apply in_map_iff in Hin as [r [<- Hr]]. rewrite Forall_forall in Hv.
    apply (Hv r Hr). }
  clear P. revert V. generalize (sort_values _ posted_key (map select_shown results)) Hs.
  clear. intros l Hs. induction Hs as [|a l Hl IH Ha]; intros V; [constructor|].
  inversion V as [|? ? Va Vl]; subst.
  constructor; [apply IH; assumption|].
  rewrite Forall_forall in *. intros b Hb. specialize (Ha b Hb). specialize (Vl b Hb).
  rewrite ts_lt_spec. unfold instant in Ha. cbn beta in *. lia.
Qed.

(** ** Searching within a search *)







(** ** The whole of the frequency table *)

Lemma missing_skills view :
  ~ Forall has_skills view <-> exists r, In r view /\ Skills_List r = None.
Proof.
  split.
  - intros H. induction view as [|r view IH]; [exfalso; apply H; constructor|].
    destruct (Skills_List r) as [l|] eqn:E; [|exists r; split; [now left | assumption]].
    destruct IH as [x [Hin Hx]].
    + intros F. apply H. constructor; [unfold has_skills; congruence | assumption].
    + exists x. split; [now right | assumption].
  - intros [r [Hin Hr]] F. rewrite Forall_forall in F. apply (F r Hin). assumption.
Qed.

Lemma stored_skills_length view :
  List.length (stored_skills view) = list_sum (map (fun r => List.length (skills_of r)) view).
Proof.
  unfold stored_skills. induction view as [|r view IH]; [reflexivity|].
  cbn [map flat_map]. rewrite length_app, list_sum_step, IH. reflexivity.
Qed.

(** X17. The frequency table of the skills fails, with a TypeError, exactly
    when some record of the view has no skills cell, and with no other
    error.  Otherwise it has every skill once, each with a count of at
    least 1, and the counts add up to the number of skills stored in the
    records of the view; the chart shows its first ten records, all of them
    when there are no more than ten skills. *)
Theorem skills_df_whole {S : Sorter} (view : list Row) :
  (skills_df view = Raise TypeError <-> exists r, In r view /\ Skills_List r = None) /\
  (forall e, skills_df view = Raise e -> e = TypeError) /\
  (forall table, skills_df view = Ok table ->
     NoDup (map fst table) /\
     Forall (fun p => 1 <= snd p) table /\
     list_sum (map snd table)
     = list_sum (map (fun r => List.length (skills_of r)) view) /\
     top_skills view = Ok (firstn 10 table) /\
     (List.length table <= 10 -> top_skills view = Ok table)).
Proof.
  assert (D : Forall has_skills view \/ ~ Forall has_skills view).
  { induction view as [|r view IH]; [left; constructor|].
    destruct (Skills_List r) as [l|] eqn:E.
    - destruct IH as [F|N]; [left; constructor; [unfold has_skills; congruence | assumption]|].
      right. intros F. apply N. now inversion F.
    - right. intros F. inversion F as [|? ? Hr _]; subst. now apply Hr. }
  unfold top_skills, skills_df. destruct D as [F|N].
  - rewrite (all_skills_flat view F). cbn [bind].
    split; [split; [discriminate|]|].
    { intros Hm. apply missing_skills in Hm. contradiction. }
    split; [discriminate|].
    intros table [= <-]. set (skills := map strip (stored_skills view)).
    split; [apply value_counts_NoDup|].
    split.
    { apply Forall_forall. intros [k n] Hin. apply value_counts_In in Hin as [Hk ->].
      cbn [snd]. apply (count_occ_In string_dec) in Hk. lia. }
    split.
    { unfold value_counts.
      rewrite <- (rearranged_sum _ _ (Permutation_map snd (sort_values_perm _ size_key _))).
      unfold groupby_size. rewrite map_map. cbn [snd].
      rewrite counts_add_up; [|apply group_keys_NoDup | intros x Hx; now apply group_keys_In].
      unfold skills. rewrite length_map. apply stored_skills_length. }
    split; [reflexivity|].
    intros Hl. now rewrite firstn_all2.
  - rewrite (all_skills_missing view N). cbn [bind].
    split; [split; [intros _; now apply missing_skills | reflexivity]|].
    split; [intros e [= <-]; reflexivity | discriminate].
Qed.

(** ** The salaries behind the ranking by salary *)



